(** * The LUT finder of the SAT solver ([src/sat/sat_lut_finder.cpp])

    A shallow embedding of [sat::lut_finder] and the properties of its
    combination word, masks, clause filter and clause bookkeeping.

    Conventions.
    - [uint64_t] and [unsigned] values are integers of [Z]; every operation
      that can leave the range is followed by [wrap64] or [wrap32].
    - Loop counters, positions in a vector and sizes are [nat].
    - A [clause*] is a [clause_id]; the immutable part of a clause (literals,
      [removed], [learned]) lives in the solver's heap, the mutable [used]
      flag in the set [used] of the state.
    - Member variables of [lut_finder] are the fields of the record
      [lut_finder]; a method is a function from state to state (and result).
    - Indexing a vector out of its range is undefined in the source; the
      model reads a default there and ignores a write.
    - Fields whose name starts with [g_] are specification-only history
      variables: no branch of the code depends on them. *)

From Stdlib Require Import ZArith Lia List Bool.
From stdpp Require Import base gmap list.

(** ** Machine words *)

Definition wrap32 (z : Z) : Z := (z mod 2 ^ 32)%Z.
Definition wrap64 (z : Z) : Z := (z mod 2 ^ 64)%Z.

(** [a << n] at type [unsigned] (32 bits) and [uint64_t]. *)
Definition shl32 (a : Z) (n : nat) : Z := wrap32 (Z.shiftl a (Z.of_nat n)).
Definition shl64 (a : Z) (n : nat) : Z := wrap64 (Z.shiftl a (Z.of_nat n)).

(** ** Literals, clauses and the solver *)

Definition bool_var := nat.
Definition clause_id := nat.

(** Modelled from the spec: the literal type is declared in sat_types.h, not
    among the sources.  A literal is a (variable, sign) pair with a negation
    and a stable index. *)
Record literal := mk_literal { var : bool_var; sign : bool }.

Definition index (l : literal) : nat := 2 * var l + (if sign l then 1 else 0).
Definition neg (l : literal) : literal := mk_literal (var l) (negb (sign l)).

(** [null_literal] is [None] in a [literal_vector] slot. *)
Definition null_literal : option literal := None.

(** Modelled from the spec: the clause type is declared in sat_clause.h, not
    among the sources: an ordered sequence of literals with the flags
    [removed] and [learned]; the flag [used] is kept in the state. *)
Record clause := mk_clause {
  lits : list literal;
  was_removed : bool;
  is_learned : bool
}.

Definition size (c : clause) : nat := length (lits c).

(** Modelled from the spec: an entry of a watch list (sat_watched.h is not
    among the sources) exposes whether it is a binary clause and the paired
    literal. *)
Record watched := mk_watched { is_binary_clause : bool; get_literal : literal }.

(** Modelled from the spec: what the pass reads of the solver
    (sat_solver.h is not among the sources): the variable count, the clauses
    behind the pointers, the two clause vectors and the watch lists. *)
Record solver := mk_solver {
  num_vars : nat;
  heap : clause_id -> clause;
  m_clauses : list clause_id;
  m_learned : list clause_id;
  get_wlist : literal -> list watched
}.

(** Modelled from the spec: [solver::all_distinct] is defined in
    sat_solver.cpp, not among the sources: true if no variable repeats in the
    clause. *)
Definition all_distinct (c : clause) : bool :=
  bool_decide (NoDup (map var (lits c))).

(** ** State of the finder *)

Record clause_filter := mk_clause_filter { m_filter : Z; m_clause_of : clause_id }.

(** One invocation of the callback [m_on_lut]; [call_seed] is a history tag
    naming the seed clause of the attempt that made the call. *)
Record lut_call := mk_lut_call {
  call_seed : clause_id;
  call_lut : Z;
  call_vars : list bool_var;
  call_out : bool_var
}.

(** What caused rows of the combination word to be marked in an attempt. *)
Inductive source :=
| SrcSeed (c : clause_id)
| SrcClause (c : clause_id)
| SrcBinary (l1 l2 : literal).

Record lut_finder := mk_lut_finder {
  m_clause_filters : list (list clause_filter);
  m_combination : Z;
  m_num_combinations : Z;
  m_clauses_to_remove : list clause_id;
  m_var_position : list nat;
  m_vars : list bool_var;
  m_clause : list (option literal);
  m_missing : list nat;
  m_removed_clauses : list clause_id;
  (* solver-side state the pass mutates *)
  used : gset clause_id;
  visited : gset bool_var;
  (* the calls made to m_on_lut, oldest first *)
  on_lut_calls : list lut_call;
  (* history variables *)
  g_seed : clause_id;
  g_sources : list source;
  g_attempts : list (clause_id * bool);
  g_assert_ok : bool
}.

Definition set_m_clause_filters (x : list (list clause_filter)) (st : lut_finder) : lut_finder :=
  mk_lut_finder x (m_combination st) (m_num_combinations st) (m_clauses_to_remove st)
    (m_var_position st) (m_vars st) (m_clause st) (m_missing st) (m_removed_clauses st)
    (used st) (visited st) (on_lut_calls st) (g_seed st) (g_sources st) (g_attempts st)
    (g_assert_ok st).
Definition set_m_combination (x : Z) (st : lut_finder) : lut_finder :=
  mk_lut_finder (m_clause_filters st) x (m_num_combinations st) (m_clauses_to_remove st)
    (m_var_position st) (m_vars st) (m_clause st) (m_missing st) (m_removed_clauses st)
    (used st) (visited st) (on_lut_calls st) (g_seed st) (g_sources st) (g_attempts st)
    (g_assert_ok st).
Definition set_m_num_combinations (x : Z) (st : lut_finder) : lut_finder :=
  mk_lut_finder (m_clause_filters st) (m_combination st) x (m_clauses_to_remove st)
    (m_var_position st) (m_vars st) (m_clause st) (m_missing st) (m_removed_clauses st)
    (used st) (visited st) (on_lut_calls st) (g_seed st) (g_sources st) (g_attempts st)
    (g_assert_ok st).
Definition set_m_clauses_to_remove (x : list clause_id) (st : lut_finder) : lut_finder :=
  mk_lut_finder (m_clause_filters st) (m_combination st) (m_num_combinations st) x
    (m_var_position st) (m_vars st) (m_clause st) (m_missing st) (m_removed_clauses st)
    (used st) (visited st) (on_lut_calls st) (g_seed st) (g_sources st) (g_attempts st)
    (g_assert_ok st).
Definition set_m_var_position (x : list nat) (st : lut_finder) : lut_finder :=
  mk_lut_finder (m_clause_filters st) (m_combination st) (m_num_combinations st)
    (m_clauses_to_remove st) x (m_vars st) (m_clause st) (m_missing st)
    (m_removed_clauses st) (used st) (visited st) (on_lut_calls st) (g_seed st)
    (g_sources st) (g_attempts st) (g_assert_ok st).
Definition set_m_vars (x : list bool_var) (st : lut_finder) : lut_finder :=
  mk_lut_finder (m_clause_filters st) (m_combination st) (m_num_combinations st)
    (m_clauses_to_remove st) (m_var_position st) x (m_clause st) (m_missing st)
    (m_removed_clauses st) (used st) (visited st) (on_lut_calls st) (g_seed st)
    (g_sources st) (g_attempts st) (g_assert_ok st).
Definition set_m_clause (x : list (option literal)) (st : lut_finder) : lut_finder :=
  mk_lut_finder (m_clause_filters st) (m_combination st) (m_num_combinations st)
    (m_clauses_to_remove st) (m_var_position st) (m_vars st) x (m_missing st)
    (m_removed_clauses st) (used st) (visited st) (on_lut_calls st) (g_seed st)
    (g_sources st) (g_attempts st) (g_assert_ok st).
Definition set_m_missing (x : list nat) (st : lut_finder) : lut_finder :=
  mk_lut_finder (m_clause_filters st) (m_combination st) (m_num_combinations st)
    (m_clauses_to_remove st) (m_var_position st) (m_vars st) (m_clause st) x
    (m_removed_clauses st) (used st) (visited st) (on_lut_calls st) (g_seed st)
    (g_sources st) (g_attempts st) (g_assert_ok st).
Definition set_m_removed_clauses (x : list clause_id) (st : lut_finder) : lut_finder :=
  mk_lut_finder (m_clause_filters st) (m_combination st) (m_num_combinations st)
    (m_clauses_to_remove st) (m_var_position st) (m_vars st) (m_clause st) (m_missing
    st) x (used st) (visited st) (on_lut_calls st) (g_seed st) (g_sources st)
    (g_attempts st) (g_assert_ok st).
Definition set_used (x : gset clause_id) (st : lut_finder) : lut_finder :=
  mk_lut_finder (m_clause_filters st) (m_combination st) (m_num_combinations st)
    (m_clauses_to_remove st) (m_var_position st) (m_vars st) (m_clause st) (m_missing
    st) (m_removed_clauses st) x (visited st) (on_lut_calls st) (g_seed st) (g_sources
    st) (g_attempts st) (g_assert_ok st).
Definition set_visited (x : gset bool_var) (st : lut_finder) : lut_finder :=
  mk_lut_finder (m_clause_filters st) (m_combination st) (m_num_combinations st)
    (m_clauses_to_remove st) (m_var_position st) (m_vars st) (m_clause st) (m_missing
    st) (m_removed_clauses st) (used st) x (on_lut_calls st) (g_seed st) (g_sources st)
    (g_attempts st) (g_assert_ok st).
Definition set_on_lut_calls (x : list lut_call) (st : lut_finder) : lut_finder :=
  mk_lut_finder (m_clause_filters st) (m_combination st) (m_num_combinations st)
    (m_clauses_to_remove st) (m_var_position st) (m_vars st) (m_clause st) (m_missing
    st) (m_removed_clauses st) (used st) (visited st) x (g_seed st) (g_sources st)
    (g_attempts st) (g_assert_ok st).
Definition set_g_seed (x : clause_id) (st : lut_finder) : lut_finder :=
  mk_lut_finder (m_clause_filters st) (m_combination st) (m_num_combinations st)
    (m_clauses_to_remove st) (m_var_position st) (m_vars st) (m_clause st) (m_missing
    st) (m_removed_clauses st) (used st) (visited st) (on_lut_calls st) x (g_sources st)
    (g_attempts st) (g_assert_ok st).
Definition set_g_sources (x : list source) (st : lut_finder) : lut_finder :=
  mk_lut_finder (m_clause_filters st) (m_combination st) (m_num_combinations st)
    (m_clauses_to_remove st) (m_var_position st) (m_vars st) (m_clause st) (m_missing
    st) (m_removed_clauses st) (used st) (visited st) (on_lut_calls st) (g_seed st) x
    (g_attempts st) (g_assert_ok st).
Definition set_g_attempts (x : list (clause_id * bool)) (st : lut_finder) : lut_finder :=
  mk_lut_finder (m_clause_filters st) (m_combination st) (m_num_combinations st)
    (m_clauses_to_remove st) (m_var_position st) (m_vars st) (m_clause st) (m_missing
    st) (m_removed_clauses st) (used st) (visited st) (on_lut_calls st) (g_seed st)
    (g_sources st) x (g_assert_ok st).
Definition set_g_assert_ok (x : bool) (st : lut_finder) : lut_finder :=
  mk_lut_finder (m_clause_filters st) (m_combination st) (m_num_combinations st)
    (m_clauses_to_remove st) (m_var_position st) (m_vars st) (m_clause st) (m_missing
    st) (m_removed_clauses st) (used st) (visited st) (on_lut_calls st) (g_seed st)
    (g_sources st) (g_attempts st) x.

(** ** Masks ([init_mask]) *)

(** The [while (w < 64)] loop of [init_mask].  [None] means the loop did not
    leave within [fuel] iterations. *)
Fixpoint init_mask_loop (fuel : nat) (m w : Z) : option Z :=
  match fuel with
  | O => if (w <? 64)%Z then None else Some m
  | S fuel' =>
      if (w <? 64)%Z
      then init_mask_loop fuel' (Z.lor m (wrap64 (Z.shiftl m w))) (wrap32 (w * 2))
      else Some m
  end.

Definition init_mask (i : nat) : option Z :=
  if Nat.eqb i 6 then Some (wrap64 (Z.lnot 0))
  else
    let m := wrap64 (shl64 1 (Z.to_nat (shl32 1 i)) - 1) in
    let w := shl32 1 (i + 1) in
    init_mask_loop 64 m w.

(** [m_masks] after [for (i = 0; i <= 6; ++i) init_mask(i)]. *)
Definition m_masks : list Z :=
  map (fun i => default 0%Z (init_mask i)) (seq 0 7).

Definition mask_at (i : nat) : Z := nth i m_masks 0%Z.

(** ** The combination word *)

(** Modelled from the spec: [set_combination] is defined in sat_lut_finder.h,
    not among the sources: if bit [mask] is unset, set it and increment the
    witnessed count. *)
Definition set_combination (mask : Z) (st : lut_finder) : lut_finder :=
  if Z.testbit (m_combination st) mask then st
  else
    set_m_num_combinations (wrap32 (m_num_combinations st + 1))
      (set_m_combination
         (Z.lor (m_combination st) (shl64 1 (Z.to_nat mask))) st).

(** [lut_is_defined(unsigned i, unsigned sz)] *)
Definition lut_is_defined_at (i sz : nat) (st : lut_finder) : bool :=
  let c := Z.lor (m_combination st)
             (Z.shiftr (m_combination st) (shl64 1 i)) in
  let m := mask_at i in
  let m := if sz <? 6 then Z.land m (wrap64 (shl64 1 sz - 1)) else m in
  (Z.land c m =? m)%Z.

(** [lut_is_defined(unsigned sz)] *)
Definition lut_is_defined (sz : nat) (st : lut_finder) : bool :=
  if (m_num_combinations st <? shl64 1 (sz / 2))%Z then false
  else existsb (fun i => lut_is_defined_at i sz st) (seq 0 sz).

(** The inner loop of [update_combinations]: its body, and the row [mask2]
    it leaves for the completion [k]. *)
Definition completion_step (missing : list nat) (k : nat) (mask2 : Z) (i : nat)
  : Z :=
  if negb (Z.land (Z.of_nat k) (shl32 1 i) =? 0)%Z
  then wrap32 (Z.lor mask2 (shl64 1 (nth i missing 0)))
  else mask2.

Definition completion (mask : Z) (missing : list nat) (k : nat) : Z :=
  fold_left (completion_step missing k) (seq 0 (length missing)) mask.

Definition update_combinations (mask : Z) (st : lut_finder) : lut_finder * bool :=
  let num_missing := length (m_missing st) in
  let st' :=
    fold_left
      (fun st k => set_combination (completion mask (m_missing st) k) st)
      (seq 0 (Z.to_nat (shl64 1 num_missing))) st in
  (st', lut_is_defined (length (m_vars st')) st').

(** Modelled from the spec: [vector::erase(T const& elem)] is defined in
    util/vector.h, not among the sources: it removes the variable from the
    list, at its first occurrence. *)
Fixpoint erase (v : bool_var) (vars : list bool_var) : list bool_var :=
  match vars with
  | [] => []
  | x :: vars' => if Nat.eqb x v then vars' else x :: erase v vars'
  end.

(** The [case 0] loop of [convert_combination] over the shortened [vars]. *)
Definition fold_position0 (comb : Z) (nvars : nat) : Z :=
  fold_left
    (fun r j =>
       if (Z.land comb (shl64 1 (2 * j)) =? 0)%Z
       then Z.lor r (shl64 1 j) else r)
    (seq 0 (Z.to_nat (shl32 1 nvars))) 0%Z.

(** The scan [for (; i < vars.size(); ++i) if (lut_is_defined(i, sz)) break;]
    of [convert_combination]: the position it stops at, if any. *)
Definition first_defined (sz : nat) (st : lut_finder) : option nat :=
  find (fun i => lut_is_defined_at i sz st) (seq 0 sz).

(** [convert_combination(vars, v)]: the truth table, the shortened [vars]
    and the variable [v].  [None] when the scan finds no position, where the
    source reads [vars[i]] out of bounds (excluded by its assertions).
    [num_strides] is computed by the source and never used. *)
Definition convert_combination (vars : list bool_var) (st : lut_finder)
  : option (Z * list bool_var * bool_var) :=
  let i := default (length vars) (first_defined (length vars) st) in
  match nth_error vars i with
  | None => None
  | Some v =>
      let vars' := erase v vars in
      let r :=
        match i with
        | 0 => fold_position0 (m_combination st) (length vars')
        | 1 => fold_left (fun r _ => r)
                 (seq 0 (Z.to_nat (shl32 1 (length vars')))) 0%Z
        | _ => 0%Z
        end in
      Some (r, vars', v)
  end.

(** [get_clause_filter] *)
Definition get_clause_filter (c : clause) : Z :=
  fold_left (fun filter l => Z.lor filter (shl32 1 (var l mod 32)))
    (lits c) 0%Z.

(** ** Solver-side marks *)

(** Modelled from the spec: the [used] flag of a clause (sat_clause.h is not
    among the sources) is readable and settable. *)
Definition was_used (c : clause_id) (st : lut_finder) : bool :=
  bool_decide (c ∈ used st).
Definition mark_used (c : clause_id) (st : lut_finder) : lut_finder :=
  set_used ({[c]} ∪ used st) st.
Definition unmark_used (c : clause_id) (st : lut_finder) : lut_finder :=
  set_used (used st ∖ {[c]}) st.

(** Modelled from the spec: the visited marks of the solver
    ([init_visited], [mark_visited], [is_visited]) are defined in
    sat_solver.h, not among the sources. *)
Definition init_visited (st : lut_finder) : lut_finder := set_visited ∅ st.
Definition mark_visited (v : bool_var) (st : lut_finder) : lut_finder :=
  set_visited ({[v]} ∪ visited st) st.
Definition is_visited (v : bool_var) (st : lut_finder) : bool :=
  bool_decide (v ∈ visited st).

(** A loop whose body may [return] out of the enclosing function: the
    boolean says that it did. *)
Fixpoint first_success {A : Type} (body : A -> lut_finder -> lut_finder * bool)
    (xs : list A) (st : lut_finder) : lut_finder * bool :=
  match xs with
  | [] => (st, false)
  | x :: xs' =>
      let '(st', done) := body x st in
      if done then (st', true) else first_success body xs' st'
  end.

Section Finder.

Variable s : solver.
Variable m_max_lut_size : nat.

(** ** Index of clauses ([init_clause_filter]) *)

Definition init_clause_filter_vec (clauses : list clause_id) (st : lut_finder)
  : lut_finder :=
  fold_left
    (fun st cp =>
       let c := heap s cp in
       if (size c <=? m_max_lut_size) && all_distinct c then
         let cf := mk_clause_filter (get_clause_filter c) cp in
         fold_left
           (fun st l =>
              set_m_clause_filters
                (alter (fun fs => fs ++ [cf]) (var l) (m_clause_filters st)) st)
           (lits c) st
       else st)
    clauses st.

Definition init_clause_filter (st : lut_finder) : lut_finder :=
  let st := set_m_clause_filters (replicate (num_vars s) []) st in
  let st := init_clause_filter_vec (m_clauses s) st in
  init_clause_filter_vec (m_learned s) st.

(** ** Extraction of rows *)

(** The loop of [extract_lut(l1, l2)]: the row mask of the pair and the
    missing positions. *)
Definition collect_mask_bin (l1 l2 : literal) (st : lut_finder) : lut_finder * Z :=
  fold_left
    (fun '(st, mask) i =>
       let x := nth i (m_vars st) 0 in
       if Nat.eqb x (var l1) then
         (st, wrap32 (Z.lor mask (shl32 (Z.b2z (sign l1)) i)))
       else if Nat.eqb x (var l2) then
         (st, wrap32 (Z.lor mask (shl32 (Z.b2z (sign l2)) i)))
       else (set_m_missing (m_missing st ++ [i]) st, mask))
    (seq 0 (length (m_vars st))) (st, 0%Z).

(** [extract_lut(literal l1, literal l2)] *)
Definition extract_lut_bin (l1 l2 : literal) (st : lut_finder) : lut_finder * bool :=
  let st := set_g_sources (g_sources st ++ [SrcBinary l1 l2]) st in
  let st := set_m_missing [] st in
  let '(st, mask) := collect_mask_bin l1 l2 st in
  update_combinations mask st.

(** The [if (c2.size() == m_vars.size())] block of [extract_lut(c2)]. *)
Definition schedule_if_full (c2 : clause_id) (st : lut_finder) : lut_finder :=
  if Nat.eqb (size (heap s c2)) (length (m_vars st)) then
    mark_used c2 (set_m_clauses_to_remove (m_clauses_to_remove st ++ [c2]) st)
  else st.

(** The two loops of [extract_lut(c2)] that clear [m_clause] and place every
    literal of [c2] at the position of its variable. *)
Definition place_literals (c : clause) (st : lut_finder) : lut_finder :=
  let st :=
    fold_left
      (fun st i => set_m_clause (<[i := null_literal]> (m_clause st)) st)
      (seq 0 (length (m_vars st))) st in
  fold_left
    (fun st l =>
       let pos := nth (var l) (m_var_position st) 0 in
       set_m_clause (<[pos := Some l]> (m_clause st)) st)
    (lits c) st.

(** The last loop of [extract_lut(c2)]: the row mask and the missing
    positions. *)
Definition collect_mask (st : lut_finder) : lut_finder * Z :=
  fold_left
    (fun '(st, mask) j =>
       match nth j (m_clause st) null_literal with
       | None => (set_m_missing (m_missing st ++ [j]) st, mask)
       | Some lit => (st, wrap32 (Z.lor mask (shl32 (Z.b2z (sign lit)) j)))
       end)
    (seq 0 (length (m_vars st))) (st, 0%Z).

(** [extract_lut(clause& c2)]; the flag [g_assert_ok] records whether
    [SASSERT(c2.size() <= m_vars.size())] held. *)
Definition extract_lut (c2 : clause_id) (st : lut_finder) : lut_finder * bool :=
  let c := heap s c2 in
  if negb (forallb (fun l => is_visited (var l) st) (lits c)) then (st, false)
  else
    let st := schedule_if_full c2 st in
    let st := set_g_sources (g_sources st ++ [SrcClause c2]) st in
    let st := set_m_missing [] st in
    let st :=
      set_g_assert_ok (g_assert_ok st && (size c <=? length (m_vars st))) st in
    let st := place_literals c st in
    let '(st, mask) := collect_mask st in
    update_combinations mask st.

(** [add_lut]; the callback is invoked with the shortened [m_vars]. *)
Definition add_lut (st : lut_finder) : lut_finder :=
  let st :=
    set_m_removed_clauses (m_removed_clauses st ++ m_clauses_to_remove st) st in
  match convert_combination (m_vars st) st with
  | Some (lut, vars, v) =>
      set_on_lut_calls
        (on_lut_calls st ++ [mk_lut_call (g_seed st) lut vars v])
        (set_m_vars vars st)
  | None => st
  end.

(** ** One attempt ([check_lut]) *)

(** The loop over a watch list, for the literal [l] as it is at that point. *)
Definition try_watch_list (l : literal) (st : lut_finder) : lut_finder * bool :=
  first_success
    (fun w st =>
       if is_binary_clause w && is_visited (var (get_literal w)) st
          && (index (get_literal w) <? index l)
       then
         let '(st, ok) := extract_lut_bin (neg l) (get_literal w) st in
         if ok then (add_lut st, true) else (st, false)
       else (st, false))
    (get_wlist s l) st.

Definition try_literal (filter : Z) (l : literal) (st : lut_finder)
  : lut_finder * bool :=
  let '(st, done) :=
    first_success
      (fun cf st =>
         if (filter =? Z.lor filter (m_filter cf))%Z
            && negb (was_used (m_clause_of cf) st)
         then
           let '(st, ok) := extract_lut (m_clause_of cf) st in
           if ok then (add_lut st, true) else (st, false)
         else (st, false))
      (nth (var l) (m_clause_filters st) []) st in
  if done then (st, true)
  else
    let '(st, done) := try_watch_list l st in
    if done then (st, true)
    else try_watch_list (neg l) st.

(** The first loop of [check_lut]: variables, positions, visited marks and
    the row mask of the seed clause. *)
Definition seed_vars (c : clause) (st : lut_finder) : lut_finder * Z * nat :=
  fold_left
    (fun '(st, mask, i) l =>
       let st := set_m_vars (m_vars st ++ [var l]) st in
       let st := set_m_var_position (<[var l := i]> (m_var_position st)) st in
       let st := mark_visited (var l) st in
       (st, wrap32 (Z.lor mask (shl32 (Z.b2z (sign l)) i)), S i))
    (lits c) (st, 0%Z, 0).

(** The SEED step: everything [check_lut] does before its main loop. *)
Definition seed (c : clause_id) (st : lut_finder) : lut_finder :=
  let st := init_visited st in
  let st := set_m_vars [] st in
  let '(st, mask, _) := seed_vars (heap s c) st in
  let st := set_m_clauses_to_remove [c] st in
  let st := set_m_clause (resize (size (heap s c)) null_literal (m_clause st)) st in
  let st := set_m_combination 0%Z st in
  let st := set_m_num_combinations 0%Z st in
  let st := set_g_sources [SrcSeed c] (set_g_seed c st) in
  let st := set_combination mask st in
  mark_used c st.

Definition check_lut (c : clause_id) (st : lut_finder) : lut_finder * bool :=
  let filter := get_clause_filter (heap s c) in
  let st := seed c st in
  let '(st, found) := first_success (try_literal filter) (lits (heap s c)) st in
  (set_g_attempts (g_attempts st ++ [(c, found)]) st, found).

(** ** The pass ([operator()]) *)

Definition check_size (max_size : nat) (clauses : list clause_id)
    (st : lut_finder) : lut_finder :=
  fold_left
    (fun st cp =>
       let c := heap s cp in
       if Nat.eqb (size c) max_size && negb (was_removed c)
          && negb (is_learned c) && negb (was_used cp st)
       then fst (check_lut cp st) else st)
    clauses st.

(** [max_size, max_size - 1, ..., 3]: the values of the outer loop. *)
Definition sizes (max_size : nat) : list nat := rev (seq 3 (max_size - 2)).

(** [operator()] up to its main loop. *)
Definition pass_start (clauses : list clause_id) (st : lut_finder) : lut_finder :=
  let st := set_m_removed_clauses [] st in
  let st := set_g_assert_ok true (set_g_attempts [] (set_on_lut_calls [] st)) in
  let st := init_clause_filter st in
  let st := set_m_var_position (resize (num_vars s) 0 (m_var_position st)) st in
  fold_left (fun st cp => unmark_used cp st) clauses st.

(** The main loop of [operator()]. *)
Definition pass_search (clauses : list clause_id) (st : lut_finder) : lut_finder :=
  fold_left (fun st max_size => check_size max_size clauses st)
    (sizes m_max_lut_size) st.

(** [operator()] after its main loop: the state and the filtered [clauses]. *)
Definition pass_finish (clauses : list clause_id) (st : lut_finder)
  : lut_finder * list clause_id :=
  let st := set_m_clause_filters [] st in
  let st := fold_left (fun st cp => unmark_used cp st) clauses st in
  let st := fold_left (fun st cp => mark_used cp st) (m_removed_clauses st) st in
  (st, List.filter (fun cp => negb (was_used cp st)) clauses).

(** [operator()(clauses)].  The source asserts that the combination word has
    at least [2^max_size] bits; the logs of the pass start empty. *)
Definition run (clauses : list clause_id) (st : lut_finder)
  : lut_finder * list clause_id :=
  pass_finish clauses (pass_search clauses (pass_start clauses st)).

End Finder.

(** A finder object before its first pass. *)
Definition empty_finder : lut_finder :=
  mk_lut_finder [] 0%Z 0%Z [] [] [] [] [] [] ∅ ∅ [] 0 [] [] true.

(** ** Example solvers *)

Definition pos (v : bool_var) : literal := mk_literal v false.
Definition neg_of (v : bool_var) : literal := mk_literal v true.

(** x0 ∨ x1 ∨ x2 together with ¬x0 ∨ x1. *)
Definition example_heap (c : clause_id) : clause :=
  match c with
  | 0 => mk_clause [pos 0; pos 1; pos 2] false false
  | 1 => mk_clause [neg_of 0; pos 1] false false
  | _ => mk_clause [] false false
  end.

Definition example_solver : solver :=
  mk_solver 3 example_heap [0; 1] [] (fun _ => []).

(** A single clause x0 ∨ x1 ∨ x2 ∨ x3 and nothing to extend it with. *)
Definition lonely_heap (c : clause_id) : clause :=
  match c with
  | 0 => mk_clause [pos 0; pos 1; pos 2; pos 3] false false
  | _ => mk_clause [] false false
  end.

Definition lonely_solver : solver :=
  mk_solver 4 lonely_heap [0] [] (fun _ => []).

(** * Specification vocabulary *)

(** ** Bit patterns *)

(** [w] consists of alternating blocks of [2^i] bits; [low] is the value of
    the bits of the lowest block. *)
Definition block_pattern (i : nat) (low : bool) (w : Z) : Prop :=
  (0 <= w < 2 ^ 64)%Z /\
  forall p : nat, p < 64 ->
    Z.testbit w (Z.of_nat p) = xorb (Z.testbit (Z.of_nat p) (Z.of_nat i)) low.

Definition block_patternb (i : nat) (low : bool) (w : Z) : bool :=
  (0 <=? w)%Z && (w <? 2 ^ 64)%Z &&
  forallb
    (fun p => Bool.eqb (Z.testbit w (Z.of_nat p))
                (xorb (Z.testbit (Z.of_nat p) (Z.of_nat i)) low))
    (seq 0 64).

(** The reading of C2: for every assignment of the other variables, the row
    with variable [i] false and the row with variable [i] true are both
    witnessed. *)
Definition both_rows_witnessed (i sz : nat) (comb : Z) : Prop :=
  forall r : Z, (0 <= r < 2 ^ Z.of_nat sz)%Z ->
    Z.testbit r (Z.of_nat i) = false ->
    Z.testbit comb r = true /\ Z.testbit comb (r + 2 ^ Z.of_nat i) = true.

(** The reading of [lut_is_defined(i, sz)] as a function test: for every
    assignment of the other variables, the row with variable [i] false or the
    row with variable [i] true is witnessed. *)
Definition some_row_witnessed (i sz : nat) (comb : Z) : Prop :=
  forall r : Z, (0 <= r < 2 ^ Z.of_nat sz)%Z ->
    Z.testbit r (Z.of_nat i) = false ->
    Z.testbit comb r = true \/ Z.testbit comb (r + 2 ^ Z.of_nat i) = true.

(** The bits of the mask the code compares with: bit [i] of the position
    clear, and the position below [sz] when [sz < 6]. *)
Definition tested_row (i sz : nat) (p : Z) : Prop :=
  (0 <= p < 64)%Z /\ Z.testbit p (Z.of_nat i) = false /\
  (sz < 6 -> (p < Z.of_nat sz)%Z).

Definition truncated_mask (i sz : nat) : Z :=
  if sz <? 6 then Z.land (mask_at i) (2 ^ Z.of_nat sz - 1) else mask_at i.

(** ** Rows and completions *)

(** Index [k] read back from a row: bit [i] is the row's bit at the [i]-th
    missing position. *)
Fixpoint bits_of_row (r : Z) (missing : list nat) : Z :=
  match missing with
  | [] => 0%Z
  | p :: ps => (2 * bits_of_row r ps + Z.b2z (Z.testbit r (Z.of_nat p)))%Z
  end.

(** The rows marked by [update_combinations], in the order of the loop. *)
Definition completions (mask : Z) (missing : list nat) : list Z :=
  map (completion mask missing) (seq 0 (2 ^ length missing)).

(** ** Groups of fields *)

(** Everything in the state except the combination word and its count. *)
Definition frame (st : lut_finder) :=
  (m_clause_filters st, m_clauses_to_remove st, m_var_position st, m_vars st,
   m_clause st, m_missing st, m_removed_clauses st, used st, visited st,
   on_lut_calls st, g_seed st, g_sources st, g_attempts st, g_assert_ok st).

(** The fields the search and the pass keep their books in. *)
Definition books (st : lut_finder) :=
  (m_clause_filters st, m_clauses_to_remove st, m_vars st,
   m_removed_clauses st, used st, visited st, on_lut_calls st, g_seed st,
   g_sources st, g_attempts st, g_assert_ok st).

(** The fields the first loop of [check_lut] leaves alone. *)
Definition seed_frame (st : lut_finder) :=
  (m_clause_filters st, m_clauses_to_remove st, m_removed_clauses st, used st,
   on_lut_calls st, g_seed st, g_sources st, g_attempts st, g_assert_ok st).

(** The fields the index construction and the flag loops leave alone. *)
Definition pass_frame (st : lut_finder) :=
  (m_removed_clauses st, on_lut_calls st, g_attempts st, g_assert_ok st).

(** ** Attempts and passes *)

Section Vocabulary.

Variable s : solver.
Variable clauses : list clause_id.

(** What [extract_lut(c2)] does to the books once the subset test passed. *)
Definition extract_lut_effect (c2 : clause_id) (st : lut_finder) : lut_finder :=
  let st := schedule_if_full s c2 st in
  let st := set_g_sources (g_sources st ++ [SrcClause c2]) st in
  set_g_assert_ok
    (g_assert_ok st && (size (heap s c2) <=? length (m_vars st))) st.

(** The clauses an attempt with seed [c] schedules for removal, read off the
    log of its sources: the index clauses with as many literals as [c]. *)
Definition scheduled (c : clause_id) (srcs : list source) : list clause_id :=
  omap
    (fun src =>
       match src with
       | SrcClause x =>
           if Nat.eqb (size (heap s x)) (size (heap s c)) then Some x else None
       | _ => None
       end) srcs.

(** Every clause of the index has pairwise distinct variables. *)
Definition filters_distinct (fs : list (list clause_filter)) : Prop :=
  Forall (Forall (fun cf => all_distinct (heap s (m_clause_of cf)) = true)) fs.

(** The state [st] of an attempt with seed [c] started in [st0]; [found]
    says that [add_lut] has run. *)
Record attempt (c : clause_id) (st0 st : lut_finder) (found : bool) : Prop := {
  at_filters : m_clause_filters st = m_clause_filters st0;
  at_attempts : g_attempts st = g_attempts st0;
  at_used_mono : used st0 ⊆ used st;
  at_used_seed : c ∈ used st;
  at_to_remove : m_clauses_to_remove st = c :: scheduled c (g_sources st);
  at_to_remove_used :
    forall x, x ∈ m_clauses_to_remove st ->
      x ∈ used st /\ (x = c \/ x ∉ used st0);
  at_sources_seed : SrcSeed c ∈ g_sources st;
  at_assert :
    filters_distinct (m_clause_filters st0) -> g_assert_ok st = g_assert_ok st0;
  at_removed :
    m_removed_clauses st
    = m_removed_clauses st0 ++ (if found then m_clauses_to_remove st else []);
  at_calls :
    if found
    then exists call,
           on_lut_calls st = on_lut_calls st0 ++ [call] /\ call_seed call = c
    else on_lut_calls st = on_lut_calls st0;
  at_matching :
    found = false ->
    m_vars st = map var (lits (heap s c)) /\
    (forall v, v ∈ visited st <-> v ∈ m_vars st) /\
    g_seed st = c
}.

(** What holds between two attempts of a pass over the index [F]. *)
Definition pass_inv (F : list (list clause_filter)) (st : lut_finder) : Prop :=
  m_clause_filters st = F /\
  g_assert_ok st = true /\
  (forall x, x ∈ m_removed_clauses st -> x ∈ used st) /\
  (forall call, call ∈ on_lut_calls st -> call_seed call ∈ used st) /\
  (forall c, (c, false) ∈ g_attempts st ->
     c ∈ clauses /\ c ∈ used st /\ (c ∉ m_removed_clauses st) /\
     (forall call, call ∈ on_lut_calls st -> call_seed call <> c)).

End Vocabulary.

(** ** Sources of rows *)

(** The reading of C3: the clauses scheduled for removal are exactly the
    clauses that were a source of rows, as the seed or as a clause of the
    index, and no source of rows is left out; an implication is no clause
    object and cannot lie in [m_clauses_to_remove], so none may have been a
    source. *)
Definition contributors_are_scheduled (st : lut_finder) : Prop :=
  (forall x, x ∈ m_clauses_to_remove st <->
     SrcSeed x ∈ g_sources st \/ SrcClause x ∈ g_sources st) /\
  (forall l1 l2, SrcBinary l1 l2 ∉ g_sources st).

(** The rows a source stands for in the truth table over the variables of
    the seed [c]: those that carry, at the position of each of its
    variables, the sign of its literal (for a pair, the first literal where
    both have the variable of the position). *)
Definition source_row (s : solver) (c : clause_id) (src : source) (r : Z)
  : Prop :=
  (0 <= r < 2 ^ Z.of_nat (size (heap s c)))%Z /\
  forall k v, map var (lits (heap s c)) !! k = Some v ->
    match src with
    | SrcSeed x | SrcClause x =>
        forall l, l ∈ lits (heap s x) -> var l = v ->
          Z.testbit r (Z.of_nat k) = sign l
    | SrcBinary l1 l2 =>
        (v = var l1 -> Z.testbit r (Z.of_nat k) = sign l1) /\
        (v <> var l1 -> v = var l2 -> Z.testbit r (Z.of_nat k) = sign l2)
    end.

(** The sources an attempt with seed [c] over the index [F] can take rows
    from: the seed, a clause of the index without a repeated variable whose
    variables are variables of the seed, and a binary clause of a watch list
    over variables of the seed. *)
Definition source_admitted (s : solver) (c : clause_id)
    (F : list (list clause_filter)) (src : source) : Prop :=
  match src with
  | SrcSeed x => x = c
  | SrcClause x =>
      (exists v cf, cf ∈ nth v F [] /\ m_clause_of cf = x) /\
      all_distinct (heap s x) = true /\
      forall l, l ∈ lits (heap s x) -> var l ∈ map var (lits (heap s c))
  | SrcBinary l1 l2 =>
      (exists l w, w ∈ get_wlist s l /\ is_binary_clause w = true /\
                   l1 = neg l /\ l2 = get_literal w) /\
      var l1 ∈ map var (lits (heap s c)) /\
      var l2 ∈ map var (lits (heap s c))
  end.

(** What the extraction of rows relies on during an attempt with seed [c]:
    the variables, their positions and the marks are those of the seed. *)
Record tracking (s : solver) (c : clause_id) (F : list (list clause_filter))
    (st : lut_finder) : Prop := {
  tr_vars : m_vars st = map var (lits (heap s c));
  tr_visited : forall v, v ∈ visited st <-> v ∈ map var (lits (heap s c));
  tr_positions :
    forall k l, lits (heap s c) !! k = Some l ->
      nth (var l) (m_var_position st) 0 = k;
  tr_clause : length (m_clause st) = size (heap s c);
  tr_count : (0 <= m_num_combinations st < 2 ^ 32)%Z;
  tr_filters : m_clause_filters st = F
}.

(** The log of sources accounts for the combination word: every logged
    source is admitted, and the witnessed rows are exactly the rows of the
    logged sources. *)
Definition grounded (s : solver) (c : clause_id) (F : list (list clause_filter))
    (st : lut_finder) : Prop :=
  (forall src, src ∈ g_sources st -> source_admitted s c F src) /\
  (forall r, (0 <= r)%Z ->
     Z.testbit (m_combination st) r = true <->
     exists src, src ∈ g_sources st /\ source_row s c src r).

(** The sign a clause gives to the variable [v] ([false] if it has none). *)
Definition sign_at (ls : list literal) (v : bool_var) : bool :=
  match find (fun l => Nat.eqb (var l) v) ls with
  | Some l => sign l
  | None => false
  end.

Fixpoint row_of_signs (bs : list bool) : Z :=
  match bs with
  | [] => 0%Z
  | b :: bs' => (2 * row_of_signs bs' + Z.b2z b)%Z
  end.

(** The row of the clause [x] over the variables of the seed [c], with the
    positions [x] does not mention left clear. *)
Definition row_of (s : solver) (c x : clause_id) : Z :=
  row_of_signs (map (sign_at (lits (heap s x))) (map var (lits (heap s c)))).

(** ** Further example solvers *)

(** The seed ¬x0 ∨ ¬x1 ∨ ¬x2 ∨ ¬x3 with x0 ∨ ¬x1 ∨ ¬x2 ∨ ¬x3, the smaller
    clause x1 ∨ ¬x2 ∨ ¬x3 and the binary clause x2 ∨ ¬x3 in the watch
    lists of ¬x2 and x3. *)
Definition quad_heap (c : clause_id) : clause :=
  match c with
  | 0 => mk_clause [neg_of 0; neg_of 1; neg_of 2; neg_of 3] false false
  | 1 => mk_clause [pos 0; neg_of 1; neg_of 2; neg_of 3] false false
  | 2 => mk_clause [pos 1; neg_of 2; neg_of 3] false false
  | _ => mk_clause [] false false
  end.

Definition quad_wlist (l : literal) : list watched :=
  match var l, sign l with
  | 2, true => [mk_watched true (neg_of 3)]
  | 3, false => [mk_watched true (pos 2)]
  | _, _ => []
  end.

Definition quad_solver : solver :=
  mk_solver 4 quad_heap [0; 1; 2] [] quad_wlist.

(** The seed ¬x0 ∨ ¬x1 ∨ ¬x2 with the three other clauses over x0, x1
    that contain ¬x2. *)
Definition trio_heap (c : clause_id) : clause :=
  match c with
  | 0 => mk_clause [neg_of 0; neg_of 1; neg_of 2] false false
  | 1 => mk_clause [pos 0; neg_of 1; neg_of 2] false false
  | 2 => mk_clause [neg_of 0; pos 1; neg_of 2] false false
  | 3 => mk_clause [pos 0; pos 1; neg_of 2] false false
  | _ => mk_clause [] false false
  end.

Definition trio_solver : solver :=
  mk_solver 3 trio_heap [0; 1; 2; 3] [] (fun _ => []).

(** ** Vocabulary of the further properties *)

(** The clauses [init_clause_filter] admits to the index. *)
Definition indexable (s : solver) (m_max_lut_size : nat) (cp : clause_id) : Prop :=
  (cp ∈ m_clauses s \/ cp ∈ m_learned s) /\
  size (heap s cp) <= m_max_lut_size /\
  all_distinct (heap s cp) = true.

(** The clauses the main loop of [operator()] may pick as a seed. *)
Definition eligible (s : solver) (m_max_lut_size : nat) (cp : clause_id) : Prop :=
  3 <= size (heap s cp) <= m_max_lut_size /\
  was_removed (heap s cp) = false /\
  is_learned (heap s cp) = false.

(** Every clause of the index satisfies [Q]. *)
Definition filters_sat (Q : clause_id -> Prop) (fs : list (list clause_filter))
  : Prop :=
  forall v cf, cf ∈ nth v fs [] -> Q (m_clause_of cf).

(** Every index clause that gave rows to the attempt with seed [c] satisfies
    [Q] and mentions only variables of [c]. *)
Definition sources_inside (s : solver) (Q : clause_id -> Prop) (c : clause_id)
    (st : lut_finder) : Prop :=
  forall x, SrcClause x ∈ g_sources st ->
    Q x /\
    forall v, v ∈ map var (lits (heap s x)) -> v ∈ map var (lits (heap s c)).

(** What the logs of a pass over [clauses] satisfy between two attempts. *)
Record pass_log (s : solver) (m_max_lut_size : nat) (clauses : list clause_id)
    (Q : clause_id -> Prop) (st : lut_finder) : Prop := {
  pl_filters : filters_sat Q (m_clause_filters st);
  pl_seeds :
    forall c b, (c, b) ∈ g_attempts st ->
      c ∈ clauses /\ c ∈ used st /\ eligible s m_max_lut_size c;
  pl_once : NoDup (map fst (g_attempts st));
  pl_calls :
    map call_seed (on_lut_calls st)
    = map fst (List.filter snd (g_attempts st));
  pl_success : forall c, (c, true) ∈ g_attempts st -> c ∈ m_removed_clauses st;
  pl_removed :
    forall x, x ∈ m_removed_clauses st ->
      exists c, (c, true) ∈ g_attempts st /\
        (x = c \/
         (Q x /\ size (heap s x) = size (heap s c) /\
          forall v, v ∈ map var (lits (heap s x)) ->
                    v ∈ map var (lits (heap s c))))
}.

(** The body shared by the mask loops of [extract_lut]: position [j] either
    carries a sign, which goes into the mask, or is missing. *)
Definition classify_step (rd : lut_finder -> nat -> option bool)
    (a : lut_finder * Z) (j : nat) : lut_finder * Z :=
  let '(st, mask) := a in
  match rd st j with
  | None => (set_m_missing (m_missing st ++ [j]) st, mask)
  | Some b => (st, wrap32 (Z.lor mask (shl32 (Z.b2z b) j)))
  end.

Definition is_none {A : Type} (o : option A) : bool :=
  match o with None => true | Some _ => false end.

(** The sign [extract_lut(c2)] reads at slot [j] of [m_clause]. *)
Definition slot_sign (st : lut_finder) (j : nat) : option bool :=
  match nth j (m_clause st) null_literal with
  | None => None
  | Some lit => Some (sign lit)
  end.

(** The sign [extract_lut(l1, l2)] reads at position [i] of [m_vars]. *)
Definition pair_sign (l1 l2 : literal) (st : lut_finder) (i : nat) : option bool :=
  if Nat.eqb (nth i (m_vars st) 0) (var l1) then Some (sign l1)
  else if Nat.eqb (nth i (m_vars st) 0) (var l2) then Some (sign l2)
  else None.

(** The position [check_lut] recorded for the variable of a literal. *)
Definition position_of (st : lut_finder) (l : literal) : nat :=
  nth (var l) (m_var_position st) 0.

(** A callback made for the seed [c]: its output variable is one of the
    seed's and its variable list is the seed's without it. *)
Definition call_of_seed (s : solver) (c : clause_id) (call : lut_call) : Prop :=
  call_seed call = c /\
  call_out call ∈ map var (lits (heap s c)) /\
  call_vars call = erase (call_out call) (map var (lits (heap s c))).

(** The state of an attempt once it has made its callback. *)
Definition reported (s : solver) (c : clause_id) (st0 st : lut_finder) : Prop :=
  exists call,
    on_lut_calls st = on_lut_calls st0 ++ [call] /\
    call_of_seed s c call /\
    m_vars st = call_vars call.

(** Every callback logged in [st] fits the seed clause it was made for. *)
Definition calls_well_formed (s : solver) (st : lut_finder) : Prop :=
  forall call, call ∈ on_lut_calls st -> call_of_seed s (call_seed call) call.

(** * Properties *)

Arguments wrap32 : simpl never.
Arguments wrap64 : simpl never.
Arguments shl32 : simpl never.
Arguments shl64 : simpl never.
Arguments mask_at : simpl never.

(** ** Words and bits *)

Section Words.
Local Open Scope Z_scope.

Lemma shl64_one (n : nat) : (n < 64)%nat -> shl64 1 n = 2 ^ Z.of_nat n.
Proof.
  intros Hn. unfold shl64, wrap64. rewrite Z.shiftl_1_l.
  apply Z.mod_small. split; [lia |].
  apply Z.pow_lt_mono_r; lia.
Qed.

Lemma shl32_one (n : nat) : (n < 32)%nat -> shl32 1 n = 2 ^ Z.of_nat n.
Proof.
  intros Hn. unfold shl32, wrap32. rewrite Z.shiftl_1_l.
  apply Z.mod_small. split; [lia |].
  apply Z.pow_lt_mono_r; lia.
Qed.

Lemma land_pow2_testbit (a k : Z) :
  0 <= k -> (Z.land a (2 ^ k) =? 0) = negb (Z.testbit a k).
Proof.
  intros Hk. destruct (Z.testbit a k) eqn:Hb; cbn.
  - apply Z.eqb_neq. intros H0.
    assert (Hbit : Z.testbit (Z.land a (2 ^ k)) k = true).
    { rewrite Z.land_spec, Hb, Z.pow2_bits_true; auto. }
    rewrite H0, Z.bits_0 in Hbit. discriminate.
  - apply Z.eqb_eq. apply Z.bits_inj'. intros n Hn.
    rewrite Z.land_spec, Z.bits_0, Z.pow2_bits_eqb by lia.
    destruct (Z.eqb_spec k n); subst; [rewrite Hb | rewrite andb_false_r]; reflexivity.
Qed.

Lemma land_eq_iff (c m : Z) :
  (Z.land c m =? m) = true <->
  forall p, 0 <= p -> Z.testbit m p = true -> Z.testbit c p = true.
Proof.
  rewrite Z.eqb_eq. split.
  - intros H p Hp Hm. rewrite <- H, Z.land_spec in Hm.
    apply andb_prop in Hm. tauto.
  - intros H. apply Z.bits_inj'. intros p Hp. rewrite Z.land_spec.
    destruct (Z.testbit m p) eqn:Hm; [rewrite (H p) by auto | rewrite andb_false_r];
      reflexivity.
Qed.

Lemma testbit_small (x n p : Z) :
  0 <= x < 2 ^ n -> n <= p -> Z.testbit x p = false.
Proof.
  intros Hx Hp. destruct (Z.eq_dec x 0) as [-> | Hne]; [apply Z.bits_0 |].
  assert (0 <= n) by (destruct (Z.lt_ge_cases n 0); [rewrite Z.pow_neg_r in Hx; lia | lia]).
  apply Z.bits_above_log2; [lia |].
  assert (Z.log2 x < n) by (apply Z.log2_lt_pow2; lia). lia.
Qed.

Lemma small_of_bits (x n : Z) :
  0 <= n -> 0 <= x -> (forall p, n <= p -> Z.testbit x p = false) -> x < 2 ^ n.
Proof.
  intros Hn Hx Hbits. destruct (Z.eq_dec x 0) as [-> | Hne].
  - apply Z.pow_pos_nonneg; lia.
  - apply Z.log2_lt_pow2; [lia |].
    destruct (Z.lt_ge_cases (Z.log2 x) n) as [Hlt | Hge]; [exact Hlt |].
    specialize (Hbits (Z.log2 x) Hge).
    rewrite (Z.bit_log2 x) in Hbits by lia. discriminate.
Qed.

Lemma lor_range (a b n : Z) :
  0 <= n -> 0 <= a < 2 ^ n -> 0 <= b < 2 ^ n -> 0 <= Z.lor a b < 2 ^ n.
Proof.
  intros Hn Ha Hb.
  assert (H0 : 0 <= Z.lor a b) by (apply Z.lor_nonneg; lia).
  split; [exact H0 |]. apply small_of_bits; [lia | exact H0 |].
  intros p Hp. rewrite Z.lor_spec.
  rewrite (testbit_small a n p), (testbit_small b n p) by lia. reflexivity.
Qed.

Lemma wrap32_small (x : Z) : 0 <= x < 2 ^ 32 -> wrap32 x = x.
Proof. intros H. unfold wrap32. apply Z.mod_small; exact H. Qed.

End Words.

(** ** The masks *)


Lemma block_patternb_spec (i : nat) (low : bool) (w : Z) :
  block_patternb i low w = true <-> block_pattern i low w.
Proof.
  unfold block_patternb, block_pattern.
  rewrite !andb_true_iff, Z.leb_le, Z.ltb_lt, forallb_forall.
  split.
  - intros [[H0 H1] Hall]. split; [lia |]. intros p Hp.
    apply eqb_prop, Hall, in_seq. lia.
  - intros [Hr Hall]. split; [lia |]. intros p Hp%in_seq.
    rewrite Hall by lia. apply eqb_reflx.
Qed.

Lemma mask_at_pattern (i : nat) : i <= 5 -> block_pattern i true (mask_at i).
Proof.
  intros Hi. apply block_patternb_spec.
  do 6 (destruct i as [| i]; [vm_compute; reflexivity |]). lia.
Qed.

Lemma mask_at_bits (i : nat) (p : Z) :
  i <= 5 -> (0 <= p)%Z ->
  Z.testbit (mask_at i) p = (p <? 64)%Z && negb (Z.testbit p (Z.of_nat i)).
Proof.
  intros Hi Hp. destruct (mask_at_pattern i Hi) as [Hr Hbits].
  destruct (Z.ltb_spec p 64) as [Hlt | Hge]; cbn [andb].
  - assert (Hn : Z.to_nat p < 64) by (clear Hr Hbits; lia).
    specialize (Hbits (Z.to_nat p) Hn).
    rewrite Z2Nat.id in Hbits by exact Hp.
    rewrite Hbits. apply xorb_true_r.
  - apply (testbit_small _ 64); [exact Hr | exact Hge].
Qed.

(** C8, as stated, at i = 0: the word [...10101010] has its lowest bit
    clear; the mask built by [init_mask 0] has it set. *)
Lemma init_mask_0_low_bit_counterexample :
  ~ (exists m, init_mask 0 = Some m /\ block_pattern 0 false m).
Proof.
  intros (m & Hm & _ & Hbits).
  vm_compute in Hm. injection Hm as <-.
  specialize (Hbits 0%nat ltac:(lia)). vm_compute in Hbits. discriminate.
Qed.

(** C8 (amended): [init_mask] produces, as 64-bit words, for i = 0
    alternating single bits starting with a set lowest bit, [...01010101];
    for i = 1 alternating bit pairs; for i = 3 alternating 8-bit blocks; for
    i = 6 the all-ones word. *)
Theorem init_mask_patterns :
  init_mask 0 = Some 0x5555555555555555%Z /\
  block_pattern 0 true 0x5555555555555555%Z /\
  init_mask 1 = Some 0x3333333333333333%Z /\
  block_pattern 1 true 0x3333333333333333%Z /\
  init_mask 3 = Some 0x00FF00FF00FF00FF%Z /\
  block_pattern 3 true 0x00FF00FF00FF00FF%Z /\
  init_mask 6 = Some 0xFFFFFFFFFFFFFFFF%Z.
Proof.
  split; [vm_compute; reflexivity |].
  split; [apply block_patternb_spec; vm_compute; reflexivity |].
  split; [vm_compute; reflexivity |].
  split; [apply block_patternb_spec; vm_compute; reflexivity |].
  split; [vm_compute; reflexivity |].
  split; [apply block_patternb_spec; vm_compute; reflexivity |].
  vm_compute; reflexivity.
Qed.

(** ** Definedness of a position ([lut_is_defined(i, sz)]) *)


Lemma truncated_mask_bits (i sz : nat) (p : Z) :
  i <= 5 -> (0 <= p)%Z ->
  Z.testbit (truncated_mask i sz) p = true <-> tested_row i sz p.
Proof.
  intros Hi Hp. unfold truncated_mask, tested_row.
  destruct (Nat.ltb_spec sz 6) as [Hsz | Hsz].
  - rewrite Z.land_spec, mask_at_bits by assumption.
    replace (2 ^ Z.of_nat sz - 1)%Z with (Z.ones (Z.of_nat sz))
      by (rewrite Z.ones_equiv; lia).
    rewrite Z.testbit_ones_nonneg by lia.
    rewrite !andb_true_iff, negb_true_iff, !Z.ltb_lt. intuition lia.
  - rewrite mask_at_bits by assumption.
    rewrite andb_true_iff, negb_true_iff, Z.ltb_lt. intuition lia.
Qed.

Lemma lut_is_defined_at_unfold (i sz : nat) (st : lut_finder) :
  i <= 5 -> sz <= 6 ->
  lut_is_defined_at i sz st =
  (Z.land (Z.lor (m_combination st)
             (Z.shiftr (m_combination st) (2 ^ Z.of_nat i)))
     (truncated_mask i sz) =? truncated_mask i sz)%Z.
Proof.
  intros Hi Hsz. unfold lut_is_defined_at, truncated_mask.
  rewrite shl64_one by lia.
  destruct (Nat.ltb_spec sz 6) as [Hlt | Hge]; [| reflexivity].
  rewrite shl64_one by lia.
  replace (wrap64 (2 ^ Z.of_nat sz - 1)) with (2 ^ Z.of_nat sz - 1)%Z; [reflexivity |].
  unfold wrap64. symmetry. apply Z.mod_small.
  assert (2 ^ Z.of_nat sz < 2 ^ 64)%Z by (apply Z.pow_lt_mono_r; lia).
  assert (0 < 2 ^ Z.of_nat sz)%Z by (apply Z.pow_pos_nonneg; lia).
  lia.
Qed.

(** C2, as stated, at i = 0, size = 6 and the word 0x5555555555555555
    (every row with variable 0 false, no row with variable 0 true): the test
    succeeds although no row with variable 0 true is witnessed. *)
Lemma lut_is_defined_at_both_rows_counterexample :
  ~ (lut_is_defined_at 0 6
       (set_m_combination 0x5555555555555555%Z empty_finder) = true <->
     both_rows_witnessed 0 6 0x5555555555555555%Z).
Proof.
  intros [Himp _].
  assert (Hdef : lut_is_defined_at 0 6
                   (set_m_combination 0x5555555555555555%Z empty_finder) = true)
    by (vm_compute; reflexivity).
  destruct (Himp Hdef 0%Z) as [_ Hrow]; [lia | reflexivity |].
  vm_compute in Hrow. discriminate.
Qed.

(** C2 (amended): for 3 <= size <= 6 and i < size, [lut_is_defined(i, sz)]
    returns true whenever, for every assignment of the other tracked
    variables, the row with variable i false or the row with variable i true
    is witnessed; for size = 6 it returns true exactly then, and mechanically
    it tests whether OR-ing the word with itself right-shifted by 2^i makes
    every bit of the i-th mask set. *)
Theorem lut_is_defined_at_spec (i sz : nat) (st : lut_finder) :
  3 <= sz <= 6 -> i < sz ->
  (some_row_witnessed i sz (m_combination st) ->
   lut_is_defined_at i sz st = true) /\
  (sz = 6 ->
   (lut_is_defined_at i sz st = true <->
    some_row_witnessed i sz (m_combination st)) /\
   (lut_is_defined_at i sz st = true <->
    forall p, (0 <= p)%Z -> Z.testbit (mask_at i) p = true ->
      Z.testbit (Z.lor (m_combination st)
                   (Z.shiftr (m_combination st) (2 ^ Z.of_nat i))) p = true)).
Proof.
  intros Hsz Hi.
  assert (Hmech :
    lut_is_defined_at i sz st = true <->
    forall p, (0 <= p)%Z -> Z.testbit (truncated_mask i sz) p = true ->
      Z.testbit (Z.lor (m_combination st)
                   (Z.shiftr (m_combination st) (2 ^ Z.of_nat i))) p = true).
  { rewrite lut_is_defined_at_unfold by lia. apply land_eq_iff. }
  assert (Hsound : some_row_witnessed i sz (m_combination st) ->
                   lut_is_defined_at i sz st = true).
  { intros H. apply Hmech. intros p Hp Hm.
    apply truncated_mask_bits in Hm; [| lia | exact Hp].
    destruct Hm as (Hp64 & Hclear & Hcut).
    rewrite Z.lor_spec, Z.shiftr_spec by exact Hp.
    apply orb_true_iff. apply H; [| exact Hclear].
    split; [lia |].
    destruct (Nat.lt_ge_cases sz 6) as [Hlt | Hge].
    - specialize (Hcut Hlt).
      assert (Z.of_nat sz < 2 ^ Z.of_nat sz)%Z by (apply Z.pow_gt_lin_r; lia).
      lia.
    - replace sz with 6 by lia. change (2 ^ Z.of_nat 6)%Z with 64%Z. lia. }
  split; [exact Hsound |].
  intros ->. split.
  - split; [| exact Hsound].
    intros Hdef r Hr Hclear.
    change (2 ^ Z.of_nat 6)%Z with 64%Z in Hr.
    assert (Hm : Z.testbit (truncated_mask i 6) r = true).
    { apply truncated_mask_bits; [lia | lia |].
      split; [exact Hr |]. split; [exact Hclear | lia]. }
    pose proof (proj1 Hmech Hdef r ltac:(lia) Hm) as Hc.
    rewrite Z.lor_spec, Z.shiftr_spec in Hc by lia.
    apply orb_prop in Hc. exact Hc.
  - exact Hmech.
Qed.

Lemma lut_is_defined_at_spec_witness :
  (3 <= 6 <= 6) /\ 0 < 6 /\
  (lut_is_defined_at 0 6
     (set_m_combination 0x5555555555555555%Z empty_finder) = true <->
   some_row_witnessed 0 6 0x5555555555555555%Z).
Proof.
  split; [lia | split; [lia |]].
  exact (proj1 (proj2 (lut_is_defined_at_spec 0 6
                         (set_m_combination 0x5555555555555555%Z empty_finder)
                         ltac:(lia) ltac:(lia)) eq_refl)).
Defined.

(** ** The density bound ([lut_is_defined(sz)]) *)

(** C9: [lut_is_defined(sz)] returns false whenever the witnessed-row count
    is below 2^(sz/2), whatever rows are set (for the sizes at which the
    shift [1ull << (sz/2)] is defined). *)
Theorem lut_is_defined_density (sz : nat) (st : lut_finder) :
  sz / 2 < 64 ->
  (m_num_combinations st < 2 ^ Z.of_nat (sz / 2))%Z ->
  lut_is_defined sz st = false.
Proof.
  intros Hsz Hnum. unfold lut_is_defined.
  rewrite shl64_one by exact Hsz.
  destruct (Z.ltb_spec (m_num_combinations st) (2 ^ Z.of_nat (sz / 2)));
    [reflexivity | lia].
Qed.

Lemma lut_is_defined_density_witness :
  6 / 2 < 64 /\
  (m_num_combinations (set_m_combination (2 ^ 64 - 1)
                         (set_m_num_combinations 7 empty_finder))
   < 2 ^ Z.of_nat (6 / 2))%Z /\
  lut_is_defined 6
    (set_m_combination (2 ^ 64 - 1) (set_m_num_combinations 7 empty_finder))
  = false.
Proof.
  assert (H1 : 6 / 2 < 64) by (cbn; lia).
  assert (H2 : (m_num_combinations
                  (set_m_combination (2 ^ 64 - 1)
                     (set_m_num_combinations 7 empty_finder))
                < 2 ^ Z.of_nat (6 / 2))%Z) by (cbn; lia).
  split; [exact H1 | split; [exact H2 |]].
  exact (lut_is_defined_density 6 _ H1 H2).
Defined.

(** ** Conversion to a truth table ([convert_combination]) *)

Lemma first_defined_Some (sz i : nat) (st : lut_finder) :
  first_defined sz st = Some i -> i < sz /\ lut_is_defined_at i sz st = true.
Proof.
  unfold first_defined. intros H. apply find_some in H as [Hin Hdef].
  apply in_seq in Hin. split; [lia | exact Hdef].
Qed.

Lemma fold_left_const {A B : Type} (l : list B) (a : A) :
  fold_left (fun r _ => r) l a = a.
Proof. induction l as [| x l IH]; [reflexivity | exact IH]. Qed.

(** C1: when the first eliminable position found by [convert_combination]
    is 1 or greater, the returned truth table is the all-zero word. *)
Theorem convert_combination_unimplemented
    (vars : list bool_var) (st : lut_finder) (i : nat) :
  first_defined (length vars) st = Some i -> 1 <= i ->
  exists vars' v, convert_combination vars st = Some (0%Z, vars', v).
Proof.
  intros Hfd Hi. unfold convert_combination. rewrite Hfd. cbv beta iota delta [from_option id].
  destruct (first_defined_Some _ _ _ Hfd) as [Hlt _].
  destruct (nth_error vars i) as [v |] eqn:Hv.
  - exists (erase v vars), v.
    destruct i as [| [| i]]; [lia | |]; cbv beta iota;
      [rewrite fold_left_const |]; reflexivity.
  - apply nth_error_None in Hv. lia.
Qed.

Lemma convert_combination_unimplemented_witness :
  first_defined (length [0; 1; 2]) (set_m_combination 35%Z empty_finder) = Some 1 /\
  1 <= 1 /\
  exists vars' v,
    convert_combination [0; 1; 2] (set_m_combination 35%Z empty_finder)
    = Some (0%Z, vars', v).
Proof.
  assert (H : first_defined (length [0; 1; 2])
                (set_m_combination 35%Z empty_finder) = Some 1)
    by (vm_compute; reflexivity).
  split; [exact H | split; [lia |]].
  exact (convert_combination_unimplemented [0; 1; 2] _ 1 H (le_n 1)).
Defined.

Lemma existsb_seq_pick (g : nat -> bool) (b n : nat) :
  existsb (fun j => Nat.eqb j b && g j) (seq 0 n) = (b <? n) && g b.
Proof.
  induction n as [| n IH]; [reflexivity |].
  rewrite seq_S, existsb_app, IH. cbn [existsb plus]. rewrite orb_false_r.
  destruct (Nat.eqb_spec n b) as [-> | Hne].
  - destruct (Nat.ltb_spec b b); [lia |].
    destruct (Nat.ltb_spec b (S b)); [| lia]. reflexivity.
  - cbn [andb]. rewrite orb_false_r.
    destruct (Nat.ltb_spec b n), (Nat.ltb_spec b (S n)); try lia; reflexivity.
Qed.

Lemma fold_position0_step_bits (comb : Z) (l : list nat) (r0 : Z) (b : nat) :
  Forall (fun j => j < 32) l ->
  Z.testbit
    (fold_left
       (fun r j =>
          if (Z.land comb (shl64 1 (2 * j)) =? 0)%Z
          then Z.lor r (shl64 1 j) else r) l r0) (Z.of_nat b)
  = Z.testbit r0 (Z.of_nat b)
    || existsb (fun j => Nat.eqb j b
                         && negb (Z.testbit comb (Z.of_nat (2 * j)))) l.
Proof.
  intros Hall. revert r0. induction Hall as [| j l Hj Hall IH]; intros r0.
  - cbn. rewrite orb_false_r. reflexivity.
  - cbn [fold_left existsb]. rewrite IH.
    rewrite !shl64_one by lia. rewrite land_pow2_testbit by lia.
    destruct (Z.testbit comb (Z.of_nat (2 * j))); cbn [negb].
    + rewrite andb_false_r. reflexivity.
    + rewrite andb_true_r, Z.lor_spec, Z.pow2_bits_eqb by lia.
      rewrite <- orb_assoc. f_equal. f_equal.
      destruct (Nat.eqb_spec j b), (Z.eqb_spec (Z.of_nat j) (Z.of_nat b));
        try lia; reflexivity.
Qed.

Lemma to_nat_shl32_one (n : nat) : n < 32 -> Z.to_nat (shl32 1 n) = 2 ^ n.
Proof.
  intros Hn. rewrite shl32_one by exact Hn.
  rewrite <- (Nat2Z.id (2 ^ n)). f_equal. rewrite Nat2Z.inj_pow. reflexivity.
Qed.

Lemma fold_position0_bits (comb : Z) (nvars b : nat) :
  nvars <= 5 ->
  Z.testbit (fold_position0 comb nvars) (Z.of_nat b)
  = (b <? 2 ^ nvars) && negb (Z.testbit comb (Z.of_nat (2 * b))).
Proof.
  intros Hn. unfold fold_position0.
  rewrite to_nat_shl32_one by lia.
  rewrite fold_position0_step_bits.
  - rewrite Z.bits_0. cbn [orb].
    apply (existsb_seq_pick (fun j => negb (Z.testbit comb (Z.of_nat (2 * j))))).
  - apply Forall_forall. intros j Hj%list_elem_of_In%in_seq.
    assert (2 ^ nvars <= 2 ^ 5) by (apply Nat.pow_le_mono_r; lia).
    cbn in *. lia.
Qed.

Lemma erase_head (v : bool_var) (vars : list bool_var) :
  erase v (v :: vars) = vars.
Proof. cbn. rewrite Nat.eqb_refl. reflexivity. Qed.

(** C5: when the eliminated position is 0, bit j of the returned truth
    table, for j < 2^(number of remaining variables), is set exactly when
    bit 2j of the combination word is unset. *)
Theorem convert_combination_position0 (vars : list bool_var) (st : lut_finder) :
  length vars <= 6 ->
  first_defined (length vars) st = Some 0 ->
  exists r vars' v,
    convert_combination vars st = Some (r, vars', v) /\
    S (length vars') = length vars /\
    forall j : nat, j < 2 ^ length vars' ->
      Z.testbit r (Z.of_nat j)
      = negb (Z.testbit (m_combination st) (Z.of_nat (2 * j))).
Proof.
  intros Hlen Hfd. unfold convert_combination. rewrite Hfd. cbv beta iota delta [from_option id].
  destruct (first_defined_Some _ _ _ Hfd) as [Hlt _].
  destruct vars as [| v vars]; [cbn in Hlt; lia |].
  cbn [nth_error]. rewrite erase_head.
  exists (fold_position0 (m_combination st) (length vars)), vars, v.
  split; [reflexivity | split; [reflexivity |]].
  intros j Hj. cbn [length] in Hlen.
  rewrite fold_position0_bits by lia.
  destruct (Nat.ltb_spec j (2 ^ length vars)); [reflexivity | lia].
Qed.

Lemma convert_combination_position0_witness :
  length [0; 1; 2] <= 6 /\
  first_defined (length [0; 1; 2]) (set_m_combination 137%Z empty_finder) = Some 0 /\
  exists r vars' v,
    convert_combination [0; 1; 2] (set_m_combination 137%Z empty_finder)
    = Some (r, vars', v) /\
    S (length vars') = length [0; 1; 2] /\
    forall j : nat, j < 2 ^ length vars' ->
      Z.testbit r (Z.of_nat j)
      = negb (Z.testbit (m_combination (set_m_combination 137%Z empty_finder))
                (Z.of_nat (2 * j))).
Proof.
  assert (H1 : length [0; 1; 2] <= 6) by (cbn; lia).
  assert (H2 : first_defined (length [0; 1; 2])
                 (set_m_combination 137%Z empty_finder) = Some 0)
    by (vm_compute; reflexivity).
  split; [exact H1 | split; [exact H2 |]].
  exact (convert_combination_position0 [0; 1; 2] _ H1 H2).
Defined.

(** ** The clause filter ([get_clause_filter]) *)

Lemma clause_filter_bits (ls : list literal) (acc p : Z) :
  (0 <= p)%Z ->
  Z.testbit
    (fold_left (fun filter l => Z.lor filter (shl32 1 (var l mod 32))) ls acc) p
  = Z.testbit acc p || existsb (fun l => (Z.of_nat (var l mod 32) =? p)%Z) ls.
Proof.
  intros Hp. revert acc. induction ls as [| l ls IH]; intros acc.
  - cbn. rewrite orb_false_r. reflexivity.
  - cbn [fold_left existsb]. rewrite IH.
    assert (var l mod 32 < 32) by (apply Nat.mod_upper_bound; lia).
    rewrite shl32_one, Z.lor_spec, Z.pow2_bits_eqb by lia.
    rewrite orb_assoc. reflexivity.
Qed.

(** C7: the filter is monotonic in the variable set: when every variable of
    B occurs in A, [filterOf(A) | filterOf(B) = filterOf(A)]. *)
Theorem get_clause_filter_monotone (A B : clause) :
  (forall v, v ∈ map var (lits B) -> v ∈ map var (lits A)) ->
  Z.lor (get_clause_filter A) (get_clause_filter B) = get_clause_filter A.
Proof.
  intros Hsub. apply Z.bits_inj'. intros p Hp.
  unfold get_clause_filter.
  rewrite Z.lor_spec, !clause_filter_bits, Z.bits_0 by exact Hp. cbn [orb].
  destruct (existsb _ (lits B)) eqn:HB; [| apply orb_false_r].
  apply existsb_exists in HB as (l & Hl & Hpos).
  rewrite orb_true_r. symmetry.
  assert (Hv : var l ∈ map var (lits A)).
  { apply Hsub, list_elem_of_In, in_map, Hl. }
  apply list_elem_of_In, in_map_iff in Hv as (l' & Heq & Hl').
  apply existsb_exists. exists l'. split; [exact Hl' |]. rewrite Heq. exact Hpos.
Qed.

Lemma get_clause_filter_monotone_witness :
  (forall v,
     v ∈ map var (lits (mk_clause [mk_literal 33 true] false false)) ->
     v ∈ map var (lits (mk_clause [mk_literal 2 false; mk_literal 33 false]
                          false false))) /\
  Z.lor
    (get_clause_filter
       (mk_clause [mk_literal 2 false; mk_literal 33 false] false false))
    (get_clause_filter (mk_clause [mk_literal 33 true] false false))
  = get_clause_filter
      (mk_clause [mk_literal 2 false; mk_literal 33 false] false false).
Proof.
  assert (H : forall v,
     v ∈ map var (lits (mk_clause [mk_literal 33 true] false false)) ->
     v ∈ map var (lits (mk_clause [mk_literal 2 false; mk_literal 33 false]
                          false false))).
  { cbn. intros v Hv. apply list_elem_of_singleton in Hv. subst v.
    apply list_elem_of_In. right. left. reflexivity. }
  split; [exact H |].
  exact (get_clause_filter_monotone _ _ H).
Defined.

(** ** Marking the completions of a row ([update_combinations]) *)

Lemma existsb_ext_in {A : Type} (f g : A -> bool) (l : list A) :
  (forall x, In x l -> f x = g x) -> existsb f l = existsb g l.
Proof.
  induction l as [| x l IH]; intros H; [reflexivity |].
  cbn [existsb]. rewrite (H x) by (left; reflexivity).
  rewrite IH; [reflexivity |]. intros y Hy. apply H. right. exact Hy.
Qed.

Lemma completion_fold_bits (missing : list nat) (k : nat) (idx : list nat) (acc : Z) :
  Forall (fun i => i < 32 /\ nth i missing 0 < 32) idx ->
  (0 <= acc < 2 ^ 32)%Z ->
  (0 <= fold_left (completion_step missing k) idx acc < 2 ^ 32)%Z /\
  forall p, (0 <= p)%Z ->
    Z.testbit (fold_left (completion_step missing k) idx acc) p
    = Z.testbit acc p
      || existsb (fun i => Z.testbit (Z.of_nat k) (Z.of_nat i)
                           && (Z.of_nat (nth i missing 0%nat) =? p)%Z) idx.
Proof.
  intros Hidx. revert acc.
  induction Hidx as [| i idx [Hi Hpos] _ IH]; intros acc Hacc.
  - split; [exact Hacc |]. intros p _. cbn. rewrite orb_false_r. reflexivity.
  - cbn [fold_left existsb].
    assert (Hstep :
      completion_step missing k acc i
      = if Z.testbit (Z.of_nat k) (Z.of_nat i)
        then Z.lor acc (2 ^ Z.of_nat (nth i missing 0%nat)) else acc).
    { unfold completion_step.
      rewrite shl32_one, land_pow2_testbit, negb_involutive by lia.
      destruct (Z.testbit (Z.of_nat k) (Z.of_nat i)); [| reflexivity].
      rewrite shl64_one by lia. apply wrap32_small, lor_range; [lia | exact Hacc |].
      split; [apply Z.pow_nonneg; lia | apply Z.pow_lt_mono_r; lia]. }
    assert (Hr : (0 <= completion_step missing k acc i < 2 ^ 32)%Z).
    { rewrite Hstep. destruct (Z.testbit (Z.of_nat k) (Z.of_nat i)); [| exact Hacc].
      apply lor_range; [lia | exact Hacc |].
      split; [apply Z.pow_nonneg; lia | apply Z.pow_lt_mono_r; lia]. }
    destruct (IH _ Hr) as [IHr IHb]. split; [exact IHr |].
    intros p Hp. rewrite IHb by exact Hp. rewrite Hstep.
    destruct (Z.testbit (Z.of_nat k) (Z.of_nat i)); cbn [andb]; [| reflexivity].
    rewrite Z.lor_spec, Z.pow2_bits_eqb by lia.
    rewrite orb_assoc. reflexivity.
Qed.


Lemma bits_of_row_range (r : Z) (missing : list nat) :
  (0 <= bits_of_row r missing < 2 ^ Z.of_nat (length missing))%Z.
Proof.
  induction missing as [| p ps IH]; [cbn; lia |].
  cbn [bits_of_row length]. rewrite Nat2Z.inj_succ, Z.pow_succ_r by lia.
  destruct (Z.testbit r (Z.of_nat p)); cbn [Z.b2z]; lia.
Qed.

Lemma bits_of_row_bits (r : Z) (missing : list nat) (i : nat) :
  i < length missing ->
  Z.testbit (bits_of_row r missing) (Z.of_nat i)
  = Z.testbit r (Z.of_nat (nth i missing 0)).
Proof.
  revert i. induction missing as [| p ps IH]; intros i Hi; [cbn in Hi; lia |].
  cbn [bits_of_row]. destruct i as [| i].
  - cbn [nth Z.of_nat]. apply Z.testbit_0_r.
  - rewrite Nat2Z.inj_succ, Z.testbit_succ_r by lia.
    cbn [nth]. apply IH. cbn [length] in Hi. lia.
Qed.

Section Completions.

Variables (sz : nat) (mask : Z) (missing : list nat).
Hypothesis Hsz : sz <= 6.
Hypothesis Hmask : (0 <= mask < 2 ^ Z.of_nat sz)%Z.
Hypothesis Hbound : Forall (fun p => p < sz) missing.
Hypothesis Hnodup : NoDup missing.
Hypothesis Hclear :
  forall p, p ∈ missing -> Z.testbit mask (Z.of_nat p) = false.

Lemma missing_length : length missing <= sz.
Proof.
  rewrite <- (length_seq sz 0). apply submseteq_length.
  apply NoDup_submseteq; [exact Hnodup |].
  intros x Hx. apply list_elem_of_In, in_seq.
  rewrite Forall_forall in Hbound. specialize (Hbound x Hx). lia.
Qed.

Lemma nth_missing_elem (i : nat) : i < length missing -> nth i missing 0 ∈ missing.
Proof. intros Hi. apply list_elem_of_In, nth_In, Hi. Qed.

Lemma nth_missing_bound (i : nat) : i < length missing -> nth i missing 0 < sz.
Proof.
  intros Hi. rewrite Forall_forall in Hbound.
  apply Hbound, nth_missing_elem, Hi.
Qed.

Lemma mask_range32 : (0 <= mask < 2 ^ 32)%Z.
Proof.
  assert (2 ^ Z.of_nat sz <= 2 ^ 32)%Z by (apply Z.pow_le_mono_r; lia). lia.
Qed.

Lemma completion_indices :
  Forall (fun i => i < 32 /\ nth i missing 0 < 32) (seq 0 (length missing)).
Proof.
  apply Forall_forall. intros i Hi%list_elem_of_In%in_seq.
  pose proof missing_length. pose proof (nth_missing_bound i ltac:(lia)). lia.
Qed.

Lemma completion_range (k : nat) : (0 <= completion mask missing k < 2 ^ 32)%Z.
Proof.
  apply (completion_fold_bits missing k _ mask completion_indices mask_range32).
Qed.

Lemma completion_bits (k : nat) (p : Z) :
  (0 <= p)%Z ->
  Z.testbit (completion mask missing k) p
  = Z.testbit mask p
    || existsb (fun i => Z.testbit (Z.of_nat k) (Z.of_nat i)
                         && (Z.of_nat (nth i missing 0%nat) =? p)%Z)
         (seq 0 (length missing)).
Proof.
  apply (completion_fold_bits missing k _ mask completion_indices mask_range32).
Qed.

Lemma nth_missing_inj (i j : nat) :
  i < length missing -> j < length missing ->
  nth i missing 0 = nth j missing 0 -> i = j.
Proof.
  intros Hi Hj Heq. apply NoDup_ListNoDup in Hnodup.
  exact (proj1 (NoDup_nth missing 0) Hnodup i j Hi Hj Heq).
Qed.

(** At a missing position the row carries the bit of [k]. *)
Lemma completion_at_missing (k i : nat) :
  i < length missing ->
  Z.testbit (completion mask missing k) (Z.of_nat (nth i missing 0))
  = Z.testbit (Z.of_nat k) (Z.of_nat i).
Proof.
  intros Hi. rewrite completion_bits by lia.
  rewrite (Hclear _ (nth_missing_elem i Hi)). cbn [orb].
  rewrite (existsb_ext_in _
             (fun j => Nat.eqb j i && Z.testbit (Z.of_nat k) (Z.of_nat j))).
  - rewrite existsb_seq_pick. destruct (Nat.ltb_spec i (length missing)); [reflexivity | lia].
  - intros j Hj%in_seq.
    destruct (Nat.eqb_spec j i) as [-> | Hne].
    + rewrite Z.eqb_refl, andb_true_r. reflexivity.
    + destruct (Z.eqb_spec (Z.of_nat (nth j missing 0)) (Z.of_nat (nth i missing 0)))
        as [Heq | _]; [| apply andb_false_r].
      exfalso. apply Hne, nth_missing_inj; lia.
Qed.

(** Elsewhere the row carries the bit of [mask]. *)
Lemma completion_off_missing (k : nat) (p : Z) :
  (0 <= p)%Z -> Z.to_nat p ∉ missing ->
  Z.testbit (completion mask missing k) p = Z.testbit mask p.
Proof.
  intros Hp Hnot. rewrite completion_bits by exact Hp.
  rewrite (existsb_ext_in _ (fun _ => false)).
  - rewrite orb_comm. clear. induction (seq 0 (length missing)); [reflexivity | assumption].
  - intros j Hj%in_seq.
    destruct (Z.eqb_spec (Z.of_nat (nth j missing 0)) p) as [Heq | _];
      [| apply andb_false_r].
    exfalso. apply Hnot. subst p. rewrite Nat2Z.id. apply nth_missing_elem. lia.
Qed.


Lemma completion_inj (k1 k2 : nat) :
  k1 < 2 ^ length missing -> k2 < 2 ^ length missing ->
  completion mask missing k1 = completion mask missing k2 -> k1 = k2.
Proof.
  intros H1 H2 Heq. apply Nat2Z.inj. apply Z.bits_inj'. intros n Hn.
  destruct (Z.lt_ge_cases n (Z.of_nat (length missing))) as [Hlt | Hge].
  - rewrite <- (Z2Nat.id n) by exact Hn.
    rewrite <- !completion_at_missing by lia. rewrite Heq. reflexivity.
  - assert (Hpow : forall k, k < 2 ^ length missing ->
              (0 <= Z.of_nat k < 2 ^ Z.of_nat (length missing))%Z).
    { intros k Hk. apply Nat2Z.inj_lt in Hk. rewrite Nat2Z.inj_pow in Hk. lia. }
    rewrite (testbit_small _ _ n (Hpow k1 H1)), (testbit_small _ _ n (Hpow k2 H2)) by lia.
    reflexivity.
Qed.

Lemma completions_NoDup : NoDup (completions mask missing).
Proof.
  apply NoDup_fmap_2_strong; [| apply NoDup_ListNoDup, seq_NoDup].
  intros k1 k2 Hk1%list_elem_of_In%in_seq Hk2%list_elem_of_In%in_seq.
  apply completion_inj; lia.
Qed.

Lemma completions_length : length (completions mask missing) = 2 ^ length missing.
Proof. unfold completions. rewrite length_map, length_seq. reflexivity. Qed.

Lemma completions_range : Forall (fun r => (0 <= r < 64)%Z) (completions mask missing).
Proof.
  apply Forall_forall. intros r Hr%list_elem_of_In%in_map_iff.
  destruct Hr as (k & <- & _).
  pose proof (completion_range k) as [H0 _]. split; [exact H0 |].
  apply (small_of_bits _ 6); [lia | exact H0 |].
  intros p Hp. rewrite completion_off_missing.
  - apply (testbit_small _ (Z.of_nat sz)); [exact Hmask | lia].
  - lia.
  - intros Hin. rewrite Forall_forall in Hbound. specialize (Hbound _ Hin). lia.
Qed.

(** The rows are the words that agree with [mask] at every position that is
    not missing: all assignments of the missing positions. *)
Lemma completions_spec (r : Z) :
  r ∈ completions mask missing <->
  (0 <= r)%Z /\
  forall p : nat, p ∉ missing ->
    Z.testbit r (Z.of_nat p) = Z.testbit mask (Z.of_nat p).
Proof.
  split.
  - intros Hr%list_elem_of_In%in_map_iff. destruct Hr as (k & <- & _).
    split; [apply completion_range |].
    intros p Hp. apply completion_off_missing; [lia |]. rewrite Nat2Z.id. exact Hp.
  - intros [Hr Hagree].
    pose proof (bits_of_row_range r missing) as Hk.
    apply list_elem_of_In, in_map_iff.
    exists (Z.to_nat (bits_of_row r missing)). split.
    + apply Z.bits_inj'. intros p Hp.
      destruct (decide (Z.to_nat p ∈ missing)) as [Hin | Hnot].
      * apply list_elem_of_In, (In_nth _ _ 0) in Hin as (i & Hi & Hnth).
        rewrite <- (Z2Nat.id p), <- Hnth by exact Hp.
        rewrite completion_at_missing by exact Hi.
        rewrite Z2Nat.id by lia. apply bits_of_row_bits, Hi.
      * rewrite completion_off_missing by assumption.
        rewrite <- (Z2Nat.id p) by exact Hp. symmetry. apply Hagree, Hnot.
    + apply in_seq. split; [lia |]. cbn [plus].
      apply Nat2Z.inj_lt. rewrite Z2Nat.id, Nat2Z.inj_pow by lia. cbn. lia.
Qed.

End Completions.


Lemma set_combination_frame (r : Z) (st : lut_finder) :
  frame (set_combination r st) = frame st.
Proof. unfold set_combination. destruct (Z.testbit _ _); reflexivity. Qed.

Lemma frame_m_missing (st st' : lut_finder) :
  frame st' = frame st -> m_missing st' = m_missing st.
Proof. unfold frame. intros H. injection H. auto. Qed.

Lemma set_rows_frame (rows : list Z) (st : lut_finder) :
  frame (fold_left (fun st r => set_combination r st) rows st) = frame st.
Proof.
  revert st. induction rows as [| r rows IH]; intros st; [reflexivity |].
  cbn [fold_left]. rewrite IH. apply set_combination_frame.
Qed.

Lemma wrap32_add_l (a b : Z) : wrap32 (wrap32 a + b) = wrap32 (a + b).
Proof. unfold wrap32. apply Zplus_mod_idemp_l. Qed.

Lemma wrap32_range (a : Z) : (0 <= wrap32 a < 2 ^ 32)%Z.
Proof. unfold wrap32. apply Z.mod_pos_bound. reflexivity. Qed.

(** Marking a duplicate-free list of rows. *)
Lemma set_rows_spec (rows : list Z) (st : lut_finder) :
  Forall (fun r => (0 <= r < 64)%Z) rows -> NoDup rows ->
  (0 <= m_num_combinations st < 2 ^ 32)%Z ->
  let st' := fold_left (fun st r => set_combination r st) rows st in
  (forall p, (0 <= p)%Z ->
     Z.testbit (m_combination st') p
     = Z.testbit (m_combination st) p || bool_decide (p ∈ rows)) /\
  m_num_combinations st'
  = wrap32 (m_num_combinations st
            + Z.of_nat (length (List.filter
                                  (fun r => negb (Z.testbit (m_combination st) r))
                                  rows))).
Proof.
  intros Hrange. revert st.
  induction Hrange as [| r rows Hr Hrange IH]; intros st Hnd Hnum; cbn zeta.
  - split.
    + intros p _. cbn. rewrite orb_false_r. reflexivity.
    + cbn. rewrite Z.add_0_r, wrap32_small by exact Hnum. reflexivity.
  - apply NoDup_cons in Hnd as [Hnotin Hnd]. cbn [fold_left List.filter].
    unfold set_combination at 2 4.
    destruct (Z.testbit (m_combination st) r) eqn:Hbit; cbn [negb].
    + destruct (IH st Hnd Hnum) as [IHb IHn]. split; [| exact IHn].
      intros p Hp. rewrite IHb by exact Hp.
      apply eq_true_iff_eq.
      rewrite !orb_true_iff, !bool_decide_eq_true, elem_of_cons.
      split; [tauto |]. intros [H | [-> | H]]; auto.
    + set (st1 := set_m_num_combinations _ _).
      assert (Hcomb1 : forall p, (0 <= p)%Z ->
                Z.testbit (m_combination st1) p
                = Z.testbit (m_combination st) p || (r =? p)%Z).
      { intros p Hp. subst st1. cbn [m_combination set_m_num_combinations set_m_combination].
        rewrite shl64_one, Z2Nat.id, Z.lor_spec, Z.pow2_bits_eqb by lia. reflexivity. }
      assert (Hnum1 : (0 <= m_num_combinations st1 < 2 ^ 32)%Z)
        by (subst st1; apply wrap32_range).
      destruct (IH st1 Hnd Hnum1) as [IHb IHn]. split.
      * intros p Hp. rewrite IHb, Hcomb1 by exact Hp.
        apply eq_true_iff_eq.
        rewrite !orb_true_iff, !bool_decide_eq_true, elem_of_cons, Z.eqb_eq.
        split; [intros [[H | H] | H] | intros [H | [H | H]]]; auto.
      * rewrite IHn.
        rewrite (filter_ext_in _ (fun r => negb (Z.testbit (m_combination st) r))).
        -- subst st1. cbn [m_num_combinations set_m_num_combinations length].
           rewrite wrap32_add_l. f_equal. lia.
        -- intros r' Hr'. rewrite Hcomb1.
           ++ destruct (Z.eqb_spec r r') as [-> | _]; [| rewrite orb_false_r; reflexivity].
              exfalso. apply Hnotin, list_elem_of_In, Hr'.
           ++ rewrite Forall_forall in Hrange.
              apply list_elem_of_In, Hrange in Hr'. lia.
Qed.

Lemma to_nat_shl64_one (n : nat) : n < 64 -> Z.to_nat (shl64 1 n) = 2 ^ n.
Proof.
  intros Hn. rewrite shl64_one by exact Hn.
  rewrite <- (Nat2Z.id (2 ^ n)). f_equal. rewrite Nat2Z.inj_pow. reflexivity.
Qed.

Lemma update_combinations_fold (mask : Z) (ks : list nat) (st : lut_finder) :
  fold_left (fun st k => set_combination (completion mask (m_missing st) k) st) ks st
  = fold_left (fun st r => set_combination r st)
      (map (completion mask (m_missing st)) ks) st.
Proof.
  revert st. induction ks as [| k ks IH]; intros st; [reflexivity |].
  cbn [fold_left map]. rewrite IH.
  rewrite (frame_m_missing _ _ (set_combination_frame _ st)). reflexivity.
Qed.

(** C6: for a row mask below 2^sz (sz <= 6) and a duplicate-free list of m
    missing positions below sz at which the mask is clear,
    [update_combinations] marks exactly the 2^m pairwise distinct rows that
    agree with the mask outside the missing positions, leaves every other
    row as it was, and adds to the count the number of those rows that were
    not set before. *)
Theorem update_combinations_rows (sz : nat) (mask : Z) (st : lut_finder) :
  sz <= 6 ->
  (0 <= mask < 2 ^ Z.of_nat sz)%Z ->
  Forall (fun p => p < sz) (m_missing st) ->
  NoDup (m_missing st) ->
  (forall p, p ∈ m_missing st -> Z.testbit mask (Z.of_nat p) = false) ->
  (0 <= m_num_combinations st < 2 ^ 32)%Z ->
  let st' := fst (update_combinations mask st) in
  exists rows : list Z,
    NoDup rows /\
    length rows = 2 ^ length (m_missing st) /\
    (forall r, r ∈ rows <->
       (0 <= r)%Z /\
       forall p : nat, p ∉ m_missing st ->
         Z.testbit r (Z.of_nat p) = Z.testbit mask (Z.of_nat p)) /\
    (forall r, (0 <= r)%Z ->
       Z.testbit (m_combination st') r
       = Z.testbit (m_combination st) r || bool_decide (r ∈ rows)) /\
    m_num_combinations st'
    = wrap32 (m_num_combinations st
              + Z.of_nat (length (List.filter
                                    (fun r => negb (Z.testbit (m_combination st) r))
                                    rows))) /\
    frame st' = frame st.
Proof.
  intros Hsz Hmask Hbound Hnd Hclear Hnum st'.
  exists (completions mask (m_missing st)).
  assert (Hlen : length (m_missing st) <= sz)
    by (apply missing_length; assumption).
  assert (Hst' : st' = fold_left (fun st r => set_combination r st)
                         (completions mask (m_missing st)) st).
  { subst st'. unfold update_combinations. cbn [fst].
    rewrite update_combinations_fold, to_nat_shl64_one by lia. reflexivity. }
  assert (Hrows : NoDup (completions mask (m_missing st)))
    by (apply (completions_NoDup sz); assumption).
  assert (Hrange : Forall (fun r => (0 <= r < 64)%Z) (completions mask (m_missing st)))
    by (apply (completions_range sz); assumption).
  destruct (set_rows_spec _ st Hrange Hrows Hnum) as [Hbits Hcount].
  rewrite Hst'.
  split; [exact Hrows |].
  split; [apply completions_length |].
  split; [intros r; apply (completions_spec sz); assumption |].
  split; [exact Hbits |].
  split; [exact Hcount | apply set_rows_frame].
Qed.

Lemma update_combinations_rows_witness :
  let st := set_m_missing [2] (set_m_combination 1%Z
              (set_m_num_combinations 1%Z empty_finder)) in
  exists rows : list Z,
    length rows = 2 ^ length (m_missing st) /\
    (forall r, (0 <= r)%Z ->
       Z.testbit (m_combination (fst (update_combinations 1%Z st))) r
       = Z.testbit (m_combination st) r || bool_decide (r ∈ rows)).
Proof.
  intros st.
  assert (H1 : 3 <= 6) by lia.
  assert (H2 : (0 <= 1 < 2 ^ Z.of_nat 3)%Z) by (cbn; lia).
  assert (H3 : Forall (fun p => p < 3) (m_missing st))
    by (apply Forall_cons; split; [lia | apply Forall_nil; exact I]).
  assert (H4 : NoDup (m_missing st))
    by (apply NoDup_cons; split; [apply not_elem_of_nil | apply NoDup_nil; exact I]).
  assert (H5 : forall p, p ∈ m_missing st -> Z.testbit 1 (Z.of_nat p) = false).
  { intros p Hp. apply list_elem_of_singleton in Hp. subst p. reflexivity. }
  assert (H6 : (0 <= m_num_combinations st < 2 ^ 32)%Z) by (cbn; lia).
  destruct (update_combinations_rows 3 1%Z st H1 H2 H3 H4 H5 H6)
    as (rows & _ & Hlen & _ & Hbits & _).
  exists rows. split; [exact Hlen | exact Hbits].
Defined.

(** ** Bookkeeping of one attempt *)

Lemma fold_left_inv {A B : Type} (P : A -> Prop) (f : A -> B -> A)
    (l : list B) (a : A) :
  P a -> (forall a b, b ∈ l -> P a -> P (f a b)) -> P (fold_left f l a).
Proof.
  revert a. induction l as [| b l IH]; intros a Ha Hstep; [exact Ha |].
  cbn [fold_left]. apply IH.
  - apply Hstep; [left | exact Ha].
  - intros a' b' Hb'. apply Hstep. right. exact Hb'.
Qed.


(** Projections of updated states. *)
Ltac proj_simpl :=
  cbn [m_clause_filters m_combination m_num_combinations m_clauses_to_remove
       m_var_position m_vars m_clause m_missing m_removed_clauses used visited
       on_lut_calls g_seed g_sources g_attempts g_assert_ok
       set_m_clause_filters set_m_combination set_m_num_combinations
       set_m_clauses_to_remove set_m_var_position set_m_vars set_m_clause
       set_m_missing set_m_removed_clauses set_used set_visited
       set_on_lut_calls set_g_seed set_g_sources set_g_attempts
       set_g_assert_ok mark_used unmark_used init_visited mark_visited].

Ltac proj_simpl_in H :=
  cbn [m_clause_filters m_combination m_num_combinations m_clauses_to_remove
       m_var_position m_vars m_clause m_missing m_removed_clauses used visited
       on_lut_calls g_seed g_sources g_attempts g_assert_ok
       set_m_clause_filters set_m_combination set_m_num_combinations
       set_m_clauses_to_remove set_m_var_position set_m_vars set_m_clause
       set_m_missing set_m_removed_clauses set_used set_visited
       set_on_lut_calls set_g_seed set_g_sources set_g_attempts
       set_g_assert_ok mark_used unmark_used init_visited mark_visited] in H.

Ltac books_of H :=
  unfold books in H; proj_simpl_in H;
  injection H as ?Hfilters ?Htoremove ?Hvars ?Hremoved ?Hused ?Hvisited
                 ?Hcalls ?Hseed ?Hsources ?Hattempts ?Hassert.

Lemma frame_books (st st' : lut_finder) :
  frame st' = frame st -> books st' = books st.
Proof. unfold frame, books. intros H. injection H. intros. congruence. Qed.

Lemma update_combinations_frame (mask : Z) (st : lut_finder) :
  frame (fst (update_combinations mask st)) = frame st.
Proof.
  unfold update_combinations. cbn [fst].
  rewrite update_combinations_fold. apply set_rows_frame.
Qed.

Lemma update_combinations_books (mask : Z) (st st' : lut_finder) (b : bool) :
  update_combinations mask st = (st', b) -> books st' = books st.
Proof.
  intros H. apply frame_books.
  rewrite <- (update_combinations_frame mask st), H. reflexivity.
Qed.

Section Attempt.

Variable s : solver.

Lemma collect_mask_bin_books (l1 l2 : literal) (st : lut_finder) :
  books (fst (collect_mask_bin l1 l2 st)) = books st.
Proof.
  unfold collect_mask_bin.
  apply (fold_left_inv (fun a => books (fst a) = books st)); [reflexivity |].
  intros [st2 mask] i _ Hst2. cbn [fst] in *.
  destruct (Nat.eqb _ _); [exact Hst2 |].
  destruct (Nat.eqb _ _); exact Hst2.
Qed.

(** [extract_lut(l1, l2)] only logs its source. *)
Lemma extract_lut_bin_books (l1 l2 : literal) (st st' : lut_finder) (b : bool) :
  extract_lut_bin l1 l2 st = (st', b) ->
  books st' = books (set_g_sources (g_sources st ++ [SrcBinary l1 l2]) st).
Proof.
  unfold extract_lut_bin. cbv zeta.
  destruct (collect_mask_bin _ _ _) as [st2 mask] eqn:Hfold.
  intros H%update_combinations_books. rewrite H.
  change st2 with (fst (st2, mask)). rewrite <- Hfold.
  rewrite collect_mask_bin_books. reflexivity.
Qed.

Lemma place_literals_books (c : clause) (st : lut_finder) :
  books (place_literals c st) = books st.
Proof.
  unfold place_literals. cbv zeta.
  apply (fold_left_inv (fun a => books a = books st)); [| auto].
  apply (fold_left_inv (fun a => books a = books st)); [reflexivity | auto].
Qed.

Lemma collect_mask_books (st : lut_finder) :
  books (fst (collect_mask st)) = books st.
Proof.
  unfold collect_mask.
  apply (fold_left_inv (fun a => books (fst a) = books st)); [reflexivity |].
  intros [st2 mask] j _ Hst2. cbn [fst] in *.
  destruct (nth j (m_clause st2) null_literal); exact Hst2.
Qed.


Lemma extract_lut_books (c2 : clause_id) (st st' : lut_finder) (b : bool) :
  extract_lut s c2 st = (st', b) ->
  (forallb (fun l => is_visited (var l) st) (lits (heap s c2)) = false
   /\ st' = st /\ b = false)
  \/ (forallb (fun l => is_visited (var l) st) (lits (heap s c2)) = true
      /\ books st' = books (extract_lut_effect s c2 st)).
Proof.
  unfold extract_lut. cbv zeta.
  destruct (forallb _ _) eqn:Hvis; unfold negb; cbv iota.
  2:{ intros [= <- <-]. left. auto. }
  destruct (collect_mask _) as [st4 mask] eqn:Hfold.
  intros H%update_combinations_books. right. split; [reflexivity |].
  rewrite H. change st4 with (fst (st4, mask)). rewrite <- Hfold.
  rewrite collect_mask_books, place_literals_books. reflexivity.
Qed.


Lemma first_success_ind {A : Type} (P : lut_finder -> bool -> Prop)
    (body : A -> lut_finder -> lut_finder * bool) (xs : list A) :
  (forall x st st' b, x ∈ xs -> P st false -> body x st = (st', b) -> P st' b) ->
  forall st st' b,
    P st false -> first_success body xs st = (st', b) -> P st' b.
Proof.
  induction xs as [| x xs IH]; intros Hbody st st' b HP; cbn [first_success].
  - intros [= <- <-]. exact HP.
  - destruct (body x st) as [st1 done] eqn:Hx.
    assert (H1 : P st1 done) by (eapply Hbody; [left | exact HP | exact Hx]).
    destruct done.
    + intros [= <- <-]. exact H1.
    + apply IH; [| exact H1]. intros y sa sb bb Hy. apply Hbody. right. exact Hy.
Qed.

Lemma update_combinations_defined (mask : Z) (st st' : lut_finder) (b : bool) :
  update_combinations mask st = (st', b) ->
  b = lut_is_defined (length (m_vars st')) st'.
Proof. unfold update_combinations. intros [= <- <-]. reflexivity. Qed.

Lemma extract_lut_bin_defined (l1 l2 : literal) (st st' : lut_finder) (b : bool) :
  extract_lut_bin l1 l2 st = (st', b) ->
  b = lut_is_defined (length (m_vars st')) st'.
Proof.
  unfold extract_lut_bin. cbv zeta.
  destruct (collect_mask_bin _ _ _) as [st2 mask].
  apply update_combinations_defined.
Qed.

Lemma extract_lut_defined (c2 : clause_id) (st st' : lut_finder) :
  extract_lut s c2 st = (st', true) ->
  lut_is_defined (length (m_vars st')) st' = true.
Proof.
  unfold extract_lut. cbv zeta.
  destruct (forallb _ _); unfold negb; cbv iota; [| discriminate].
  destruct (collect_mask _) as [st4 mask].
  intros H. symmetry. exact (update_combinations_defined _ _ _ _ H).
Qed.

(** Once the function is defined, the scan of [convert_combination] finds a
    position and the conversion returns. *)
Lemma convert_combination_defined (vars : list bool_var) (st : lut_finder) :
  lut_is_defined (length vars) st = true ->
  exists lut vars' v, convert_combination vars st = Some (lut, vars', v).
Proof.
  unfold lut_is_defined, convert_combination.
  destruct (Z.ltb _ _); [discriminate |].
  intros (i & Hi & Hdef)%existsb_exists.
  destruct (first_defined (length vars) st) as [k |] eqn:Hk.
  - destruct (first_defined_Some _ _ _ Hk) as [Hlt _].
    cbv beta iota delta [from_option id].
    destruct (nth_error vars k) as [v |] eqn:Hv; [eauto |].
    apply nth_error_None in Hv. lia.
  - unfold first_defined in Hk.
    pose proof (find_none _ _ Hk i Hi) as Hno. cbv beta in Hno. congruence.
Qed.

Lemma add_lut_attempt (c : clause_id) (st0 st : lut_finder) :
  attempt s c st0 st false ->
  lut_is_defined (length (m_vars st)) st = true ->
  attempt s c st0 (add_lut st) true.
Proof.
  intros [Hf Ha Hum Hus Htr Htru Hss Has Hrm Hcalls Hm] Hdef.
  destruct (Hm eq_refl) as (_ & _ & Hseed).
  rewrite app_nil_r in Hrm.
  assert (Hbooks :
    exists vars call,
      books (add_lut st)
      = books (set_on_lut_calls (on_lut_calls st ++ [call])
                 (set_m_vars vars
                    (set_m_removed_clauses
                       (m_removed_clauses st ++ m_clauses_to_remove st) st)))
      /\ call_seed call = g_seed st).
  { unfold add_lut. cbv zeta. proj_simpl.
    pose proof (convert_combination_defined (m_vars st)
                  (set_m_removed_clauses
                     (m_removed_clauses st ++ m_clauses_to_remove st) st)) as Hcc.
    destruct Hcc as (lut & vars & v & ->); [exact Hdef |].
    eexists vars, _. split; reflexivity. }
  destruct Hbooks as (vars & call & Hb & Hcall). books_of Hb.
  constructor.
  - congruence.
  - congruence.
  - rewrite Hused. exact Hum.
  - rewrite Hused. exact Hus.
  - congruence.
  - rewrite Htoremove, Hused. exact Htru.
  - rewrite Hsources. exact Hss.
  - intros Hd. rewrite Hassert. auto.
  - congruence.
  - exists call. split; congruence.
  - discriminate.
Qed.

Lemma scheduled_app (c : clause_id) (l1 l2 : list source) :
  scheduled s c (l1 ++ l2) = scheduled s c l1 ++ scheduled s c l2.
Proof. apply omap_app. Qed.

Lemma scheduled_clause (c c2 : clause_id) :
  scheduled s c [SrcClause c2]
  = if Nat.eqb (size (heap s c2)) (size (heap s c)) then [c2] else [].
Proof. unfold scheduled. cbn. destruct (Nat.eqb _ _); reflexivity. Qed.

Lemma distinct_visited_size (c2 : clause_id) (st : lut_finder) :
  all_distinct (heap s c2) = true ->
  forallb (fun l => is_visited (var l) st) (lits (heap s c2)) = true ->
  (forall v, v ∈ visited st <-> v ∈ m_vars st) ->
  size (heap s c2) <= length (m_vars st).
Proof.
  intros Hd Hvis Hiff. unfold all_distinct in Hd. apply bool_decide_eq_true in Hd.
  unfold size. rewrite <- (length_map var). apply submseteq_length.
  apply NoDup_submseteq; [exact Hd |].
  intros v Hv%list_elem_of_In%in_map_iff. destruct Hv as (l & <- & Hl).
  rewrite forallb_forall in Hvis. specialize (Hvis l Hl).
  apply bool_decide_eq_true in Hvis. apply Hiff, Hvis.
Qed.

Lemma extract_lut_attempt (c c2 : clause_id) (st0 st st' : lut_finder) (b : bool) :
  attempt s c st0 st false ->
  c2 ∉ used st ->
  (filters_distinct s (m_clause_filters st0) -> all_distinct (heap s c2) = true) ->
  extract_lut s c2 st = (st', b) ->
  attempt s c st0 st' false.
Proof.
  intros Hat Hfresh Hdist [(_ & -> & _) | (Hvis & Hb)]%extract_lut_books;
    [exact Hat |].
  destruct Hat as [Hf Ha Hum Hus Htr Htru Hss Has Hrm Hcalls Hm].
  destruct (Hm eq_refl) as (Hmv & Hmvis & Hseed).
  assert (Hlen : length (m_vars st) = size (heap s c))
    by (rewrite Hmv; apply length_map).
  unfold extract_lut_effect, schedule_if_full in Hb. cbv zeta in Hb.
  assert (Hok : filters_distinct s (m_clause_filters st0) ->
                (size (heap s c2) <=? length (m_vars st)) = true).
  { intros Hd. apply Nat.leb_le, distinct_visited_size; auto. }
  destruct (Nat.eqb_spec (size (heap s c2)) (length (m_vars st))) as [Heq | Hne];
    books_of Hb.
  - constructor.
    + congruence.
    + congruence.
    + rewrite Hused. etrans; [exact Hum | apply union_subseteq_r].
    + rewrite Hused. apply elem_of_union_r, Hus.
    + rewrite Htoremove, Hsources, scheduled_app, Htr, scheduled_clause.
      replace (size (heap s c2) =? size (heap s c)) with true
        by (symmetry; apply Nat.eqb_eq; congruence).
      reflexivity.
    + intros x. rewrite Htoremove, Hused.
      intros [Hx | ->%list_elem_of_singleton]%elem_of_app.
      * destruct (Htru x Hx) as [H1 H2].
        split; [apply elem_of_union_r, H1 | exact H2].
      * split; [apply elem_of_union_l, elem_of_singleton; reflexivity |].
        right. intros Hin. apply Hfresh, Hum, Hin.
    + rewrite Hsources. apply elem_of_app. left. exact Hss.
    + intros Hd. rewrite Hassert, (Hok Hd), andb_true_r. auto.
    + congruence.
    + congruence.
    + intros _. rewrite Hvars, Hvisited, Hseed0. auto.
  - constructor.
    + congruence.
    + congruence.
    + rewrite Hused. exact Hum.
    + rewrite Hused. exact Hus.
    + rewrite Htoremove, Hsources, scheduled_app, Htr, scheduled_clause.
      replace (size (heap s c2) =? size (heap s c)) with false
        by (symmetry; apply Nat.eqb_neq; congruence).
      rewrite app_nil_r. reflexivity.
    + rewrite Htoremove, Hused. exact Htru.
    + rewrite Hsources. apply elem_of_app. left. exact Hss.
    + intros Hd. rewrite Hassert, (Hok Hd), andb_true_r. auto.
    + congruence.
    + congruence.
    + intros _. rewrite Hvars, Hvisited, Hseed0. auto.
Qed.

Lemma extract_lut_bin_attempt (c : clause_id) (l1 l2 : literal)
    (st0 st st' : lut_finder) (b : bool) :
  attempt s c st0 st false ->
  extract_lut_bin l1 l2 st = (st', b) ->
  attempt s c st0 st' false.
Proof.
  intros [Hf Ha Hum Hus Htr Htru Hss Has Hrm Hcalls Hm] Hb%extract_lut_bin_books.
  destruct (Hm eq_refl) as (Hmv & Hmvis & Hseed).
  books_of Hb. constructor.
  - congruence.
  - congruence.
  - rewrite Hused. exact Hum.
  - rewrite Hused. exact Hus.
  - rewrite Htoremove, Hsources, scheduled_app, Htr. cbn. rewrite app_nil_r.
    reflexivity.
  - rewrite Htoremove, Hused. exact Htru.
  - rewrite Hsources. apply elem_of_app. left. exact Hss.
  - intros Hd. rewrite Hassert. auto.
  - congruence.
  - congruence.
  - intros _. rewrite Hvars, Hvisited, Hseed0. auto.
Qed.

Lemma nth_filters_distinct (fs : list (list clause_filter)) (v : nat)
    (cf : clause_filter) :
  filters_distinct s fs -> cf ∈ nth v fs [] ->
  all_distinct (heap s (m_clause_of cf)) = true.
Proof.
  intros Hd Hcf. rewrite nth_lookup in Hcf.
  destruct (fs !! v) as [l |] eqn:Hl; cbn in Hcf.
  - unfold filters_distinct in Hd. rewrite Forall_lookup in Hd.
    specialize (Hd v l Hl). rewrite Forall_forall in Hd. apply Hd, Hcf.
  - apply elem_of_nil in Hcf. destruct Hcf.
Qed.

Lemma try_watch_list_attempt (c : clause_id) (l : literal)
    (st0 st st' : lut_finder) (b : bool) :
  attempt s c st0 st false ->
  try_watch_list s l st = (st', b) ->
  attempt s c st0 st' b.
Proof.
  intros Hat. unfold try_watch_list.
  apply (first_success_ind (attempt s c st0)); [| exact Hat].
  intros w st1 st2 b2 _ H1.
  destruct (_ && _ && _).
  - destruct (extract_lut_bin _ _ _) as [st3 ok] eqn:Hex.
    pose proof (extract_lut_bin_attempt _ _ _ _ _ _ _ H1 Hex) as H3.
    pose proof (extract_lut_bin_defined _ _ _ _ _ Hex) as Hdef.
    destruct ok; intros [= <- <-]; [apply add_lut_attempt; auto | exact H3].
  - intros [= <- <-]. exact H1.
Qed.

Lemma try_literal_attempt (c : clause_id) (filter : Z) (l : literal)
    (st0 st st' : lut_finder) (b : bool) :
  attempt s c st0 st false ->
  try_literal s filter l st = (st', b) ->
  attempt s c st0 st' b.
Proof.
  intros Hat. unfold try_literal.
  destruct (first_success _ _ _) as [st1 done1] eqn:Hloop.
  assert (H1 : attempt s c st0 st1 done1).
  { revert Hloop. apply (first_success_ind (attempt s c st0)); [| exact Hat].
    intros cf sa sb bb Hcf Ha.
    destruct (Z.eqb _ _); cbn [andb]; [| intros [= <- <-]; exact Ha].
    destruct (was_used _ _) eqn:Hu; cbn [negb]; [intros [= <- <-]; exact Ha |].
    destruct (extract_lut _ _ _) as [sc ok] eqn:Hex.
    assert (H3 : attempt s c st0 sc false).
    { apply (extract_lut_attempt _ _ _ _ _ _ Ha) in Hex; [exact Hex | |].
      - unfold was_used in Hu. apply bool_decide_eq_false in Hu. exact Hu.
      - intros Hd.
        apply (nth_filters_distinct (m_clause_filters st) (var l)); [| exact Hcf].
        rewrite (at_filters _ _ _ _ _ Hat). exact Hd. }
    destruct ok; intros [= <- <-]; [| exact H3].
    apply add_lut_attempt; [exact H3 | apply (extract_lut_defined _ _ _ Hex)]. }
  destruct done1; [intros [= <- <-]; exact H1 |].
  destruct (try_watch_list s l st1) as [st2 done2] eqn:Hw.
  pose proof (try_watch_list_attempt _ _ _ _ _ _ H1 Hw) as H2.
  destruct done2; [intros [= <- <-]; exact H2 |].
  apply try_watch_list_attempt. exact H2.
Qed.


Lemma seed_vars_fold (ls : list literal) (st : lut_finder) (mask : Z) (i : nat) :
  let '(st', _, _) :=
    fold_left
      (fun '(st, mask, i) l =>
         let st := set_m_vars (m_vars st ++ [var l]) st in
         let st := set_m_var_position (<[var l := i]> (m_var_position st)) st in
         let st := mark_visited (var l) st in
         (st, wrap32 (Z.lor mask (shl32 (Z.b2z (sign l)) i)), S i))
      ls (st, mask, i) in
  m_vars st' = m_vars st ++ map var ls /\
  (forall v, v ∈ visited st' <-> v ∈ visited st \/ v ∈ map var ls) /\
  seed_frame st' = seed_frame st.
Proof.
  revert st mask i. induction ls as [| l ls IH]; intros st mask i.
  - cbn. rewrite app_nil_r. split; [reflexivity |]. split; [| reflexivity].
    intros v. rewrite elem_of_nil. tauto.
  - cbn [fold_left map]. cbv zeta.
    specialize (IH (mark_visited (var l)
                      (set_m_var_position (<[var l := i]> (m_var_position st))
                         (set_m_vars (m_vars st ++ [var l]) st)))
                   (wrap32 (Z.lor mask (shl32 (Z.b2z (sign l)) i))) (S i)).
    cbn [m_var_position set_m_vars] in IH |- *.
    destruct (fold_left _ ls _) as [[st' mask'] i'].
    destruct IH as (Hv & Hvis & Hfr).
    cbn [m_vars visited mark_visited set_visited set_m_var_position set_m_vars] in Hv, Hvis.
    split; [rewrite Hv, <- app_assoc; reflexivity |].
    split; [| exact Hfr].
    intros v. rewrite Hvis, elem_of_union, elem_of_singleton, elem_of_cons. tauto.
Qed.

Lemma seed_attempt (c : clause_id) (st0 : lut_finder) :
  attempt s c st0 (seed s c st0) false.
Proof.
  unfold seed. cbv zeta.
  pose proof (seed_vars_fold (lits (heap s c)) (set_m_vars [] (init_visited st0)) 0%Z 0)
    as Hsv.
  unfold seed_vars.
  destruct (fold_left _ _ _) as [[st1 mask] i].
  destruct Hsv as (Hv & Hvis & Hfr).
  cbn [m_vars visited set_m_vars init_visited set_visited app] in Hv, Hvis.
  unfold seed_frame in Hfr.
  cbn [m_clause_filters m_clauses_to_remove m_removed_clauses used on_lut_calls
       g_seed g_sources g_attempts g_assert_ok set_m_vars init_visited set_visited]
    in Hfr.
  injection Hfr as Hf Htr Hrm Hu Hc Hs Hsrc Ha Hok.
  match goal with
  | |- attempt _ _ _ (mark_used c (set_combination mask ?X)) _ =>
      assert (Hb : books (mark_used c (set_combination mask X))
                   = books (mark_used c X))
  end.
  { pose proof (frame_books _ _ (set_combination_frame mask
      (set_g_sources [SrcSeed c]
         (set_g_seed c
            (set_m_num_combinations 0%Z
               (set_m_combination 0%Z
                  (set_m_clause
                     (resize (size (heap s c)) null_literal
                        (m_clause (set_m_clauses_to_remove [c] st1)))
                     (set_m_clauses_to_remove [c] st1)))))))) as Hfb.
    unfold books in Hfb |- *. unfold mark_used.
    cbn [m_clause_filters m_clauses_to_remove m_vars m_removed_clauses used
         visited on_lut_calls g_seed g_sources g_attempts g_assert_ok set_used].
    injection Hfb. intros. congruence. }
  books_of Hb.
  constructor; proj_simpl.
  - congruence.
  - congruence.
  - rewrite Hused, Hu. apply union_subseteq_r.
  - rewrite Hused. apply elem_of_union_l, elem_of_singleton. reflexivity.
  - rewrite Htoremove, Hsources. reflexivity.
  - intros x. rewrite Htoremove, Hused. intros ->%list_elem_of_singleton.
    split; [apply elem_of_union_l, elem_of_singleton; reflexivity | left; reflexivity].
  - rewrite Hsources. apply list_elem_of_singleton. reflexivity.
  - intros _. congruence.
  - rewrite app_nil_r. congruence.
  - congruence.
  - intros _. rewrite Hvars, Hvisited, Hseed. split; [exact Hv |]. split; [| reflexivity].
    intros v. rewrite Hvis, Hv, elem_of_empty. tauto.
Qed.

Lemma check_lut_attempt (c : clause_id) (st0 st' : lut_finder) (found : bool) :
  check_lut s c st0 = (st', found) ->
  exists st,
    attempt s c st0 st found /\
    st' = set_g_attempts (g_attempts st ++ [(c, found)]) st.
Proof.
  unfold check_lut. cbv zeta.
  destruct (first_success _ _ _) as [st found'] eqn:Hloop.
  intros [= <- <-]. exists st. split; [| reflexivity].
  revert Hloop. apply (first_success_ind (attempt s c st0)); [| apply seed_attempt].
  intros l sa sb bb _ Ha. apply try_literal_attempt. exact Ha.
Qed.

End Attempt.

(** ** Bookkeeping of the pass *)

Section Pass.

Variable s : solver.
Variable m_max_lut_size : nat.
Variable clauses : list clause_id.


Lemma filters_distinct_push (fs : list (list clause_filter)) (cf : clause_filter)
    (v : nat) :
  filters_distinct s fs ->
  all_distinct (heap s (m_clause_of cf)) = true ->
  filters_distinct s (alter (fun l => l ++ [cf]) v fs).
Proof.
  unfold filters_distinct. intros Hfs Hcf. rewrite Forall_lookup in Hfs |- *.
  intros i l. rewrite list_lookup_alter. destruct (decide (v = i)) as [-> | Hne].
  - destruct (fs !! i) as [l0 |] eqn:Hl0; cbn; [| discriminate].
    intros [= <-]. apply Forall_app. split; [exact (Hfs i l0 Hl0) |].
    apply Forall_cons. split; [exact Hcf | apply Forall_nil; exact I].
  - apply Hfs.
Qed.

Lemma init_clause_filter_vec_spec (cls : list clause_id) (st : lut_finder) :
  filters_distinct s (m_clause_filters st) ->
  filters_distinct s
    (m_clause_filters (init_clause_filter_vec s m_max_lut_size cls st)) /\
  pass_frame (init_clause_filter_vec s m_max_lut_size cls st) = pass_frame st /\
  used (init_clause_filter_vec s m_max_lut_size cls st) = used st.
Proof.
  intros Hd. unfold init_clause_filter_vec.
  apply (fold_left_inv
           (fun a => filters_distinct s (m_clause_filters a)
                     /\ pass_frame a = pass_frame st /\ used a = used st));
    [auto |].
  intros a cp _ Ha. cbv zeta.
  destruct (_ <=? _); cbn [andb]; [| exact Ha].
  destruct (all_distinct (heap s cp)) eqn:Hcp; [| exact Ha].
  apply (fold_left_inv
           (fun a => filters_distinct s (m_clause_filters a)
                     /\ pass_frame a = pass_frame st /\ used a = used st));
    [exact Ha |].
  intros b l _ (Hb1 & Hb2 & Hb3). proj_simpl.
  split; [| split; [exact Hb2 | exact Hb3]].
  apply filters_distinct_push; [exact Hb1 | exact Hcp].
Qed.

Lemma init_clause_filter_spec (st : lut_finder) :
  filters_distinct s (m_clause_filters (init_clause_filter s m_max_lut_size st)) /\
  pass_frame (init_clause_filter s m_max_lut_size st) = pass_frame st /\
  used (init_clause_filter s m_max_lut_size st) = used st.
Proof.
  unfold init_clause_filter. cbv zeta.
  set (st1 := set_m_clause_filters _ st).
  assert (H1 : filters_distinct s (m_clause_filters st1)).
  { subst st1. proj_simpl. unfold filters_distinct.
    apply Forall_forall. intros l Hl%elem_of_replicate. destruct Hl as [-> _].
    apply Forall_nil. exact I. }
  destruct (init_clause_filter_vec_spec (m_clauses s) st1 H1) as (H2 & H3 & H4).
  destruct (init_clause_filter_vec_spec (m_learned s) _ H2) as (H5 & H6 & H7).
  split; [exact H5 |]. split; [rewrite H6, H3 | rewrite H7, H4]; reflexivity.
Qed.

Lemma unmark_all_spec (cls : list clause_id) (st : lut_finder) :
  let st' := fold_left (fun st cp => unmark_used cp st) cls st in
  (forall x, x ∈ used st' <-> x ∈ used st /\ x ∉ cls) /\
  pass_frame st' = pass_frame st /\
  m_clause_filters st' = m_clause_filters st.
Proof.
  revert st. induction cls as [| cp cls IH]; intros st; cbn zeta.
  - cbn. split; [| auto]. intros x. rewrite elem_of_nil. tauto.
  - cbn [fold_left]. destruct (IH (unmark_used cp st)) as (Hu & Hf & Hc).
    split; [| split; [rewrite Hf | rewrite Hc]; reflexivity].
    intros x. rewrite Hu. proj_simpl.
    rewrite elem_of_difference, elem_of_singleton, not_elem_of_cons. tauto.
Qed.

Lemma mark_all_spec (cls : list clause_id) (st : lut_finder) :
  let st' := fold_left (fun st cp => mark_used cp st) cls st in
  (forall x, x ∈ used st' <-> x ∈ cls \/ x ∈ used st) /\
  pass_frame st' = pass_frame st.
Proof.
  revert st. induction cls as [| cp cls IH]; intros st; cbn zeta.
  - cbn. split; [| auto]. intros x. rewrite elem_of_nil. tauto.
  - cbn [fold_left]. destruct (IH (mark_used cp st)) as (Hu & Hf).
    split; [| rewrite Hf; reflexivity].
    intros x. rewrite Hu. proj_simpl.
    rewrite elem_of_union, elem_of_singleton, elem_of_cons. tauto.
Qed.


Lemma check_lut_pass_inv (F : list (list clause_filter)) (cp : clause_id)
    (st : lut_finder) :
  filters_distinct s F -> pass_inv clauses F st -> cp ∈ clauses -> cp ∉ used st ->
  pass_inv clauses F (fst (check_lut s cp st)).
Proof.
  intros HF (Hf & Hok & Hrm & Hcalls & Hatt) Hcp Hfresh.
  destruct (check_lut s cp st) as [st' found] eqn:Hcl. cbn [fst].
  apply check_lut_attempt in Hcl as (st1 & Hat & ->).
  destruct Hat as [Af Aa Aum Aus Atr Atru Ass Aas Arm Acalls Am].
  unfold pass_inv. proj_simpl.
  assert (Hnew : forall x, x ∈ m_removed_clauses st1 ->
            x ∈ m_removed_clauses st \/ (found = true /\ x ∈ m_clauses_to_remove st1)).
  { intros x. rewrite Arm. destruct found.
    - intros [H | H]%elem_of_app; auto.
    - rewrite app_nil_r. auto. }
  assert (Hcall1 : forall call, call ∈ on_lut_calls st1 ->
            call ∈ on_lut_calls st \/ (found = true /\ call_seed call = cp)).
  { intros call Hc. destruct found.
    - destruct Acalls as (call' & Hcs & Hseed). rewrite Hcs in Hc.
      apply elem_of_app in Hc as [Hc | Hc]; [left; exact Hc | right].
      apply list_elem_of_singleton in Hc. subst call'. auto.
    - rewrite Acalls in Hc. auto. }
  split; [congruence |].
  split; [rewrite Aas; [exact Hok | rewrite Hf; exact HF] |].
  split.
  { intros x Hx. apply Hnew in Hx as [H | [_ H]];
      [apply Aum, Hrm, H | apply (Atru x H)]. }
  split.
  { intros call Hc. apply Hcall1 in Hc as [H | [_ H]];
      [apply Aum, Hcalls, H | rewrite H; exact Aus]. }
  intros c. rewrite Aa. intros Hc.
  apply elem_of_app in Hc as [Hold | Hlast].
  - destruct (Hatt c Hold) as (Hc1 & Hc2 & Hc3 & Hc4).
    split; [exact Hc1 |]. split; [apply Aum, Hc2 |]. split.
    + intros Hx. apply Hnew in Hx as [H | [_ H]]; [exact (Hc3 H) |].
      destruct (Atru c H) as [_ [-> | Hn]]; [exact (Hfresh Hc2) | exact (Hn Hc2)].
    + intros call Hx. apply Hcall1 in Hx as [H | [_ H]]; [exact (Hc4 call H) |].
      rewrite H. intros ->. exact (Hfresh Hc2).
  - apply list_elem_of_singleton in Hlast. injection Hlast as -> <-.
    split; [exact Hcp |]. split; [exact Aus |]. split.
    + intros Hx. apply Hnew in Hx as [H | [H _]];
        [exact (Hfresh (Hrm _ H)) | discriminate].
    + intros call Hx. apply Hcall1 in Hx as [H | [H _]]; [| discriminate].
      intros Heq. apply Hfresh. rewrite <- Heq. apply Hcalls, H.
Qed.

Lemma check_size_pass_inv (F : list (list clause_filter)) (max_size : nat)
    (st : lut_finder) :
  filters_distinct s F -> pass_inv clauses F st ->
  pass_inv clauses F (check_size s max_size clauses st).
Proof.
  intros HF Hinv. unfold check_size.
  apply (fold_left_inv (pass_inv clauses F)); [exact Hinv |].
  intros a cp Hcp Ha.
  destruct (_ && negb (was_used cp a)) eqn:Hguard; [| exact Ha].
  apply andb_prop in Hguard as [_ Hu]. apply negb_true_iff in Hu.
  apply check_lut_pass_inv; [exact HF | exact Ha | exact Hcp |].
  unfold was_used in Hu. apply bool_decide_eq_false in Hu. exact Hu.
Qed.

Lemma pass_search_pass_inv (F : list (list clause_filter)) (st : lut_finder) :
  filters_distinct s F -> pass_inv clauses F st ->
  pass_inv clauses F (pass_search s m_max_lut_size clauses st).
Proof.
  intros HF Hinv. unfold pass_search.
  apply (fold_left_inv (pass_inv clauses F)); [exact Hinv |].
  intros a max_size _ Ha. apply check_size_pass_inv; assumption.
Qed.

Lemma pass_start_pass_inv (st : lut_finder) :
  exists F, filters_distinct s F /\
            pass_inv clauses F (pass_start s m_max_lut_size clauses st).
Proof.
  unfold pass_start. cbv zeta.
  set (st1 := set_g_assert_ok true _).
  destruct (init_clause_filter_spec st1) as (HF & Hfr & _).
  set (st2 := set_m_var_position _ _).
  destruct (unmark_all_spec clauses st2) as (_ & Hfr3 & Hf3). cbv zeta in Hfr3, Hf3.
  exists (m_clause_filters (init_clause_filter s m_max_lut_size st1)).
  split; [exact HF |].
  unfold pass_frame in Hfr, Hfr3. subst st2 st1. proj_simpl_in Hfr. proj_simpl_in Hfr3.
  proj_simpl_in Hf3.
  injection Hfr as Hr1 Hc1 Ha1 Ho1. injection Hfr3 as Hr3 Hc3 Ha3 Ho3.
  unfold pass_inv. rewrite Hf3, Hr3, Hc3, Ha3, Ho3, Hr1, Hc1, Ha1, Ho1.
  split; [reflexivity |]. split; [reflexivity |].
  split; [intros x Hx; apply elem_of_nil in Hx; destruct Hx |].
  split; [intros x Hx; apply elem_of_nil in Hx; destruct Hx |].
  intros c Hx. apply elem_of_nil in Hx. destruct Hx.
Qed.

Lemma pass_finish_spec (st : lut_finder) :
  let st' := fst (pass_finish clauses st) in
  (forall x, x ∈ used st' <->
     x ∈ m_removed_clauses st \/ (x ∈ used st /\ x ∉ clauses)) /\
  pass_frame st' = pass_frame st /\
  snd (pass_finish clauses st)
  = List.filter (fun cp => negb (was_used cp st')) clauses.
Proof.
  unfold pass_finish. cbv zeta. cbn [fst snd].
  set (st1 := set_m_clause_filters [] st).
  destruct (unmark_all_spec clauses st1) as (Hu2 & Hfr2 & _). cbv zeta in Hu2, Hfr2.
  set (st2 := fold_left _ clauses st1) in *.
  destruct (mark_all_spec (m_removed_clauses st2) st2) as (Hu3 & Hfr3).
  cbv zeta in Hu3, Hfr3.
  split; [| split; [| reflexivity]].
  - intros x. rewrite Hu3, Hu2.
    assert (Hr : m_removed_clauses st2 = m_removed_clauses st).
    { unfold pass_frame in Hfr2. subst st1. proj_simpl_in Hfr2.
      injection Hfr2. auto. }
    rewrite Hr. subst st1. proj_simpl. tauto.
  - rewrite Hfr3, Hfr2. reflexivity.
Qed.

End Pass.

(** ** Exhausted seeds *)

Lemma run_spec (s : solver) (m_max_lut_size : nat) (clauses : list clause_id)
    (st0 : lut_finder) :
  exists F st,
    filters_distinct s F /\ pass_inv clauses F st /\
    run s m_max_lut_size clauses st0 = pass_finish clauses st.
Proof.
  destruct (pass_start_pass_inv s m_max_lut_size clauses st0) as (F & HF & Hinv).
  exists F, (pass_search s m_max_lut_size clauses
               (pass_start s m_max_lut_size clauses st0)).
  split; [exact HF |]. split; [| reflexivity].
  apply pass_search_pass_inv; assumption.
Qed.

(** C4: a seed clause whose attempt ends exhausted has no callback made for
    it, is not in [m_removed_clauses], is not marked used when the pass ends
    and survives the final filter of [clauses]. *)
Theorem exhausted_seed_survives (s : solver) (m_max_lut_size : nat)
    (clauses : list clause_id) (st0 : lut_finder) (c : clause_id) :
  (c, false) ∈ g_attempts (fst (run s m_max_lut_size clauses st0)) ->
  (forall call, call ∈ on_lut_calls (fst (run s m_max_lut_size clauses st0)) ->
     call_seed call <> c) /\
  (c ∉ m_removed_clauses (fst (run s m_max_lut_size clauses st0))) /\
  was_used c (fst (run s m_max_lut_size clauses st0)) = false /\
  c ∈ snd (run s m_max_lut_size clauses st0).
Proof.
  destruct (run_spec s m_max_lut_size clauses st0) as (F & st & HF & Hinv & ->).
  destruct (pass_finish_spec clauses st) as (Hused & Hfr & Hout).
  cbv zeta in Hused, Hfr. rewrite Hout.
  set (st' := fst (pass_finish clauses st)) in *.
  unfold pass_frame in Hfr. injection Hfr as Hr Hc Ha _.
  rewrite Ha, Hc, Hr. intros Hatt.
  destruct Hinv as (_ & _ & _ & _ & Hex).
  destruct (Hex c Hatt) as (Hcl & _ & Hnr & Hcalls).
  assert (Hnu : c ∉ used st').
  { rewrite Hused. intros [H | [_ H]]; [exact (Hnr H) | exact (H Hcl)]. }
  assert (Hwu : was_used c st' = false)
    by (unfold was_used; apply bool_decide_eq_false; exact Hnu).
  split; [exact Hcalls |]. split; [exact Hnr |]. split; [exact Hwu |].
  apply list_elem_of_In, filter_In. split; [apply list_elem_of_In, Hcl |].
  rewrite Hwu. reflexivity.
Qed.

Lemma exhausted_seed_survives_witness :
  (0, false) ∈ g_attempts (fst (run lonely_solver 6 [0] empty_finder)) /\
  0 ∈ snd (run lonely_solver 6 [0] empty_finder).
Proof.
  assert (H : (0, false) ∈ g_attempts (fst (run lonely_solver 6 [0] empty_finder))).
  { replace (g_attempts (fst (run lonely_solver 6 [0] empty_finder)))
      with [(0, false)] by (vm_compute; reflexivity).
    apply list_elem_of_singleton. reflexivity. }
  split; [exact H |].
  exact (proj2 (proj2 (proj2
           (exhausted_seed_survives lonely_solver 6 [0] empty_finder 0 H)))).
Defined.

(** ** The size assertion of [extract_lut] *)

(** C10: in a pass, every clause of the index that passes the subset test
    of [extract_lut] has at most [m_vars.size()] literals: the assertion
    [c2.size() <= m_vars.size()] holds each time it is reached. *)
Theorem extract_lut_size_assertion (s : solver) (m_max_lut_size : nat)
    (clauses : list clause_id) (st0 : lut_finder) :
  g_assert_ok (fst (run s m_max_lut_size clauses st0)) = true.
Proof.
  destruct (run_spec s m_max_lut_size clauses st0) as (F & st & HF & Hinv & ->).
  destruct (pass_finish_spec clauses st) as (_ & Hfr & _). cbv zeta in Hfr.
  set (st' := fst (pass_finish clauses st)) in *.
  unfold pass_frame in Hfr. injection Hfr as _ _ _ Hok. rewrite Hok.
  destruct Hinv as (_ & H & _). exact H.
Qed.

(** * Further properties of the finder *)

(** ** Masks for every position *)

Lemma mask_at_init_mask (i : nat) :
  i <= 6 -> init_mask i = Some (mask_at i).
Proof.
  intros Hi. do 7 (destruct i as [| i]; [vm_compute; reflexivity |]). lia.
Qed.

Lemma mask_at_6_bits (p : Z) :
  (0 <= p)%Z -> Z.testbit (mask_at 6) p = (p <? 64)%Z.
Proof.
  intros Hp. change (mask_at 6) with (Z.ones 64).
  apply Z.testbit_ones_nonneg; lia.
Qed.

(** X1: for every position i <= 6 the loop of [init_mask] terminates and
    bit p of the mask is set exactly when p < 64 and bit i of p is clear
    (for i = 6 that is every p < 64). *)
Theorem init_mask_bits (i : nat) :
  i <= 6 ->
  exists m,
    init_mask i = Some m /\
    (0 <= m < 2 ^ 64)%Z /\
    forall p, (0 <= p)%Z ->
      Z.testbit m p = (p <? 64)%Z && negb (Z.testbit p (Z.of_nat i)).
Proof.
  intros Hi. exists (mask_at i).
  split; [apply mask_at_init_mask, Hi |].
  destruct (Nat.eq_dec i 6) as [-> | Hne].
  - split; [vm_compute; split; [discriminate | reflexivity] |].
    intros p Hp. rewrite mask_at_6_bits by exact Hp.
    destruct (Z.ltb_spec p 64) as [Hlt | Hge]; [| reflexivity].
    rewrite (testbit_small p 6 (Z.of_nat 6)) by (cbn; lia). reflexivity.
  - assert (Hi5 : i <= 5) by lia.
    split; [apply (mask_at_pattern i Hi5) |].
    intros p Hp. apply mask_at_bits; assumption.
Qed.

Lemma init_mask_bits_witness :
  4 <= 6 /\
  exists m,
    init_mask 4 = Some m /\
    (0 <= m < 2 ^ 64)%Z /\
    forall p, (0 <= p)%Z ->
      Z.testbit m p = (p <? 64)%Z && negb (Z.testbit p (Z.of_nat 4)).
Proof.
  assert (H : 4 <= 6) by lia.
  split; [exact H | exact (init_mask_bits 4 H)].
Defined.

(** ** Definedness and the combination word *)

(** X2: witnessing more rows never undoes definedness: if every row of one
    word is a row of another, a position defined on the first is defined on
    the second. *)
Theorem lut_is_defined_at_monotone (i sz : nat) (st st' : lut_finder) :
  (forall p, (0 <= p)%Z -> Z.testbit (m_combination st) p = true ->
             Z.testbit (m_combination st') p = true) ->
  lut_is_defined_at i sz st = true ->
  lut_is_defined_at i sz st' = true.
Proof.
  intros Hsub. unfold lut_is_defined_at. cbv zeta.
  set (m := if sz <? 6 then _ else _).
  rewrite !land_eq_iff. intros H p Hp Hm. specialize (H p Hp Hm).
  assert (Hs : (0 <= shl64 1 i)%Z)
    by (unfold shl64, wrap64; apply Z.mod_pos_bound; reflexivity).
  rewrite Z.lor_spec, Z.shiftr_spec in H |- * by exact Hp.
  apply orb_true_iff in H as [H | H]; apply orb_true_iff; [left | right];
    apply Hsub; [exact Hp | exact H | lia | exact H].
Qed.

Lemma lut_is_defined_at_monotone_witness :
  lut_is_defined_at 0 3 (set_m_combination 5%Z empty_finder) = true /\
  lut_is_defined_at 0 3 (set_m_combination 7%Z empty_finder) = true.
Proof.
  assert (H1 : forall p, (0 <= p)%Z ->
            Z.testbit (m_combination (set_m_combination 5%Z empty_finder)) p = true ->
            Z.testbit (m_combination (set_m_combination 7%Z empty_finder)) p = true).
  { intros p Hp. cbn [m_combination set_m_combination].
    change 5%Z with (Z.land 7 5). rewrite Z.land_spec.
    intros H. apply andb_prop in H. tauto. }
  assert (H2 : lut_is_defined_at 0 3 (set_m_combination 5%Z empty_finder) = true)
    by (vm_compute; reflexivity).
  split; [exact H2 |].
  exact (lut_is_defined_at_monotone 0 3 _ _ H1 H2).
Defined.

(** X3: a position can only be defined once row 0 or row 2^i is witnessed;
    in particular nothing is defined on the empty word. *)
Theorem lut_is_defined_at_needs_row (i sz : nat) (st : lut_finder) :
  1 <= sz <= 6 -> i <= 5 ->
  lut_is_defined_at i sz st = true ->
  Z.testbit (m_combination st) 0 = true \/
  Z.testbit (m_combination st) (2 ^ Z.of_nat i) = true.
Proof.
  intros Hsz Hi. rewrite lut_is_defined_at_unfold by lia.
  rewrite land_eq_iff. intros H.
  assert (Hrow : tested_row i sz 0%Z).
  { unfold tested_row. split; [lia |]. split; [apply Z.bits_0 | lia]. }
  apply truncated_mask_bits in Hrow; [| exact Hi | lia].
  specialize (H 0%Z ltac:(lia) Hrow).
  rewrite Z.lor_spec, Z.shiftr_spec, Z.add_0_l in H by lia.
  apply orb_prop in H. exact H.
Qed.

Lemma lut_is_defined_at_needs_row_witness :
  (1 <= 3 <= 6) /\ 1 <= 5 /\
  lut_is_defined_at 1 3 (set_m_combination 35%Z empty_finder) = true /\
  (Z.testbit (m_combination (set_m_combination 35%Z empty_finder)) 0 = true \/
   Z.testbit (m_combination (set_m_combination 35%Z empty_finder))
     (2 ^ Z.of_nat 1) = true).
Proof.
  assert (H1 : 1 <= 3 <= 6) by lia.
  assert (H2 : 1 <= 5) by lia.
  assert (H3 : lut_is_defined_at 1 3 (set_m_combination 35%Z empty_finder) = true)
    by (vm_compute; reflexivity).
  split; [exact H1 | split; [exact H2 | split; [exact H3 |]]].
  exact (lut_is_defined_at_needs_row 1 3 _ H1 H2 H3).
Defined.

(** ** The scan and the table of [convert_combination] *)

Lemma find_seq_first (f : nat -> bool) (a n i : nat) :
  find f (seq a n) = Some i -> forall k, a <= k < i -> f k = false.
Proof.
  revert a. induction n as [| n IH]; intros a; cbn [seq find]; [discriminate |].
  destruct (f a) eqn:Hfa.
  - intros [= <-] k Hk. lia.
  - intros H k Hk. destruct (Nat.eq_dec k a) as [-> | Hne]; [exact Hfa |].
    apply (IH (S a) H). lia.
Qed.

(** X4: under its precondition [lut_is_defined(vars.size())] the scan of
    [convert_combination] stops inside [vars] (its assertion
    [i < vars.size()] holds) at the first eliminable position, and the call
    returns the variable at that position together with [vars] without it. *)
Theorem convert_combination_first (vars : list bool_var) (st : lut_finder) :
  lut_is_defined (length vars) st = true ->
  exists i v lut,
    nth_error vars i = Some v /\
    convert_combination vars st = Some (lut, erase v vars, v) /\
    lut_is_defined_at i (length vars) st = true /\
    forall k, k < i -> lut_is_defined_at k (length vars) st = false.
Proof.
  unfold lut_is_defined. destruct (Z.ltb _ _); [discriminate |].
  intros (j & Hj & Hdef)%existsb_exists.
  destruct (first_defined (length vars) st) as [i |] eqn:Hi.
  - destruct (first_defined_Some _ _ _ Hi) as [Hlt Hdi].
    destruct (nth_error vars i) as [v |] eqn:Hv;
      [| apply nth_error_None in Hv; lia].
    exists i, v. unfold convert_combination. rewrite Hi.
    cbv beta iota delta [from_option id]. rewrite Hv.
    eexists. split; [reflexivity |]. split; [reflexivity |].
    split; [exact Hdi |].
    intros k Hk. unfold first_defined in Hi.
    apply (find_seq_first _ _ _ _ Hi). lia.
  - unfold first_defined in Hi.
    pose proof (find_none _ _ Hi j Hj) as Hno. cbv beta in Hno. congruence.
Qed.

Lemma convert_combination_first_witness :
  lut_is_defined (length [0; 1; 2]) 
    (set_m_num_combinations 3%Z (set_m_combination 35%Z empty_finder)) = true /\
  exists i v lut,
    nth_error [0; 1; 2] i = Some v /\
    convert_combination [0; 1; 2]
      (set_m_num_combinations 3%Z (set_m_combination 35%Z empty_finder))
    = Some (lut, erase v [0; 1; 2], v) /\
    lut_is_defined_at i (length [0; 1; 2])
      (set_m_num_combinations 3%Z (set_m_combination 35%Z empty_finder)) = true /\
    forall k, k < i ->
      lut_is_defined_at k (length [0; 1; 2])
        (set_m_num_combinations 3%Z (set_m_combination 35%Z empty_finder)) = false.
Proof.
  assert (H : lut_is_defined (length [0; 1; 2])
                (set_m_num_combinations 3%Z (set_m_combination 35%Z empty_finder))
              = true) by (vm_compute; reflexivity).
  split; [exact H | exact (convert_combination_first [0; 1; 2] _ H)].
Defined.

Lemma fold_position0_nonneg (comb : Z) (l : list nat) (r0 : Z) :
  (0 <= r0)%Z ->
  (0 <= fold_left
          (fun r j =>
             if (Z.land comb (shl64 1 (2 * j)) =? 0)%Z
             then Z.lor r (shl64 1 j) else r) l r0)%Z.
Proof.
  revert r0. induction l as [| j l IH]; intros r0 Hr0; [exact Hr0 |].
  cbn [fold_left]. apply IH. destruct (Z.eqb _ _); [| exact Hr0].
  apply Z.lor_nonneg. split; [exact Hr0 |].
  unfold shl64, wrap64. apply Z.mod_pos_bound. reflexivity.
Qed.

(** X5: when position 0 is eliminated, the returned table only has bits
    below 2^(number of remaining variables): it is a truth table over the
    remaining variables and nothing else. *)
Theorem convert_combination_position0_range
    (vars : list bool_var) (st : lut_finder) :
  length vars <= 6 ->
  first_defined (length vars) st = Some 0 ->
  exists r vars' v,
    convert_combination vars st = Some (r, vars', v) /\
    vars = v :: vars' /\
    (0 <= r < 2 ^ (2 ^ Z.of_nat (length vars')))%Z.
Proof.
  intros Hlen Hfd. unfold convert_combination. rewrite Hfd.
  cbv beta iota delta [from_option id].
  destruct (first_defined_Some _ _ _ Hfd) as [Hlt _].
  destruct vars as [| v vars]; [cbn in Hlt; lia |].
  cbn [nth_error]. rewrite erase_head. cbn [length] in Hlen.
  exists (fold_position0 (m_combination st) (length vars)), vars, v.
  split; [reflexivity | split; [reflexivity |]].
  assert (H0 : (0 <= fold_position0 (m_combination st) (length vars))%Z)
    by (apply fold_position0_nonneg; lia).
  split; [exact H0 |].
  apply small_of_bits; [apply Z.pow_nonneg; lia | exact H0 |].
  intros p Hp.
  assert (Hp0 : (0 <= p)%Z).
  { assert (0 <= 2 ^ Z.of_nat (length vars))%Z by (apply Z.pow_nonneg; lia). lia. }
  rewrite <- (Z2Nat.id p) by exact Hp0.
  rewrite fold_position0_bits by lia.
  destruct (Nat.ltb_spec (Z.to_nat p) (2 ^ length vars)) as [Hlt' | _];
    [| reflexivity].
  exfalso. apply Nat2Z.inj_lt in Hlt'.
  rewrite Z2Nat.id, Nat2Z.inj_pow in Hlt' by exact Hp0. cbn in Hlt'. lia.
Qed.

Lemma convert_combination_position0_range_witness :
  length [0; 1; 2] <= 6 /\
  first_defined (length [0; 1; 2]) (set_m_combination 137%Z empty_finder) = Some 0 /\
  exists r vars' v,
    convert_combination [0; 1; 2] (set_m_combination 137%Z empty_finder)
    = Some (r, vars', v) /\
    [0; 1; 2] = v :: vars' /\
    (0 <= r < 2 ^ (2 ^ Z.of_nat (length vars')))%Z.
Proof.
  assert (H1 : length [0; 1; 2] <= 6) by (cbn; lia).
  assert (H2 : first_defined (length [0; 1; 2])
                 (set_m_combination 137%Z empty_finder) = Some 0)
    by (vm_compute; reflexivity).
  split; [exact H1 | split; [exact H2 |]].
  exact (convert_combination_position0_range [0; 1; 2] _ H1 H2).
Defined.

(** ** The bits of a clause filter *)

Lemma clause_filter_nonneg (ls : list literal) (acc : Z) :
  (0 <= acc)%Z ->
  (0 <= fold_left (fun filter l => Z.lor filter (shl32 1 (var l mod 32))) ls acc)%Z.
Proof.
  revert acc. induction ls as [| l ls IH]; intros acc Hacc; [exact Hacc |].
  cbn [fold_left]. apply IH, Z.lor_nonneg. split; [exact Hacc |].
  unfold shl32, wrap32. apply Z.mod_pos_bound. reflexivity.
Qed.

(** X6: bit p of a clause filter is set exactly when some variable of the
    clause is congruent to p modulo 32, and the filter fits in 32 bits: it
    is empty for the empty clause and wrong only by such collisions. *)
Theorem get_clause_filter_bits (c : clause) :
  (0 <= get_clause_filter c < 2 ^ 32)%Z /\
  forall p : nat,
    Z.testbit (get_clause_filter c) (Z.of_nat p) = true <->
    exists l, l ∈ lits c /\ var l mod 32 = p.
Proof.
  assert (Hbits : forall p : nat,
            Z.testbit (get_clause_filter c) (Z.of_nat p) = true <->
            exists l, l ∈ lits c /\ var l mod 32 = p).
  { intros p. unfold get_clause_filter.
    rewrite clause_filter_bits, Z.bits_0 by lia. cbn [orb].
    rewrite existsb_exists. split.
    - intros (l & Hl & Heq). exists l. split; [apply list_elem_of_In, Hl |].
      apply Z.eqb_eq in Heq. lia.
    - intros (l & Hl & Heq). exists l. split; [apply list_elem_of_In, Hl |].
      apply Z.eqb_eq. lia. }
  split; [| exact Hbits].
  assert (H0 : (0 <= get_clause_filter c)%Z)
    by (apply clause_filter_nonneg; lia).
  split; [exact H0 |].
  apply small_of_bits; [lia | exact H0 |].
  intros p Hp. destruct (Z.testbit (get_clause_filter c) p) eqn:Hb; [| reflexivity].
  exfalso. rewrite <- (Z2Nat.id p) in Hb by lia.
  apply Hbits in Hb as (l & _ & Heq).
  assert (var l mod 32 < 32) by (apply Nat.mod_upper_bound; lia). lia.
Qed.

(** ** What the index holds ([init_clause_filter]) *)

Lemma push_filter_elem (fs : list (list clause_filter)) (u v : nat)
    (x cf : clause_filter) :
  cf ∈ nth v (alter (fun l => l ++ [x]) u fs) [] <->
  cf ∈ nth v fs [] \/ (v = u /\ u < length fs /\ cf = x).
Proof.
  rewrite !nth_lookup, list_lookup_alter.
  destruct (decide (u = v)) as [-> | Hne].
  - destruct (fs !! v) as [l |] eqn:Hl; cbn.
    + apply lookup_lt_Some in Hl. rewrite elem_of_app, list_elem_of_singleton.
      intuition.
    + apply lookup_ge_None in Hl. rewrite elem_of_nil. intuition lia.
  - intuition congruence.
Qed.

Lemma push_clause_filter_spec (x : clause_filter) (ls : list literal)
    (st : lut_finder) :
  let st' :=
    fold_left
      (fun st l =>
         set_m_clause_filters
           (alter (fun fs => fs ++ [x]) (var l) (m_clause_filters st)) st)
      ls st in
  length (m_clause_filters st') = length (m_clause_filters st) /\
  forall v cf,
    cf ∈ nth v (m_clause_filters st') [] <->
    cf ∈ nth v (m_clause_filters st) [] \/
    (cf = x /\ v < length (m_clause_filters st) /\ v ∈ map var ls).
Proof.
  revert st. induction ls as [| l ls IH]; intros st; cbv zeta.
  - cbn. split; [reflexivity |]. intros v cf. rewrite elem_of_nil. tauto.
  - cbn [fold_left map].
    destruct (IH (set_m_clause_filters
                    (alter (fun fs => fs ++ [x]) (var l) (m_clause_filters st)) st))
      as [Hlen Hin].
    cbv zeta in Hlen, Hin. proj_simpl_in Hlen. rewrite length_alter in Hlen.
    split; [exact Hlen |].
    intros v cf. rewrite Hin. proj_simpl.
    rewrite push_filter_elem, length_alter, elem_of_cons.
    intuition (subst; auto).
Qed.

Lemma init_clause_filter_vec_index (s : solver) (m_max_lut_size : nat)
    (cls : list clause_id) (st : lut_finder) :
  let st' := init_clause_filter_vec s m_max_lut_size cls st in
  length (m_clause_filters st') = length (m_clause_filters st) /\
  forall v cf,
    cf ∈ nth v (m_clause_filters st') [] <->
    cf ∈ nth v (m_clause_filters st) [] \/
    (v < length (m_clause_filters st) /\
     m_clause_of cf ∈ cls /\
     size (heap s (m_clause_of cf)) <= m_max_lut_size /\
     all_distinct (heap s (m_clause_of cf)) = true /\
     m_filter cf = get_clause_filter (heap s (m_clause_of cf)) /\
     v ∈ map var (lits (heap s (m_clause_of cf)))).
Proof.
  revert st. induction cls as [| cp cls IH]; intros st; cbv zeta.
  - cbn. split; [reflexivity |]. intros v cf. rewrite elem_of_nil. tauto.
  - change (init_clause_filter_vec s m_max_lut_size (cp :: cls) st)
      with (init_clause_filter_vec s m_max_lut_size cls
              (if (size (heap s cp) <=? m_max_lut_size) && all_distinct (heap s cp)
               then
                 fold_left
                   (fun st l =>
                      set_m_clause_filters
                        (alter
                           (fun fs =>
                              fs ++ [mk_clause_filter
                                       (get_clause_filter (heap s cp)) cp])
                           (var l) (m_clause_filters st)) st)
                   (lits (heap s cp)) st
               else st)).
    destruct (Nat.leb_spec (size (heap s cp)) m_max_lut_size) as [Hsz | Hsz];
      cbn [andb].
    + destruct (all_distinct (heap s cp)) eqn:Hd.
      * pose proof (push_clause_filter_spec
                      (mk_clause_filter (get_clause_filter (heap s cp)) cp)
                      (lits (heap s cp)) st) as Hpush.
        cbv zeta in Hpush. destruct Hpush as [Hlen1 Hin1].
        set (st1 := fold_left _ (lits (heap s cp)) st) in *.
        destruct (IH st1) as [Hlen2 Hin2]. cbv zeta in Hlen2, Hin2.
        split; [congruence |].
        intros v cf. rewrite Hin2, Hin1, Hlen1, elem_of_cons.
        split.
        -- intros [[H | (-> & Hv & Hvars)] | (Hv & Hc & H)];
             [left; exact H | right | right; intuition].
           cbn [m_clause_of m_filter]. intuition.
        -- intros [H | (Hv & [Hc | Hc] & Hs & Hdd & Hf & Hvars)];
             [left; left; exact H | left; right | right; intuition].
           destruct cf as [f c0]. cbn [m_clause_of m_filter] in *. subst.
           intuition.
      * destruct (IH st) as [Hlen2 Hin2]. cbv zeta in Hlen2, Hin2.
        split; [exact Hlen2 |].
        intros v cf. rewrite Hin2, elem_of_cons.
        split; [intuition |].
        intros [H | (Hv & [Hc | Hc] & Hs & Hdd & Hf & Hvars)];
          [left; exact H | | right; intuition].
        rewrite Hc in Hdd. congruence.
    + destruct (IH st) as [Hlen2 Hin2]. cbv zeta in Hlen2, Hin2.
      split; [exact Hlen2 |].
      intros v cf. rewrite Hin2, elem_of_cons.
      split; [intuition |].
      intros [H | (Hv & [Hc | Hc] & Hs & Hdd & Hf & Hvars)];
        [left; exact H | | right; intuition].
      rewrite Hc in Hs. lia.
Qed.

Lemma init_clause_filter_elem (s : solver) (m_max_lut_size : nat)
    (st : lut_finder) (v : nat) (cf : clause_filter) :
  cf ∈ nth v (m_clause_filters (init_clause_filter s m_max_lut_size st)) [] <->
  v < num_vars s /\
  indexable s m_max_lut_size (m_clause_of cf) /\
  m_filter cf = get_clause_filter (heap s (m_clause_of cf)) /\
  v ∈ map var (lits (heap s (m_clause_of cf))).
Proof.
  unfold init_clause_filter. cbv zeta.
  set (st0 := set_m_clause_filters (replicate (num_vars s) []) st).
  destruct (init_clause_filter_vec_index s m_max_lut_size (m_clauses s) st0)
    as [Hlen1 Hin1]. cbv zeta in Hlen1, Hin1.
  destruct (init_clause_filter_vec_index s m_max_lut_size (m_learned s)
              (init_clause_filter_vec s m_max_lut_size (m_clauses s) st0))
    as [Hlen2 Hin2]. cbv zeta in Hlen2, Hin2.
  assert (Hlen0 : length (m_clause_filters st0) = num_vars s)
    by (subst st0; proj_simpl; apply length_replicate).
  assert (Hempty : ~ cf ∈ nth v (m_clause_filters st0) []).
  { subst st0. proj_simpl. rewrite nth_lookup.
    destruct (replicate (num_vars s) [] !! v) as [l |] eqn:Hl; cbn.
    - apply lookup_replicate in Hl as [-> _]. apply not_elem_of_nil.
    - apply not_elem_of_nil. }
  rewrite Hin2, Hin1, Hlen1, Hlen0. unfold indexable. intuition.
Qed.

(** X7: after [init_clause_filter] a record lies in the list of variable v
    exactly when v is below the variable count and the record pairs a clause
    of [m_clauses] or [m_learned] that has at most [m_max_lut_size] literals,
    pairwise distinct variables and v among them, with that clause's filter;
    the index has one list per variable. *)
Theorem init_clause_filter_index (s : solver) (m_max_lut_size : nat)
    (st : lut_finder) :
  length (m_clause_filters (init_clause_filter s m_max_lut_size st)) = num_vars s /\
  forall v cf,
    cf ∈ nth v (m_clause_filters (init_clause_filter s m_max_lut_size st)) [] <->
    v < num_vars s /\
    indexable s m_max_lut_size (m_clause_of cf) /\
    m_filter cf = get_clause_filter (heap s (m_clause_of cf)) /\
    v ∈ map var (lits (heap s (m_clause_of cf))).
Proof.
  split; [| intros v cf; apply init_clause_filter_elem].
  unfold init_clause_filter. cbv zeta.
  set (st0 := set_m_clause_filters (replicate (num_vars s) []) st).
  destruct (init_clause_filter_vec_index s m_max_lut_size (m_clauses s) st0)
    as [Hlen1 _]. cbv zeta in Hlen1.
  destruct (init_clause_filter_vec_index s m_max_lut_size (m_learned s)
              (init_clause_filter_vec s m_max_lut_size (m_clauses s) st0))
    as [Hlen2 _]. cbv zeta in Hlen2.
  rewrite Hlen2, Hlen1. subst st0. proj_simpl. apply length_replicate.
Qed.

Lemma clause_filter_absorb (A B : clause) :
  (forall v, v ∈ map var (lits B) -> v ∈ map var (lits A)) ->
  (get_clause_filter A =? Z.lor (get_clause_filter A) (get_clause_filter B))%Z
  = true.
Proof.
  intros Hsub. apply Z.eqb_eq. apply Z.bits_inj'. intros p Hp.
  unfold get_clause_filter.
  rewrite Z.lor_spec, !clause_filter_bits, Z.bits_0 by exact Hp. cbn [orb].
  destruct (existsb _ (lits B)) eqn:HB; [| rewrite orb_false_r; reflexivity].
  apply existsb_exists in HB as (l & Hl & Hpos). rewrite orb_true_r.
  assert (Hv : var l ∈ map var (lits A)).
  { apply Hsub, list_elem_of_In, in_map, Hl. }
  apply list_elem_of_In, in_map_iff in Hv as (l' & Heq & Hl').
  apply existsb_exists. exists l'. split; [exact Hl' |]. rewrite Heq. exact Hpos.
Qed.

(** X8: the pruning test of [check_lut], [filter == (filter | cf.m_filter)],
    accepts every record of the index whose clause mentions only variables
    of the seed clause: it never loses a candidate. *)
Theorem index_filter_accepts (s : solver) (m_max_lut_size : nat)
    (st : lut_finder) (c : clause_id) (v : nat) (cf : clause_filter) :
  cf ∈ nth v (m_clause_filters (init_clause_filter s m_max_lut_size st)) [] ->
  (forall u, u ∈ map var (lits (heap s (m_clause_of cf))) ->
             u ∈ map var (lits (heap s c))) ->
  (get_clause_filter (heap s c)
   =? Z.lor (get_clause_filter (heap s c)) (m_filter cf))%Z = true.
Proof.
  intros (_ & _ & -> & _)%init_clause_filter_elem Hsub.
  apply clause_filter_absorb, Hsub.
Qed.

Lemma index_filter_accepts_witness :
  mk_clause_filter 3%Z 1
  ∈ nth 0 (m_clause_filters (init_clause_filter example_solver 6 empty_finder)) [] /\
  (get_clause_filter (heap example_solver 0%nat)
   =? Z.lor (get_clause_filter (heap example_solver 0%nat))
        (m_filter (mk_clause_filter 3%Z 1%nat)))%Z = true.
Proof.
  assert (H1 : mk_clause_filter 3%Z 1
               ∈ nth 0 (m_clause_filters
                          (init_clause_filter example_solver 6 empty_finder)) []).
  { replace (nth 0 (m_clause_filters
                      (init_clause_filter example_solver 6 empty_finder)) [])
      with [mk_clause_filter 7%Z 0; mk_clause_filter 3%Z 1]
      by (vm_compute; reflexivity).
    apply elem_of_cons. right. apply list_elem_of_singleton. reflexivity. }
  assert (H2 : forall u,
            u ∈ map var (lits (heap example_solver
                                 (m_clause_of (mk_clause_filter 3%Z 1)))) ->
            u ∈ map var (lits (heap example_solver 0))).
  { cbn. intros u Hu. apply elem_of_cons in Hu as [-> | Hu].
    - apply elem_of_cons. left. reflexivity.
    - apply list_elem_of_singleton in Hu. subst u.
      apply elem_of_cons. right. apply elem_of_cons. left. reflexivity. }
  split; [exact H1 |].
  exact (index_filter_accepts example_solver 6 empty_finder 0 0 _ H1 H2).
Defined.

(** ** What an attempt touches *)

(** X9: [extract_lut(c2)] returns false and changes nothing when some
    variable of c2 is not visited; otherwise the only flag it may set is
    that of c2, which it sets and schedules exactly when c2 has as many
    literals as [m_vars]; it never touches [m_removed_clauses], the index or
    the callback. *)
Theorem extract_lut_flags (s : solver) (c2 : clause_id) (st : lut_finder) :
  let visited_all :=
    forallb (fun l => is_visited (var l) st) (lits (heap s c2)) in
  let full := Nat.eqb (size (heap s c2)) (length (m_vars st)) in
  let st' := fst (extract_lut s c2 st) in
  (visited_all = false -> extract_lut s c2 st = (st, false)) /\
  used st' = (if visited_all && full then {[c2]} ∪ used st else used st) /\
  m_clauses_to_remove st'
  = m_clauses_to_remove st ++ (if visited_all && full then [c2] else []) /\
  m_removed_clauses st' = m_removed_clauses st /\
  m_clause_filters st' = m_clause_filters st /\
  on_lut_calls st' = on_lut_calls st /\
  m_vars st' = m_vars st /\
  visited st' = visited st.
Proof.
  cbv zeta. destruct (extract_lut s c2 st) as [st' b] eqn:Hex. cbn [fst].
  apply extract_lut_books in Hex as [(Hv & -> & ->) | (Hv & Hb)]; rewrite Hv.
  - cbn [andb]. rewrite app_nil_r. repeat split; reflexivity.
  - cbn [andb]. unfold extract_lut_effect, schedule_if_full in Hb. cbv zeta in Hb.
    destruct (Nat.eqb _ _); books_of Hb.
    + repeat split; (discriminate || assumption).
    + rewrite app_nil_r. repeat split; (discriminate || assumption).
Qed.

(** X10: an attempt never unmarks a clause, never changes the index and
    only appends to [m_removed_clauses] and to the callbacks; it marks its
    seed and every clause it scheduled as used, and when it ends exhausted
    it appends nothing, although the clauses it scheduled stay marked. *)
Theorem check_lut_keeps (s : solver) (c : clause_id) (st : lut_finder) :
  let st' := fst (check_lut s c st) in
  let found := snd (check_lut s c st) in
  m_clause_filters st' = m_clause_filters st /\
  used st ⊆ used st' /\
  c ∈ used st' /\
  (forall x, x ∈ m_clauses_to_remove st' -> x ∈ used st') /\
  m_removed_clauses st'
  = m_removed_clauses st ++ (if found then m_clauses_to_remove st' else []) /\
  (exists calls, on_lut_calls st' = on_lut_calls st ++ calls /\
                 length calls = if found then 1 else 0) /\
  g_attempts st' = g_attempts st ++ [(c, found)].
Proof.
  cbv zeta. destruct (check_lut s c st) as [st' found] eqn:Hcl. cbn [fst snd].
  apply check_lut_attempt in Hcl as (st1 & Hat & ->). proj_simpl.
  destruct Hat as [Hf Ha Hum Hus Htr Htru Hss Has Hrm Hcalls Hm].
  split; [exact Hf |]. split; [exact Hum |]. split; [exact Hus |].
  split; [intros x Hx; apply (Htru x Hx) |].
  split; [exact Hrm |].
  split; [| rewrite Ha; reflexivity].
  destruct found.
  - destruct Hcalls as (call & Hc & _). exists [call]. split; [exact Hc | reflexivity].
  - exists []. rewrite app_nil_r. split; [exact Hcalls | reflexivity].
Qed.

(** ** Positions of the seed's variables *)

Lemma seed_vars_positions (ls : list literal) (st : lut_finder) (mask : Z)
    (i0 : nat) :
  NoDup (map var ls) ->
  (forall l, l ∈ ls -> var l < length (m_var_position st)) ->
  let '(st', _, _) :=
    fold_left
      (fun '(st, mask, i) l =>
         let st := set_m_vars (m_vars st ++ [var l]) st in
         let st := set_m_var_position (<[var l := i]> (m_var_position st)) st in
         let st := mark_visited (var l) st in
         (st, wrap32 (Z.lor mask (shl32 (Z.b2z (sign l)) i)), S i))
      ls (st, mask, i0) in
  length (m_var_position st') = length (m_var_position st) /\
  (forall k l, ls !! k = Some l -> m_var_position st' !! var l = Some (i0 + k)) /\
  (forall v, v ∉ map var ls -> m_var_position st' !! v = m_var_position st !! v).
Proof.
  revert st mask i0. induction ls as [| l ls IH]; intros st mask i0 Hnd Hb.
  - cbn. split; [reflexivity |]. split; [| reflexivity]. intros k l. discriminate.
  - cbn [fold_left map] in *. cbv zeta.
    apply NoDup_cons in Hnd as [Hnotin Hnd].
    set (st1 := mark_visited (var l) _).
    assert (Hp1 : m_var_position st1 = <[var l := i0]> (m_var_position st))
      by reflexivity.
    specialize (IH st1 (wrap32 (Z.lor mask (shl32 (Z.b2z (sign l)) i0))) (S i0) Hnd).
    destruct (fold_left _ ls _) as [[st' mask'] i'].
    destruct IH as (Hlen & Hpos & Hother).
    { intros l' Hl'. rewrite Hp1, length_insert. apply Hb. right. exact Hl'. }
    rewrite Hp1, length_insert in Hlen.
    split; [exact Hlen |]. split.
    + intros k l' Hk. destruct k as [| k]; cbn in Hk.
      * injection Hk as <-. rewrite Hother by exact Hnotin.
        rewrite Hp1, Nat.add_0_r. apply list_lookup_insert_eq, Hb. left.
      * rewrite (Hpos k l' Hk). f_equal. lia.
    + intros v Hv. apply not_elem_of_cons in Hv as [Hne Hv].
      rewrite (Hother v Hv), Hp1. apply list_lookup_insert_ne. congruence.
Qed.

Lemma seed_tracks (s : solver) (c : clause_id) (st : lut_finder) :
  NoDup (map var (lits (heap s c))) ->
  (forall l, l ∈ lits (heap s c) -> var l < length (m_var_position st)) ->
  m_vars (seed s c st) = map var (lits (heap s c)) /\
  (forall v, v ∈ visited (seed s c st) <-> v ∈ map var (lits (heap s c))) /\
  (forall k l, lits (heap s c) !! k = Some l ->
     nth (var l) (m_var_position (seed s c st)) 0 = k) /\
  (forall v, v ∉ map var (lits (heap s c)) ->
     nth v (m_var_position (seed s c st)) 0 = nth v (m_var_position st) 0).
Proof.
  intros Hnd Hb.
  destruct (at_matching _ _ _ _ _ (seed_attempt s c st) eq_refl) as (Hv & Hvis & _).
  split; [exact Hv |]. split; [intros v; rewrite Hvis, Hv; reflexivity |].
  pose proof (seed_vars_positions (lits (heap s c))
                (set_m_vars [] (init_visited st)) 0%Z 0 Hnd Hb) as Hpos.
  unfold seed, seed_vars. cbv zeta.
  destruct (fold_left _ _ _) as [[st1 mask] i].
  destruct Hpos as (_ & Hpos & Hother).
  match goal with
  | |- context [mark_used c (set_combination mask ?X)] =>
      assert (Hmp : m_var_position (mark_used c (set_combination mask X))
                    = m_var_position st1)
  end.
  { unfold mark_used. proj_simpl.
    pose proof (set_combination_frame mask
      (set_g_sources [SrcSeed c]
         (set_g_seed c
            (set_m_num_combinations 0%Z
               (set_m_combination 0%Z
                  (set_m_clause
                     (resize (size (heap s c)) null_literal
                        (m_clause (set_m_clauses_to_remove [c] st1)))
                     (set_m_clauses_to_remove [c] st1))))))) as Hfr.
    unfold frame in Hfr. proj_simpl_in Hfr. injection Hfr. intros. assumption. }
  rewrite Hmp. split.
  - intros k l Hk. apply nth_lookup_Some. exact (Hpos k l Hk).
  - intros v Hnv. rewrite !nth_lookup. f_equal. exact (Hother v Hnv).
Qed.

(** X11: when the seed clause has pairwise distinct variables, all inside
    [m_var_position], the SEED step of [check_lut] lists them in clause
    order in [m_vars], maps each to the position of its literal, visits
    exactly them, and leaves the positions of all other variables alone. *)
Theorem seed_positions (s : solver) (c : clause_id) (st : lut_finder) :
  NoDup (map var (lits (heap s c))) ->
  (forall l, l ∈ lits (heap s c) -> var l < length (m_var_position st)) ->
  m_vars (seed s c st) = map var (lits (heap s c)) /\
  (forall v, v ∈ visited (seed s c st) <-> v ∈ map var (lits (heap s c))) /\
  (forall k l, lits (heap s c) !! k = Some l ->
     nth (var l) (m_var_position (seed s c st)) 0 = k) /\
  (forall v, v ∉ map var (lits (heap s c)) ->
     nth v (m_var_position (seed s c st)) 0 = nth v (m_var_position st) 0).
Proof. exact (seed_tracks s c st). Qed.

Lemma seed_positions_witness :
  let st := pass_start example_solver 6 [0; 1] empty_finder in
  m_vars (seed example_solver 0 st) = map var (lits (heap example_solver 0)) /\
  forall k l, lits (heap example_solver 0) !! k = Some l ->
    nth (var l) (m_var_position (seed example_solver 0 st)) 0 = k.
Proof.
  intros st.
  assert (H1 : NoDup (map var (lits (heap example_solver 0)))).
  { assert (Hd : all_distinct (heap example_solver 0) = true)
      by (vm_compute; reflexivity).
    unfold all_distinct in Hd. apply bool_decide_eq_true in Hd. exact Hd. }
  assert (H2 : forall l, l ∈ lits (heap example_solver 0) ->
                 var l < length (m_var_position st)).
  { replace (length (m_var_position st)) with 3 by (vm_compute; reflexivity).
    cbn. intros l Hl.
    repeat (apply elem_of_cons in Hl as [-> | Hl]; [cbn; lia |]).
    apply elem_of_nil in Hl. destruct Hl. }
  destruct (seed_positions example_solver 0 st H1 H2) as (Hv & _ & Hp & _).
  split; [exact Hv | exact Hp].
Defined.

(** ** The logs of a pass *)

Section PassLog.

Variable s : solver.
Variable m_max_lut_size : nat.
Variable clauses : list clause_id.
Variable Q : clause_id -> Prop.

Lemma add_lut_sources (st : lut_finder) : g_sources (add_lut st) = g_sources st.
Proof.
  unfold add_lut. cbv zeta.
  destruct (convert_combination _ _) as [[[lut vars] v] |]; reflexivity.
Qed.

Lemma extract_lut_sources_inside (c c2 : clause_id) (st0 st st' : lut_finder)
    (b : bool) :
  attempt s c st0 st false ->
  sources_inside s Q c st ->
  Q c2 ->
  extract_lut s c2 st = (st', b) ->
  sources_inside s Q c st'.
Proof.
  intros Hat Hin HQ [(_ & -> & _) | (Hvis & Hb)]%extract_lut_books; [exact Hin |].
  destruct (at_matching _ _ _ _ _ Hat eq_refl) as (Hmv & Hmvis & _).
  unfold extract_lut_effect, schedule_if_full in Hb. cbv zeta in Hb.
  assert (Hsrc : g_sources st' = g_sources st ++ [SrcClause c2])
    by (destruct (Nat.eqb _ _); books_of Hb; assumption).
  intros x. rewrite Hsrc. intros Hx.
  apply elem_of_app in Hx as [Hx | Hx]; [exact (Hin x Hx) |].
  apply list_elem_of_singleton in Hx. injection Hx as ->.
  split; [exact HQ |].
  intros v Hv. apply list_elem_of_In, in_map_iff in Hv as (l & <- & Hl).
  rewrite forallb_forall in Hvis. specialize (Hvis l Hl).
  apply bool_decide_eq_true in Hvis. rewrite <- Hmv. apply Hmvis, Hvis.
Qed.

Lemma extract_lut_bin_sources_inside (c : clause_id) (l1 l2 : literal)
    (st st' : lut_finder) (b : bool) :
  sources_inside s Q c st ->
  extract_lut_bin l1 l2 st = (st', b) ->
  sources_inside s Q c st'.
Proof.
  intros Hin Hb%extract_lut_bin_books. books_of Hb.
  intros x. rewrite Hsources. intros Hx.
  apply elem_of_app in Hx as [Hx | Hx]; [exact (Hin x Hx) |].
  apply list_elem_of_singleton in Hx. discriminate.
Qed.

Lemma try_watch_list_sources (c : clause_id) (l : literal)
    (st st' : lut_finder) (b : bool) :
  sources_inside s Q c st ->
  try_watch_list s l st = (st', b) ->
  sources_inside s Q c st'.
Proof.
  intros Hin. unfold try_watch_list.
  apply (first_success_ind (fun st _ => sources_inside s Q c st)); [| exact Hin].
  intros w st1 st2 b2 _ H1.
  destruct (_ && _ && _).
  - destruct (extract_lut_bin _ _ _) as [st3 ok] eqn:Hex.
    pose proof (extract_lut_bin_sources_inside _ _ _ _ _ _ H1 Hex) as H3.
    destruct ok; intros [= <- <-]; [| exact H3].
    unfold sources_inside. rewrite add_lut_sources. exact H3.
  - intros [= <- <-]. exact H1.
Qed.

Lemma try_literal_sources (c : clause_id) (filter : Z) (l : literal)
    (st0 st st' : lut_finder) (b : bool) :
  filters_sat Q (m_clause_filters st0) ->
  attempt s c st0 st false /\ sources_inside s Q c st ->
  try_literal s filter l st = (st', b) ->
  attempt s c st0 st' b /\ sources_inside s Q c st'.
Proof.
  intros HF [Hat Hin] Htl.
  split; [exact (try_literal_attempt _ _ _ _ _ _ _ _ Hat Htl) |].
  revert Htl. unfold try_literal.
  destruct (first_success _ _ _) as [st1 done1] eqn:Hloop.
  assert (H1 : (done1 = false -> attempt s c st0 st1 false)
               /\ sources_inside s Q c st1).
  { revert Hloop.
    apply (first_success_ind
             (fun st b => (b = false -> attempt s c st0 st false)
                          /\ sources_inside s Q c st)); [| auto].
    intros cf sa sb bb Hcf [Ha Hs]. specialize (Ha eq_refl).
    destruct (Z.eqb _ _); cbn [andb]; [| intros [= <- <-]; auto].
    destruct (was_used _ _) eqn:Hu; cbn [negb]; [intros [= <- <-]; auto |].
    destruct (extract_lut _ _ _) as [sc ok] eqn:Hex.
    assert (HQ : Q (m_clause_of cf)).
    { apply (HF (var l)). rewrite <- (at_filters _ _ _ _ _ Hat). exact Hcf. }
    pose proof (extract_lut_sources_inside _ _ _ _ _ _ Ha Hs HQ Hex) as H3.
    assert (H4 : attempt s c st0 sc false).
    { apply (extract_lut_attempt _ _ _ _ _ _ _ Ha) in Hex; [exact Hex | |].
      - unfold was_used in Hu. apply bool_decide_eq_false in Hu. exact Hu.
      - intros Hd.
        apply (nth_filters_distinct s (m_clause_filters st) (var l)); [| exact Hcf].
        rewrite (at_filters _ _ _ _ _ Hat). exact Hd. }
    destruct ok; intros [= <- <-].
    - split; [discriminate |]. unfold sources_inside.
      rewrite add_lut_sources. exact H3.
    - auto. }
  destruct H1 as [H1a H1s].
  destruct done1; [intros [= <- <-]; exact H1s |].
  destruct (try_watch_list s l st1) as [st2 done2] eqn:Hw.
  pose proof (try_watch_list_sources _ _ _ _ _ H1s Hw) as H2.
  destruct done2; [intros [= <- <-]; exact H2 |].
  apply try_watch_list_sources. exact H2.
Qed.

Lemma check_lut_sources (c : clause_id) (st0 st' : lut_finder) (found : bool) :
  filters_sat Q (m_clause_filters st0) ->
  check_lut s c st0 = (st', found) ->
  exists st,
    attempt s c st0 st found /\ sources_inside s Q c st /\
    st' = set_g_attempts (g_attempts st ++ [(c, found)]) st.
Proof.
  intros HF. unfold check_lut. cbv zeta.
  destruct (first_success _ _ _) as [st found'] eqn:Hloop.
  intros [= <- <-]. exists st.
  assert (H : attempt s c st0 st found' /\ sources_inside s Q c st).
  { revert Hloop.
    apply (first_success_ind
             (fun st b => attempt s c st0 st b /\ sources_inside s Q c st)).
    - intros l sa sb bb _ Ha. apply try_literal_sources; assumption.
    - split; [apply seed_attempt |].
      pose proof (at_to_remove _ _ _ _ _ (seed_attempt s c st0)) as Htr.
      intros x Hx. exfalso.
      assert (Hs : g_sources (seed s c st0) = [SrcSeed c]).
      { unfold seed. cbv zeta. destruct (seed_vars _ _) as [[st1 mask] i].
        unfold mark_used. proj_simpl.
        match goal with
        | |- g_sources (set_combination mask ?X) = _ =>
            pose proof (set_combination_frame mask X) as Hfr
        end.
        unfold frame in Hfr. proj_simpl_in Hfr. injection Hfr. intros. assumption. }
      rewrite Hs in Hx. apply list_elem_of_singleton in Hx. discriminate. }
  destruct H as [Ha Hs]. split; [exact Ha |]. split; [exact Hs | reflexivity].
Qed.

Lemma filter_snd_app (l : list (clause_id * bool)) (c : clause_id) (b : bool) :
  map fst (List.filter snd (l ++ [(c, b)]))
  = map fst (List.filter snd l) ++ (if b then [c] else []).
Proof.
  rewrite List.filter_app, map_app. cbn. destruct b; reflexivity.
Qed.

Lemma check_lut_pass_log (cp : clause_id) (st : lut_finder) :
  pass_log s m_max_lut_size clauses Q st ->
  cp ∈ clauses -> cp ∉ used st -> eligible s m_max_lut_size cp ->
  pass_log s m_max_lut_size clauses Q (fst (check_lut s cp st)).
Proof.
  intros [HF Hseeds Honce Hcalls Hsucc Hrem] Hcp Hfresh Hel.
  destruct (check_lut s cp st) as [st' found] eqn:Hcl. cbn [fst].
  apply (check_lut_sources _ _ _ _ HF) in Hcl as (st1 & Hat & Hsrc & ->).
  destruct Hat as [Af Aa Aum Aus Atr Atru Ass Aas Arm Acalls Am].
  constructor; proj_simpl.
  - rewrite Af. exact HF.
  - intros c b. rewrite Aa. intros Hc.
    apply elem_of_app in Hc as [Hc | Hc].
    + destruct (Hseeds c b Hc) as (H1 & H2 & H3). auto.
    + apply list_elem_of_singleton in Hc. injection Hc as -> ->. auto.
  - rewrite Aa, map_app. cbn [map fst]. apply NoDup_app.
    split; [exact Honce |]. split; [| apply NoDup_singleton].
    intros x Hx Hx'. apply list_elem_of_singleton in Hx'. subst x.
    apply list_elem_of_In, in_map_iff in Hx as ([c b] & Heq & Hin).
    cbn in Heq. subst c.
    destruct (Hseeds cp b (proj2 (list_elem_of_In _ _) Hin)) as (_ & H2 & _).
    exact (Hfresh H2).
  - rewrite Aa, filter_snd_app. destruct found.
    + destruct Acalls as (call & -> & Hseed).
      rewrite map_app, Hcalls. cbn. rewrite Hseed. reflexivity.
    + rewrite Acalls, app_nil_r. exact Hcalls.
  - intros c. rewrite Aa, Arm. intros Hc.
    apply elem_of_app in Hc as [Hc | Hc].
    + apply elem_of_app. left. exact (Hsucc c Hc).
    + apply list_elem_of_singleton in Hc. injection Hc as -> <-.
      apply elem_of_app. right. rewrite Atr. apply elem_of_cons. left. reflexivity.
  - intros x. rewrite Arm, Aa. intros Hx.
    apply elem_of_app in Hx as [Hx | Hx].
    + destruct (Hrem x Hx) as (c & Hc & Hxc).
      exists c. split; [apply elem_of_app; left; exact Hc | exact Hxc].
    + destruct found; [| apply elem_of_nil in Hx; destruct Hx].
      exists cp. split; [apply elem_of_app; right; apply list_elem_of_singleton;
                         reflexivity |].
      rewrite Atr in Hx. apply elem_of_cons in Hx as [-> | Hx]; [left; reflexivity |].
      right. unfold scheduled in Hx.
      apply list_elem_of_omap in Hx as (src & Hsin & Hf).
      destruct src as [y | y | l1 l2]; try discriminate.
      destruct (Nat.eqb_spec (size (heap s y)) (size (heap s cp))) as [Hsz |];
        [| discriminate].
      injection Hf as ->. destruct (Hsrc x Hsin) as [HQ Hvars]. auto.
Qed.

Lemma check_size_pass_log (max_size : nat) (st : lut_finder) :
  3 <= max_size <= m_max_lut_size ->
  pass_log s m_max_lut_size clauses Q st ->
  pass_log s m_max_lut_size clauses Q (check_size s max_size clauses st).
Proof.
  intros Hms Hinv. unfold check_size.
  apply (fold_left_inv (pass_log s m_max_lut_size clauses Q)); [exact Hinv |].
  intros a cp Hcp Ha.
  destruct (_ && negb (was_used cp a)) eqn:Hguard; [| exact Ha].
  apply andb_prop in Hguard as [Hg Hu].
  apply andb_prop in Hg as [Hg Hl]. apply andb_prop in Hg as [Hsz Hr].
  apply negb_true_iff in Hu, Hl, Hr. apply Nat.eqb_eq in Hsz.
  apply check_lut_pass_log; [exact Ha | exact Hcp | |].
  - unfold was_used in Hu. apply bool_decide_eq_false in Hu. exact Hu.
  - unfold eligible. rewrite Hsz. auto.
Qed.

Lemma sizes_range (max_size : nat) :
  max_size ∈ sizes m_max_lut_size -> 3 <= max_size <= m_max_lut_size.
Proof.
  unfold sizes. intros H%list_elem_of_In%in_rev%in_seq. lia.
Qed.

Lemma pass_search_pass_log (st : lut_finder) :
  pass_log s m_max_lut_size clauses Q st ->
  pass_log s m_max_lut_size clauses Q
    (pass_search s m_max_lut_size clauses st).
Proof.
  intros Hinv. unfold pass_search.
  apply (fold_left_inv (pass_log s m_max_lut_size clauses Q)); [exact Hinv |].
  intros a max_size Hm Ha. apply check_size_pass_log; [apply sizes_range, Hm | exact Ha].
Qed.

End PassLog.

Lemma pass_start_pass_log (s : solver) (m_max_lut_size : nat)
    (clauses : list clause_id) (st : lut_finder) :
  pass_log s m_max_lut_size clauses (indexable s m_max_lut_size)
    (pass_start s m_max_lut_size clauses st).
Proof.
  unfold pass_start. cbv zeta.
  set (st1 := set_g_assert_ok true _).
  destruct (init_clause_filter_spec s m_max_lut_size st1) as (_ & Hfr & _).
  set (st2 := set_m_var_position _ _).
  destruct (unmark_all_spec clauses st2) as (_ & Hfr3 & Hf3). cbv zeta in Hfr3, Hf3.
  unfold pass_frame in Hfr, Hfr3. subst st2 st1. proj_simpl_in Hfr.
  proj_simpl_in Hfr3. proj_simpl_in Hf3.
  injection Hfr as Hr1 Hc1 Ha1 Ho1. injection Hfr3 as Hr3 Hc3 Ha3 Ho3.
  constructor; rewrite ?Hf3, ?Hr3, ?Hc3, ?Ha3, ?Hr1, ?Hc1, ?Ha1.
  - intros v cf Hcf. apply init_clause_filter_elem in Hcf. tauto.
  - intros c b Hc. apply elem_of_nil in Hc. destruct Hc.
  - apply NoDup_nil. exact I.
  - reflexivity.
  - intros c Hc. apply elem_of_nil in Hc. destruct Hc.
  - intros x Hx. apply elem_of_nil in Hx. destruct Hx.
Qed.

Lemma run_log (s : solver) (m_max_lut_size : nat) (clauses : list clause_id)
    (st0 : lut_finder) :
  exists st,
    pass_log s m_max_lut_size clauses (indexable s m_max_lut_size) st /\
    run s m_max_lut_size clauses st0 = pass_finish clauses st.
Proof.
  exists (pass_search s m_max_lut_size clauses
            (pass_start s m_max_lut_size clauses st0)).
  split; [| reflexivity].
  apply pass_search_pass_log, pass_start_pass_log.
Qed.

Lemma pass_finish_logs (clauses : list clause_id) (st : lut_finder) :
  let st' := fst (pass_finish clauses st) in
  m_removed_clauses st' = m_removed_clauses st /\
  on_lut_calls st' = on_lut_calls st /\
  g_attempts st' = g_attempts st /\
  (forall cp, cp ∈ clauses -> cp ∈ used st' <-> cp ∈ m_removed_clauses st) /\
  snd (pass_finish clauses st)
  = List.filter (fun cp => negb (was_used cp st')) clauses.
Proof.
  destruct (pass_finish_spec clauses st) as (Hused & Hfr & Hout).
  cbv zeta in *. set (st' := fst (pass_finish clauses st)) in *.
  unfold pass_frame in Hfr. injection Hfr as Hr Hc Ha _.
  split; [exact Hr |]. split; [exact Hc |]. split; [exact Ha |].
  split; [| exact Hout].
  intros cp Hcp. rewrite Hused. tauto.
Qed.

(** ** What a pass removes and reports *)

(** X12: the clauses a pass returns are the given clauses, in their order,
    without those queued in [m_removed_clauses]; when the pass ends a given
    clause is marked used exactly when it is queued there. *)
Theorem run_removes_exactly (s : solver) (m_max_lut_size : nat)
    (clauses : list clause_id) (st0 : lut_finder) :
  let st' := fst (run s m_max_lut_size clauses st0) in
  snd (run s m_max_lut_size clauses st0)
  = List.filter
      (fun cp => negb (bool_decide (cp ∈ m_removed_clauses st'))) clauses /\
  forall cp, cp ∈ clauses ->
    was_used cp st' = bool_decide (cp ∈ m_removed_clauses st').
Proof.
  cbv zeta. unfold run.
  set (st := pass_search _ _ _ _).
  destruct (pass_finish_logs clauses st) as (Hr & _ & _ & Hused & Hout).
  cbv zeta in *. set (st' := fst (pass_finish clauses st)) in *.
  assert (Hw : forall cp, cp ∈ clauses ->
            was_used cp st' = bool_decide (cp ∈ m_removed_clauses st')).
  { intros cp Hcp. unfold was_used. apply bool_decide_ext.
    rewrite Hr. apply Hused, Hcp. }
  split; [| exact Hw].
  rewrite Hout. apply filter_ext_in. intros cp Hcp.
  rewrite Hw by (apply list_elem_of_In, Hcp). reflexivity.
Qed.

(** X13: every clause a pass attempts as a seed is one of the given clauses,
    has between 3 and [m_max_lut_size] literals (so the assertion
    [c.size() > 2] of [check_lut] holds) and is neither removed nor learned;
    no clause is attempted twice in a pass. *)
Theorem attempts_eligible_once (s : solver) (m_max_lut_size : nat)
    (clauses : list clause_id) (st0 : lut_finder) :
  let st' := fst (run s m_max_lut_size clauses st0) in
  (forall c b, (c, b) ∈ g_attempts st' ->
     c ∈ clauses /\ eligible s m_max_lut_size c) /\
  NoDup (map fst (g_attempts st')).
Proof.
  cbv zeta.
  destruct (run_log s m_max_lut_size clauses st0) as (st & Hlog & ->).
  destruct (pass_finish_logs clauses st) as (_ & _ & Ha & _). cbv zeta in Ha.
  rewrite Ha. split; [| apply (pl_once _ _ _ _ _ Hlog)].
  intros c b Hc. destruct (pl_seeds _ _ _ _ _ Hlog c b Hc) as (H1 & _ & H3). auto.
Qed.

(** X14: the callback is invoked once for every successful attempt and for
    nothing else, in the order of the attempts. *)
Theorem callbacks_match_successes (s : solver) (m_max_lut_size : nat)
    (clauses : list clause_id) (st0 : lut_finder) :
  let st' := fst (run s m_max_lut_size clauses st0) in
  map call_seed (on_lut_calls st') = map fst (List.filter snd (g_attempts st')).
Proof.
  cbv zeta.
  destruct (run_log s m_max_lut_size clauses st0) as (st & Hlog & ->).
  destruct (pass_finish_logs clauses st) as (_ & Hc & Ha & _). cbv zeta in Hc, Ha.
  rewrite Hc, Ha. apply (pl_calls _ _ _ _ _ Hlog).
Qed.

(** X15: the seed clause of a successful attempt is queued for removal and
    is not among the clauses the pass returns. *)
Theorem successful_seed_removed (s : solver) (m_max_lut_size : nat)
    (clauses : list clause_id) (st0 : lut_finder) (c : clause_id) :
  (c, true) ∈ g_attempts (fst (run s m_max_lut_size clauses st0)) ->
  c ∈ m_removed_clauses (fst (run s m_max_lut_size clauses st0)) /\
  c ∉ snd (run s m_max_lut_size clauses st0).
Proof.
  destruct (run_log s m_max_lut_size clauses st0) as (st & Hlog & ->).
  destruct (pass_finish_logs clauses st) as (Hr & _ & Ha & Hused & Hout).
  cbv zeta in *. set (st' := fst (pass_finish clauses st)) in *.
  rewrite Ha, Hr, Hout. intros Hc.
  pose proof (pl_success _ _ _ _ _ Hlog c Hc) as Hrem.
  destruct (pl_seeds _ _ _ _ _ Hlog c true Hc) as (Hcl & _ & _).
  split; [exact Hrem |].
  intros Hin. apply list_elem_of_In, filter_In in Hin as [_ Hw].
  apply negb_true_iff in Hw. unfold was_used in Hw.
  apply bool_decide_eq_false in Hw. apply Hw, Hused; assumption.
Qed.

Lemma successful_seed_removed_witness :
  (0, true) ∈ g_attempts (fst (run example_solver 6 [0; 1] empty_finder)) /\
  0 ∉ snd (run example_solver 6 [0; 1] empty_finder).
Proof.
  assert (H : (0, true)
              ∈ g_attempts (fst (run example_solver 6 [0; 1] empty_finder))).
  { replace (g_attempts (fst (run example_solver 6 [0; 1] empty_finder)))
      with [(0, true)] by (vm_compute; reflexivity).
    apply list_elem_of_singleton. reflexivity. }
  split; [exact H |].
  exact (proj2 (successful_seed_removed example_solver 6 [0; 1] empty_finder 0 H)).
Defined.

(** X16: a clause is queued for removal only as the seed of a successful
    attempt or as a clause of the index with pairwise distinct variables
    that has exactly the variables of such a seed. *)
Theorem removed_over_seed (s : solver) (m_max_lut_size : nat)
    (clauses : list clause_id) (st0 : lut_finder) (x : clause_id) :
  x ∈ m_removed_clauses (fst (run s m_max_lut_size clauses st0)) ->
  exists c,
    (c, true) ∈ g_attempts (fst (run s m_max_lut_size clauses st0)) /\
    (x = c \/
     (indexable s m_max_lut_size x /\
      forall v, v ∈ map var (lits (heap s x)) <->
                v ∈ map var (lits (heap s c)))).
Proof.
  destruct (run_log s m_max_lut_size clauses st0) as (st & Hlog & ->).
  destruct (pass_finish_logs clauses st) as (Hr & _ & Ha & _).
  cbv zeta in Hr, Ha. rewrite Hr, Ha. intros Hx.
  destruct (pl_removed _ _ _ _ _ Hlog x Hx) as (c & Hc & Hxc).
  exists c. split; [exact Hc |].
  destruct Hxc as [-> | (Hidx & Hsz & Hsub)]; [left; reflexivity | right].
  split; [exact Hidx |].
  intros v. split; [apply Hsub |].
  destruct Hidx as (_ & _ & Hd). unfold all_distinct in Hd.
  apply bool_decide_eq_true, NoDup_ListNoDup in Hd.
  intros Hv. apply list_elem_of_In. apply list_elem_of_In in Hv. revert v Hv.
  apply NoDup_length_incl; [exact Hd | |].
  - rewrite !length_map. unfold size in Hsz. lia.
  - intros v Hv. apply list_elem_of_In, Hsub, list_elem_of_In, Hv.
Qed.

Lemma removed_over_seed_witness :
  0 ∈ m_removed_clauses (fst (run example_solver 6 [0; 1] empty_finder)) /\
  exists c,
    (c, true) ∈ g_attempts (fst (run example_solver 6 [0; 1] empty_finder)) /\
    (0 = c \/
     (indexable example_solver 6 0 /\
      forall v, v ∈ map var (lits (heap example_solver 0)) <->
                v ∈ map var (lits (heap example_solver c)))).
Proof.
  assert (H : 0 ∈ m_removed_clauses
                    (fst (run example_solver 6 [0; 1] empty_finder))).
  { replace (m_removed_clauses (fst (run example_solver 6 [0; 1] empty_finder)))
      with [0] by (vm_compute; reflexivity).
    apply list_elem_of_singleton. reflexivity. }
  split; [exact H |].
  exact (removed_over_seed example_solver 6 [0; 1] empty_finder 0 H).
Defined.

(** X17: a pass over clauses none of which is eligible as a seed (none
    given, [m_max_lut_size] below 3, or all of the wrong size, removed or
    learned) attempts nothing, reports nothing and returns the clauses as
    they were given. *)
Theorem no_eligible_no_change (s : solver) (m_max_lut_size : nat)
    (clauses : list clause_id) (st0 : lut_finder) :
  (forall c, c ∈ clauses -> ~ eligible s m_max_lut_size c) ->
  g_attempts (fst (run s m_max_lut_size clauses st0)) = [] /\
  on_lut_calls (fst (run s m_max_lut_size clauses st0)) = [] /\
  m_removed_clauses (fst (run s m_max_lut_size clauses st0)) = [] /\
  snd (run s m_max_lut_size clauses st0) = clauses.
Proof.
  intros Hnone.
  destruct (run_log s m_max_lut_size clauses st0) as (st & Hlog & ->).
  destruct (pass_finish_logs clauses st) as (Hr & Hc & Ha & Hused & Hout).
  cbv zeta in *. set (st' := fst (pass_finish clauses st)) in *.
  assert (Hatt : g_attempts st = []).
  { destruct (g_attempts st) as [| [c b] l] eqn:Hl; [reflexivity |].
    exfalso.
    destruct (pl_seeds _ _ _ _ _ Hlog c b) as (H1 & _ & H3).
    - rewrite Hl. apply elem_of_cons. left. reflexivity.
    - exact (Hnone c H1 H3). }
  assert (Hrem : m_removed_clauses st = []).
  { destruct (m_removed_clauses st) as [| x l] eqn:Hl; [reflexivity |].
    exfalso.
    destruct (pl_removed _ _ _ _ _ Hlog x) as (c & Hcin & _).
    - rewrite Hl. apply elem_of_cons. left. reflexivity.
    - rewrite Hatt in Hcin. apply elem_of_nil in Hcin. exact Hcin. }
  assert (Hcalls : on_lut_calls st = []).
  { pose proof (pl_calls _ _ _ _ _ Hlog) as Hm. rewrite Hatt in Hm. cbn in Hm.
    destruct (on_lut_calls st); [reflexivity | discriminate]. }
  rewrite Ha, Hc, Hr, Hout.
  split; [exact Hatt |]. split; [exact Hcalls |]. split; [exact Hrem |].
  apply forallb_filter_id. apply forallb_forall. intros cp Hcp.
  apply negb_true_iff. unfold was_used. apply bool_decide_eq_false.
  rewrite (Hused cp (proj2 (list_elem_of_In _ _) Hcp)), Hrem.
  apply not_elem_of_nil.
Qed.

Lemma no_eligible_no_change_witness :
  (forall c, c ∈ [0] -> ~ eligible lonely_solver 2 c) /\
  snd (run lonely_solver 2 [0] empty_finder) = [0].
Proof.
  assert (H : forall c, c ∈ [0] -> ~ eligible lonely_solver 2 c).
  { intros c Hc. apply list_elem_of_singleton in Hc. subst c.
    unfold eligible. cbn. lia. }
  split; [exact H |].
  exact (proj2 (proj2 (proj2
           (no_eligible_no_change lonely_solver 2 [0] empty_finder H)))).
Defined.

(** ** The rows an extraction marks *)

Lemma fold_left_ext {A B : Type} (f g : A -> B -> A) (l : list B) (a : A) :
  (forall a b, f a b = g a b) -> fold_left f l a = fold_left g l a.
Proof.
  intros H. revert a. induction l as [| b l IH]; intros a; [reflexivity |].
  cbn [fold_left]. rewrite H. apply IH.
Qed.

Lemma shl32_b2z (b : bool) (k : nat) :
  k < 32 -> shl32 (Z.b2z b) k = if b then (2 ^ Z.of_nat k)%Z else 0%Z.
Proof.
  intros Hk. destruct b; cbn [Z.b2z]; [apply shl32_one, Hk |].
  unfold shl32, wrap32. rewrite Z.shiftl_0_l. reflexivity.
Qed.

Lemma set_m_missing_id (st : lut_finder) : set_m_missing (m_missing st) st = st.
Proof. destruct st. reflexivity. Qed.

Lemma classify_fold_spec (rd : lut_finder -> nat -> option bool)
    (st : lut_finder) (k : nat) :
  (forall x st j, rd (set_m_missing x st) j = rd st j) ->
  k <= 32 ->
  exists mask,
    fold_left (classify_step rd) (seq 0 k) (st, 0%Z)
    = (set_m_missing
         (m_missing st ++ List.filter (fun j => is_none (rd st j)) (seq 0 k)) st,
       mask) /\
    (0 <= mask < 2 ^ Z.of_nat k)%Z /\
    forall j : nat,
      Z.testbit mask (Z.of_nat j) = (j <? k) && default false (rd st j).
Proof.
  intros Hrd. induction k as [| k IH]; intros Hk.
  - exists 0%Z. cbn [seq fold_left List.filter]. rewrite app_nil_r, set_m_missing_id.
    split; [reflexivity |]. split; [cbn; lia |]. intros j. apply Z.bits_0.
  - destruct IH as (mask & Hfold & Hrange & Hbits); [lia |].
    rewrite seq_S, fold_left_app, Hfold. cbn [fold_left plus classify_step].
    rewrite Hrd, List.filter_app. cbn [List.filter].
    assert (Hpow : (2 ^ Z.of_nat (S k) = 2 * 2 ^ Z.of_nat k)%Z)
      by (rewrite Nat2Z.inj_succ, Z.pow_succ_r by lia; reflexivity).
    assert (Hpow32 : (2 ^ Z.of_nat (S k) <= 2 ^ 32)%Z)
      by (apply Z.pow_le_mono_r; lia).
    destruct (rd st k) as [b |] eqn:Hrk; cbn [is_none].
    + exists (Z.lor mask (if b then 2 ^ Z.of_nat k else 0))%Z.
      assert (Hv : (0 <= (if b then 2 ^ Z.of_nat k else 0) < 2 ^ Z.of_nat (S k))%Z).
      { assert (0 < 2 ^ Z.of_nat k)%Z by (apply Z.pow_pos_nonneg; lia).
        destruct b; lia. }
      assert (Hr : (0 <= Z.lor mask (if b then 2 ^ Z.of_nat k else 0)
                    < 2 ^ Z.of_nat (S k))%Z)
        by (apply lor_range; [lia | lia | exact Hv]).
      rewrite shl32_b2z by lia. rewrite wrap32_small by lia.
      rewrite app_nil_r. split; [reflexivity |]. split; [exact Hr |].
      intros j. rewrite Z.lor_spec, Hbits.
      destruct (Nat.eq_dec j k) as [-> | Hne].
      * rewrite Hrk. cbn [default from_option id].
        destruct (Nat.ltb_spec k k); [lia |].
        destruct (Nat.ltb_spec k (S k)); [| lia]. cbn [andb orb].
        destruct b; [apply Z.pow2_bits_true; lia | apply Z.bits_0].
      * replace (Z.testbit (if b then 2 ^ Z.of_nat k else 0) (Z.of_nat j))%Z
          with false.
        -- rewrite orb_false_r.
           destruct (Nat.ltb_spec j k), (Nat.ltb_spec j (S k)); try lia; reflexivity.
        -- symmetry. destruct b; [| apply Z.bits_0].
           apply Z.pow2_bits_false. lia.
    + exists mask. proj_simpl. rewrite app_assoc.
      split; [reflexivity |]. split; [lia |].
      intros j. rewrite Hbits.
      destruct (Nat.eq_dec j k) as [-> | Hne].
      * rewrite Hrk. rewrite !andb_false_r. reflexivity.
      * destruct (Nat.ltb_spec j k), (Nat.ltb_spec j (S k)); try lia; reflexivity.
Qed.

Lemma collect_mask_classify (st : lut_finder) :
  collect_mask st
  = fold_left (classify_step slot_sign) (seq 0 (length (m_vars st))) (st, 0%Z).
Proof.
  unfold collect_mask. apply fold_left_ext.
  intros [st1 mask] j. unfold classify_step, slot_sign.
  destruct (nth j (m_clause st1) null_literal); reflexivity.
Qed.

Lemma collect_mask_bin_classify (l1 l2 : literal) (st : lut_finder) :
  collect_mask_bin l1 l2 st
  = fold_left (classify_step (pair_sign l1 l2)) (seq 0 (length (m_vars st)))
      (st, 0%Z).
Proof.
  unfold collect_mask_bin. apply fold_left_ext.
  intros [st1 mask] j. unfold classify_step, pair_sign. cbv zeta.
  destruct (Nat.eqb _ _); [reflexivity |].
  destruct (Nat.eqb _ _); reflexivity.
Qed.

(** X18: the last loop of [extract_lut(c2)], for at most 32 positions,
    changes only [m_missing], to which it appends the empty slots of
    [m_clause] in increasing order, and returns a mask below 2^n whose bit j
    is the sign of the literal in slot j (clear at every empty slot). *)
Theorem collect_mask_spec (st : lut_finder) :
  length (m_vars st) <= 32 ->
  fst (collect_mask st)
  = set_m_missing
      (m_missing st
       ++ List.filter (fun j => is_none (slot_sign st j))
            (seq 0 (length (m_vars st)))) st /\
  (0 <= snd (collect_mask st) < 2 ^ Z.of_nat (length (m_vars st)))%Z /\
  forall j : nat,
    Z.testbit (snd (collect_mask st)) (Z.of_nat j)
    = (j <? length (m_vars st)) && default false (slot_sign st j).
Proof.
  intros Hn. rewrite collect_mask_classify.
  destruct (classify_fold_spec slot_sign st (length (m_vars st)))
    as (mask & -> & Hr & Hb); [reflexivity | exact Hn |].
  cbn [fst snd]. auto.
Qed.

Lemma collect_mask_spec_witness :
  let st := set_m_clause [Some (neg_of 0); None; Some (pos 2)]
              (set_m_vars [0; 1; 2] empty_finder) in
  length (m_vars st) <= 32 /\
  m_missing (fst (collect_mask st)) = [1] /\
  snd (collect_mask st) = 1%Z.
Proof.
  intros st.
  assert (H : length (m_vars st) <= 32) by (cbn; lia).
  destruct (collect_mask_spec st H) as (Hf & _ & _).
  split; [exact H |]. split; [rewrite Hf |]; vm_compute; reflexivity.
Defined.

(** X19: the loop of [extract_lut(l1, l2)], for at most 32 positions,
    changes only [m_missing], to which it appends the positions whose
    variable is neither that of l1 nor that of l2, and returns a mask below
    2^n whose bit i is the sign of l1 where [m_vars[i]] is its variable, else
    the sign of l2 where it is the variable of l2. *)
Theorem collect_mask_bin_spec (l1 l2 : literal) (st : lut_finder) :
  length (m_vars st) <= 32 ->
  fst (collect_mask_bin l1 l2 st)
  = set_m_missing
      (m_missing st
       ++ List.filter (fun i => is_none (pair_sign l1 l2 st i))
            (seq 0 (length (m_vars st)))) st /\
  (0 <= snd (collect_mask_bin l1 l2 st) < 2 ^ Z.of_nat (length (m_vars st)))%Z /\
  forall i : nat,
    Z.testbit (snd (collect_mask_bin l1 l2 st)) (Z.of_nat i)
    = (i <? length (m_vars st)) && default false (pair_sign l1 l2 st i).
Proof.
  intros Hn. rewrite collect_mask_bin_classify.
  destruct (classify_fold_spec (pair_sign l1 l2) st (length (m_vars st)))
    as (mask & -> & Hr & Hb); [reflexivity | exact Hn |].
  cbn [fst snd]. auto.
Qed.

Lemma collect_mask_bin_spec_witness :
  let st := set_m_vars [0; 1; 2] empty_finder in
  length (m_vars st) <= 32 /\
  m_missing (fst (collect_mask_bin (neg_of 1) (neg_of 0) st)) = [2] /\
  snd (collect_mask_bin (neg_of 1) (neg_of 0) st) = 3%Z.
Proof.
  intros st.
  assert (H : length (m_vars st) <= 32) by (cbn; lia).
  destruct (collect_mask_bin_spec (neg_of 1) (neg_of 0) st H) as (Hf & _ & _).
  split; [exact H |]. split; [rewrite Hf |]; vm_compute; reflexivity.
Defined.

Lemma missing_of_classify (rd : lut_finder -> nat -> option bool)
    (st : lut_finder) (n : nat) (p : nat) :
  p ∈ List.filter (fun j => is_none (rd st j)) (seq 0 n) <->
  p < n /\ rd st p = None.
Proof.
  rewrite list_elem_of_In, filter_In, in_seq.
  destruct (rd st p); cbn [is_none]; intuition (try lia; discriminate).
Qed.

(** Classifying the positions and marking the completions: the rows added
    are those below 2^n that carry, at every position with a sign, that
    sign. *)
Lemma classify_update_rows (rd : lut_finder -> nat -> option bool)
    (st : lut_finder) (n : nat) :
  (forall x st j, rd (set_m_missing x st) j = rd st j) ->
  n <= 6 ->
  m_missing st = [] ->
  (0 <= m_num_combinations st < 2 ^ 32)%Z ->
  let a := fold_left (classify_step rd) (seq 0 n) (st, 0%Z) in
  let st' := fst (update_combinations (snd a) (fst a)) in
  forall r, (0 <= r)%Z ->
    Z.testbit (m_combination st') r = true <->
    Z.testbit (m_combination st) r = true \/
    ((r < 2 ^ Z.of_nat n)%Z /\
     forall j b, j < n -> rd st j = Some b -> Z.testbit r (Z.of_nat j) = b).
Proof.
  intros Hrd Hn Hmiss Hnum. cbv zeta.
  destruct (classify_fold_spec rd st n Hrd ltac:(lia)) as (mask & -> & Hmask & Hbits).
  cbn [fst snd]. rewrite Hmiss. cbn [app].
  set (M := List.filter (fun j => is_none (rd st j)) (seq 0 n)).
  set (stC := set_m_missing M st).
  assert (HM : forall p, p ∈ M <-> p < n /\ rd st p = None)
    by (intros p; apply missing_of_classify).
  assert (Hbound : Forall (fun p => p < n) M).
  { apply Forall_forall. intros p Hp. apply HM in Hp. tauto. }
  assert (Hnodup : NoDup M).
  { apply NoDup_ListNoDup, List.NoDup_filter, seq_NoDup. }
  assert (Hclear : forall p, p ∈ M -> Z.testbit mask (Z.of_nat p) = false).
  { intros p Hp. apply HM in Hp as [_ Hp]. rewrite Hbits, Hp.
    apply andb_false_r. }
  assert (Hlen : length M <= n) by (apply (missing_length n); assumption).
  assert (Hst' : fst (update_combinations mask stC)
                 = fold_left (fun st r => set_combination r st)
                     (completions mask M) stC).
  { unfold update_combinations. cbn [fst].
    rewrite update_combinations_fold. subst stC. proj_simpl.
    rewrite to_nat_shl64_one by lia. reflexivity. }
  assert (Hrows : NoDup (completions mask M))
    by (apply (completions_NoDup n); assumption).
  assert (Hrange : Forall (fun r => (0 <= r < 64)%Z) (completions mask M))
    by (apply (completions_range n); assumption).
  destruct (set_rows_spec _ stC Hrange Hrows Hnum) as [Hcomb _].
  rewrite Hst'. intros r Hr. rewrite (Hcomb r Hr).
  rewrite orb_true_iff, bool_decide_eq_true.
  rewrite (completions_spec n mask M Hn Hmask Hbound Hnodup Hclear r).
  subst stC. proj_simpl.
  apply or_iff_compat_l. split.
  - intros [_ Hagree]. split.
    + apply small_of_bits; [lia | exact Hr |].
      intros p Hp. rewrite <- (Z2Nat.id p) by lia.
      rewrite Hagree.
      * apply (testbit_small mask (Z.of_nat n)); [exact Hmask | lia].
      * intros Hin. apply HM in Hin. lia.
    + intros j b Hj Hrd'. rewrite Hagree.
      * rewrite Hbits, Hrd'. destruct (Nat.ltb_spec j n); [reflexivity | lia].
      * intros Hin. apply HM in Hin. destruct Hin. congruence.
  - intros [Hlt Hsigns]. split; [exact Hr |].
    intros p Hp. destruct (Nat.lt_ge_cases p n) as [Hpn | Hpn].
    + destruct (rd st p) as [b |] eqn:Hrp.
      * rewrite (Hsigns p b Hpn Hrp), Hbits, Hrp.
        destruct (Nat.ltb_spec p n); [reflexivity | lia].
      * exfalso. apply Hp, HM. auto.
    + rewrite (testbit_small r (Z.of_nat n)), (testbit_small mask (Z.of_nat n));
        [reflexivity | exact Hmask | lia | lia | lia].
Qed.

Lemma extract_lut_bin_marks (l1 l2 : literal) (st : lut_finder) :
  length (m_vars st) <= 6 ->
  (0 <= m_num_combinations st < 2 ^ 32)%Z ->
  forall r, (0 <= r)%Z ->
    Z.testbit (m_combination (fst (extract_lut_bin l1 l2 st))) r = true <->
    Z.testbit (m_combination st) r = true \/
    ((r < 2 ^ Z.of_nat (length (m_vars st)))%Z /\
     forall i b, i < length (m_vars st) -> pair_sign l1 l2 st i = Some b ->
       Z.testbit r (Z.of_nat i) = b).
Proof.
  intros Hn Hnum r Hr. unfold extract_lut_bin. cbv zeta.
  rewrite collect_mask_bin_classify.
  set (st0 := set_m_missing [] _).
  pose proof (classify_update_rows (pair_sign l1 l2) st0 (length (m_vars st)))
    as Hrows.
  cbv zeta in Hrows.
  change (length (m_vars st0)) with (length (m_vars st)).
  destruct (fold_left _ _ _) as [stC mask]. cbn [fst snd] in Hrows.
  apply Hrows; [reflexivity | exact Hn | reflexivity | exact Hnum | exact Hr].
Qed.

(** X20: for at most 6 tracked variables, [extract_lut(l1, l2)] adds to the
    combination word exactly the rows below 2^n that carry the sign of l1 at
    every position of its variable and the sign of l2 at every other position
    of the variable of l2 (all completions of the remaining positions), and
    keeps every row that was set. *)
Theorem extract_lut_bin_rows (l1 l2 : literal) (st : lut_finder) :
  length (m_vars st) <= 6 ->
  (0 <= m_num_combinations st < 2 ^ 32)%Z ->
  forall r, (0 <= r)%Z ->
    Z.testbit (m_combination (fst (extract_lut_bin l1 l2 st))) r = true <->
    Z.testbit (m_combination st) r = true \/
    ((r < 2 ^ Z.of_nat (length (m_vars st)))%Z /\
     forall i b, i < length (m_vars st) -> pair_sign l1 l2 st i = Some b ->
       Z.testbit r (Z.of_nat i) = b).
Proof. exact (extract_lut_bin_marks l1 l2 st). Qed.

Lemma extract_lut_bin_rows_witness :
  let st := set_m_combination 1%Z
              (set_m_num_combinations 1%Z (set_m_vars [0; 1; 2] empty_finder)) in
  length (m_vars st) <= 6 /\
  (0 <= m_num_combinations st < 2 ^ 32)%Z /\
  (Z.testbit (m_combination (fst (extract_lut_bin (neg_of 1) (neg_of 0) st))) 7
   = true <->
   Z.testbit (m_combination st) 7 = true \/
   ((7 < 2 ^ Z.of_nat (length (m_vars st)))%Z /\
    forall i b, i < length (m_vars st) ->
      pair_sign (neg_of 1) (neg_of 0) st i = Some b ->
      Z.testbit 7 (Z.of_nat i) = b)).
Proof.
  intros st.
  assert (H1 : length (m_vars st) <= 6) by (cbn; lia).
  assert (H2 : (0 <= m_num_combinations st < 2 ^ 32)%Z) by (cbn; lia).
  split; [exact H1 | split; [exact H2 |]].
  apply (extract_lut_bin_rows (neg_of 1) (neg_of 0) st H1 H2 7%Z). lia.
Defined.

Lemma set_m_clause_id (st : lut_finder) : set_m_clause (m_clause st) st = st.
Proof. destruct st. reflexivity. Qed.

Lemma clear_slots (st : lut_finder) (k : nat) :
  k <= length (m_clause st) ->
  exists mc,
    fold_left
      (fun st i => set_m_clause (<[i := null_literal]> (m_clause st)) st)
      (seq 0 k) st
    = set_m_clause mc st /\
    length mc = length (m_clause st) /\
    forall j, j < k -> mc !! j = Some null_literal.
Proof.
  induction k as [| k IH]; intros Hk.
  - exists (m_clause st). cbn. rewrite set_m_clause_id.
    split; [reflexivity |]. split; [reflexivity |]. intros j Hj. lia.
  - destruct IH as (mc & Hfold & Hlen & Hnull); [lia |].
    rewrite seq_S, fold_left_app, Hfold. cbn [fold_left plus]. proj_simpl.
    exists (<[k := null_literal]> mc).
    split; [reflexivity |]. split; [rewrite length_insert; exact Hlen |].
    intros j Hj. destruct (Nat.eq_dec j k) as [-> | Hne].
    + apply list_lookup_insert_eq. lia.
    + rewrite list_lookup_insert_ne by congruence. apply Hnull. lia.
Qed.

Lemma find_all_false {A : Type} (f : A -> bool) (l : list A) :
  (forall x, In x l -> f x = false) -> find f l = None.
Proof.
  intros H. destruct (find f l) as [x |] eqn:Hf; [| reflexivity].
  apply find_some in Hf as [Hin Hx]. rewrite (H x Hin) in Hx. discriminate.
Qed.

Lemma fill_slots (st : lut_finder) (ls : list literal)
    (mc : list (option literal)) :
  (forall l, l ∈ ls -> position_of st l < length mc) ->
  NoDup (map (position_of st) ls) ->
  exists mc',
    fold_left
      (fun st l =>
         let pos := nth (var l) (m_var_position st) 0 in
         set_m_clause (<[pos := Some l]> (m_clause st)) st)
      ls (set_m_clause mc st)
    = set_m_clause mc' st /\
    length mc' = length mc /\
    forall j,
      mc' !! j
      = match find (fun l => Nat.eqb (position_of st l) j) ls with
        | Some l => Some (Some l)
        | None => mc !! j
        end.
Proof.
  revert mc. induction ls as [| l ls IH]; intros mc Hb Hnd.
  - exists mc. cbn. auto.
  - cbn [map] in Hnd. apply NoDup_cons in Hnd as [Hnotin Hnd].
    cbn [fold_left]. cbv zeta. proj_simpl.
    fold (position_of st l).
    destruct (IH (<[position_of st l := Some l]> mc)) as (mc' & Hfold & Hlen & Hlk).
    { intros l' Hl'. rewrite length_insert. apply Hb. right. exact Hl'. }
    { exact Hnd. }
    exists mc'. split; [exact Hfold |].
    split; [rewrite Hlen; apply length_insert |].
    intros j. rewrite Hlk. cbn [find].
    destruct (Nat.eqb_spec (position_of st l) j) as [<- | Hne].
    + rewrite find_all_false.
      * apply list_lookup_insert_eq, Hb. left.
      * intros l' Hl'. apply Nat.eqb_neq. intros Heq. apply Hnotin.
        rewrite <- Heq. apply list_elem_of_In, in_map, Hl'.
    + destruct (find _ ls); [reflexivity |].
      apply list_lookup_insert_ne. exact Hne.
Qed.

Lemma place_literals_slots (c : clause) (st : lut_finder) :
  length (m_clause st) = length (m_vars st) ->
  (forall l, l ∈ lits c -> position_of st l < length (m_vars st)) ->
  NoDup (map (position_of st) (lits c)) ->
  exists mc,
    place_literals c st = set_m_clause mc st /\
    forall j, j < length (m_vars st) ->
      nth j mc null_literal
      = find (fun l => Nat.eqb (position_of st l) j) (lits c).
Proof.
  intros Hlen Hb Hnd. unfold place_literals. cbv zeta.
  destruct (clear_slots st (length (m_vars st))) as (mc0 & -> & Hlen0 & Hnull);
    [lia |].
  destruct (fill_slots st (lits c) mc0) as (mc & Hfold & _ & Hlk).
  { intros l Hl. rewrite Hlen0, Hlen. apply Hb, Hl. }
  { exact Hnd. }
  exists mc. split; [exact Hfold |].
  intros j Hj. rewrite nth_lookup, Hlk.
  destruct (find _ (lits c)); [reflexivity |].
  rewrite (Hnull j Hj). reflexivity.
Qed.

Lemma map_NoDup_inj {A B : Type} (f : A -> B) (l : list A) (x y : A) :
  NoDup (map f l) -> In x l -> In y l -> f x = f y -> x = y.
Proof.
  induction l as [| a l IH]; intros Hnd Hx Hy Heq; [destruct Hx |].
  cbn [map] in Hnd. apply NoDup_cons in Hnd as [Hnotin Hnd].
  destruct Hx as [-> | Hx], Hy as [-> | Hy]; auto.
  - exfalso. apply Hnotin. rewrite Heq. apply list_elem_of_In, in_map, Hy.
  - exfalso. apply Hnotin. rewrite <- Heq. apply list_elem_of_In, in_map, Hx.
Qed.

Lemma extract_lut_marks (s : solver) (c2 : clause_id) (st : lut_finder) :
  length (m_vars st) <= 6 ->
  length (m_clause st) = length (m_vars st) ->
  forallb (fun l => is_visited (var l) st) (lits (heap s c2)) = true ->
  (forall l, l ∈ lits (heap s c2) -> position_of st l < length (m_vars st)) ->
  NoDup (map (position_of st) (lits (heap s c2))) ->
  (0 <= m_num_combinations st < 2 ^ 32)%Z ->
  forall r, (0 <= r)%Z ->
    Z.testbit (m_combination (fst (extract_lut s c2 st))) r = true <->
    Z.testbit (m_combination st) r = true \/
    ((r < 2 ^ Z.of_nat (length (m_vars st)))%Z /\
     forall l, l ∈ lits (heap s c2) ->
       Z.testbit r (Z.of_nat (position_of st l)) = sign l).
Proof.
  intros Hn Hlen Hvis Hb Hnd Hnum r Hr.
  unfold extract_lut. cbv zeta. rewrite Hvis. unfold negb. cbv iota.
  set (stA := set_g_assert_ok _ _).
  assert (HA : m_vars stA = m_vars st /\ m_clause stA = m_clause st
               /\ m_var_position stA = m_var_position st
               /\ m_combination stA = m_combination st
               /\ m_num_combinations stA = m_num_combinations st
               /\ m_missing stA = []).
  { subst stA. unfold schedule_if_full. destruct (Nat.eqb _ _); proj_simpl; auto 10. }
  destruct HA as (HAv & HAc & HAp & HAcomb & HAnum & HAmiss).
  assert (Hpos : forall l, position_of stA l = position_of st l)
    by (intros l; unfold position_of; rewrite HAp; reflexivity).
  destruct (place_literals_slots (heap s c2) stA) as (mc & -> & Hslots).
  { rewrite HAc, HAv. exact Hlen. }
  { intros l Hl. rewrite Hpos, HAv. apply Hb, Hl. }
  { rewrite (map_ext _ _ Hpos). exact Hnd. }
  rewrite HAv in Hslots.
  set (stB := set_m_clause mc stA).
  rewrite collect_mask_classify.
  change (length (m_vars stB)) with (length (m_vars stA)). rewrite HAv.
  pose proof (classify_update_rows slot_sign stB (length (m_vars st))) as Hrows.
  cbv zeta in Hrows.
  destruct (fold_left _ _ _) as [stC mask]. cbn [fst snd] in Hrows.
  rewrite Hrows; [| reflexivity | exact Hn | exact HAmiss
                  | subst stB; proj_simpl; rewrite HAnum; exact Hnum | exact Hr].
  subst stB. proj_simpl. rewrite HAcomb.
  apply or_iff_compat_l. apply and_iff_compat_l.
  assert (Hslot : forall j, j < length (m_vars st) ->
            slot_sign (set_m_clause mc stA) j
            = match find (fun l => Nat.eqb (position_of stA l) j)
                      (lits (heap s c2)) with
              | Some l => Some (sign l)
              | None => None
              end).
  { intros j Hj. unfold slot_sign. proj_simpl. rewrite (Hslots j Hj).
    destruct (find _ _); reflexivity. }
  split.
  - intros H l Hl.
    assert (Hj : position_of st l < length (m_vars st)) by (apply Hb, Hl).
    apply (H _ _ Hj). rewrite (Hslot _ Hj).
    destruct (find _ _) as [l' |] eqn:Hf.
    + apply find_some in Hf as [Hl' Heq]. apply Nat.eqb_eq in Heq.
      rewrite Hpos in Heq.
      rewrite (map_NoDup_inj (position_of st) _ l' l Hnd Hl'
                 (proj1 (list_elem_of_In _ _) Hl) Heq). reflexivity.
    + exfalso. pose proof (find_none _ _ Hf l (proj1 (list_elem_of_In _ _) Hl)) as Hno.
      cbv beta in Hno. rewrite Hpos, Nat.eqb_refl in Hno. discriminate.
  - intros H j b Hj. rewrite (Hslot j Hj).
    destruct (find _ _) as [l |] eqn:Hf; [| discriminate].
    intros [= <-]. apply find_some in Hf as [Hl Heq]. apply Nat.eqb_eq in Heq.
    rewrite Hpos in Heq. rewrite <- Heq. apply H, list_elem_of_In, Hl.
Qed.

(** X21: let c2 pass the subset test, with at most 6 tracked variables,
    [m_clause] of that length and its literals at pairwise distinct recorded
    positions below it.  Then [extract_lut(c2)] adds to the combination word
    exactly the rows below 2^n that carry, at the position of every literal
    of c2, the sign of that literal (all completions of the positions c2
    does not mention), and keeps every row that was set. *)
Theorem extract_lut_rows (s : solver) (c2 : clause_id) (st : lut_finder) :
  length (m_vars st) <= 6 ->
  length (m_clause st) = length (m_vars st) ->
  forallb (fun l => is_visited (var l) st) (lits (heap s c2)) = true ->
  (forall l, l ∈ lits (heap s c2) -> position_of st l < length (m_vars st)) ->
  NoDup (map (position_of st) (lits (heap s c2))) ->
  (0 <= m_num_combinations st < 2 ^ 32)%Z ->
  forall r, (0 <= r)%Z ->
    Z.testbit (m_combination (fst (extract_lut s c2 st))) r = true <->
    Z.testbit (m_combination st) r = true \/
    ((r < 2 ^ Z.of_nat (length (m_vars st)))%Z /\
     forall l, l ∈ lits (heap s c2) ->
       Z.testbit r (Z.of_nat (position_of st l)) = sign l).
Proof. exact (extract_lut_marks s c2 st). Qed.

Lemma extract_lut_rows_witness :
  let st := seed example_solver 0
              (pass_start example_solver 6 [0; 1] empty_finder) in
  Z.testbit (m_combination (fst (extract_lut example_solver 1 st))) 5 = true <->
  Z.testbit (m_combination st) 5 = true \/
  ((5 < 2 ^ Z.of_nat (length (m_vars st)))%Z /\
   forall l, l ∈ lits (heap example_solver 1) ->
     Z.testbit 5 (Z.of_nat (position_of st l)) = sign l).
Proof.
  intros st.
  assert (H1 : length (m_vars st) <= 6)
    by (replace (length (m_vars st)) with 3 by (vm_compute; reflexivity); lia).
  assert (H2 : length (m_clause st) = length (m_vars st))
    by (vm_compute; reflexivity).
  assert (H3 : forallb (fun l => is_visited (var l) st)
                 (lits (heap example_solver 1)) = true)
    by (vm_compute; reflexivity).
  assert (Hp : map (position_of st) (lits (heap example_solver 1)) = [0; 1])
    by (vm_compute; reflexivity).
  assert (H4 : forall l, l ∈ lits (heap example_solver 1) ->
                 position_of st l < length (m_vars st)).
  { replace (length (m_vars st)) with 3 by (vm_compute; reflexivity).
    intros l Hl. apply list_elem_of_In, (in_map (position_of st)) in Hl.
    rewrite Hp in Hl. destruct Hl as [<- | [<- | []]]; lia. }
  assert (H5 : NoDup (map (position_of st) (lits (heap example_solver 1)))).
  { rewrite Hp. apply NoDup_cons. split.
    - intros H. apply list_elem_of_singleton in H. discriminate.
    - apply NoDup_singleton. }
  assert (H6 : (0 <= m_num_combinations st < 2 ^ 32)%Z)
    by (replace (m_num_combinations st) with 1%Z by (vm_compute; reflexivity); lia).
  apply (extract_lut_rows example_solver 1 st H1 H2 H3 H4 H5 H6 5%Z). lia.
Defined.

(** ** The row of the seed *)

Lemma seed_vars_mask (ls : list literal) (st : lut_finder) (mask : Z) (i0 : nat) :
  i0 + length ls <= 32 ->
  (0 <= mask < 2 ^ Z.of_nat i0)%Z ->
  let '(_, mask', _) :=
    fold_left
      (fun '(st, mask, i) l =>
         let st := set_m_vars (m_vars st ++ [var l]) st in
         let st := set_m_var_position (<[var l := i]> (m_var_position st)) st in
         let st := mark_visited (var l) st in
         (st, wrap32 (Z.lor mask (shl32 (Z.b2z (sign l)) i)), S i))
      ls (st, mask, i0) in
  (0 <= mask' < 2 ^ Z.of_nat (i0 + length ls))%Z /\
  forall j : nat,
    Z.testbit mask' (Z.of_nat j)
    = if j <? i0 then Z.testbit mask (Z.of_nat j)
      else match ls !! (j - i0) with Some l => sign l | None => false end.
Proof.
  revert st mask i0. induction ls as [| l ls IH]; intros st mask i0 Hlen Hmask.
  - cbn [fold_left length]. rewrite Nat.add_0_r. split; [exact Hmask |].
    intros j. destruct (Nat.ltb_spec j i0); [reflexivity |].
    cbn. apply (testbit_small mask (Z.of_nat i0)); [exact Hmask | lia].
  - cbn [fold_left length] in *. cbv zeta.
    rewrite shl32_b2z by lia.
    assert (Hpow : (2 ^ Z.of_nat (S i0) = 2 * 2 ^ Z.of_nat i0)%Z)
      by (rewrite Nat2Z.inj_succ, Z.pow_succ_r by lia; reflexivity).
    assert (Hpow32 : (2 ^ Z.of_nat (S i0) <= 2 ^ 32)%Z)
      by (apply Z.pow_le_mono_r; lia).
    assert (Hv : (0 <= (if sign l then 2 ^ Z.of_nat i0 else 0)
                  < 2 ^ Z.of_nat (S i0))%Z).
    { assert (0 < 2 ^ Z.of_nat i0)%Z by (apply Z.pow_pos_nonneg; lia).
      destruct (sign l); lia. }
    assert (Hr : (0 <= Z.lor mask (if sign l then 2 ^ Z.of_nat i0 else 0)
                  < 2 ^ Z.of_nat (S i0))%Z)
      by (apply lor_range; [lia | lia | exact Hv]).
    rewrite wrap32_small by lia.
    match goal with
    | |- context [fold_left ?f ls (?st1, ?m1, S i0)] =>
        specialize (IH st1 m1 (S i0) ltac:(lia) Hr);
        destruct (fold_left f ls (st1, m1, S i0)) as [[st' mask'] i']
    end.
    destruct IH as [Hrange Hbits].
    replace (i0 + S (length ls)) with (S i0 + length ls) by lia.
    split; [exact Hrange |].
    intros j. rewrite Hbits.
    destruct (Nat.ltb_spec j (S i0)) as [Hlt | Hge].
    + rewrite Z.lor_spec.
      destruct (Nat.ltb_spec j i0) as [Hlt0 | Hge0].
      * replace (Z.testbit (if sign l then 2 ^ Z.of_nat i0 else 0) (Z.of_nat j))%Z
          with false; [apply orb_false_r |].
        symmetry. destruct (sign l); [| apply Z.bits_0].
        apply Z.pow2_bits_false. lia.
      * assert (j = i0) by lia. subst j. rewrite Nat.sub_diag. cbn [lookup list_lookup].
        rewrite (testbit_small mask (Z.of_nat i0)) by (try exact Hmask; lia).
        cbn [orb]. destruct (sign l); [apply Z.pow2_bits_true; lia | apply Z.bits_0].
    + destruct (Nat.ltb_spec j i0); [lia |].
      replace (j - i0) with (S (j - S i0)) by lia. reflexivity.
Qed.

Lemma seed_marks (s : solver) (c : clause_id) (st : lut_finder) :
  size (heap s c) <= 6 ->
  m_num_combinations (seed s c st) = 1%Z /\
  forall r, (0 <= r)%Z ->
    Z.testbit (m_combination (seed s c st)) r = true <->
    (r < 2 ^ Z.of_nat (size (heap s c)))%Z /\
    forall k l, lits (heap s c) !! k = Some l -> Z.testbit r (Z.of_nat k) = sign l.
Proof.
  intros Hsz. unfold size in *.
  pose proof (seed_vars_mask (lits (heap s c)) (set_m_vars [] (init_visited st))
                0%Z 0 ltac:(cbn; lia) ltac:(cbn; lia)) as Hm.
  unfold seed, seed_vars. cbv zeta.
  destruct (fold_left _ _ _) as [[st1 mask] i].
  cbn [plus] in Hm. destruct Hm as [Hrange Hbits].
  assert (Hmask64 : (0 <= mask < 64)%Z).
  { assert (2 ^ Z.of_nat (length (lits (heap s c))) <= 2 ^ 6)%Z
      by (apply Z.pow_le_mono_r; lia).
    change (2 ^ 6)%Z with 64%Z in *. lia. }
  unfold mark_used, set_combination. proj_simpl.
  rewrite Z.bits_0. proj_simpl.
  split; [reflexivity |].
  intros r Hr. rewrite shl64_one by lia. rewrite Z2Nat.id by lia.
  rewrite Z.lor_0_l, Z.pow2_bits_eqb, Z.eqb_eq by lia.
  split.
  - intros <-. split; [apply Hrange |].
    intros k l Hk. rewrite Hbits. cbn [Nat.ltb Nat.leb].
    rewrite Nat.sub_0_r, Hk. reflexivity.
  - intros [Hlt Hsigns]. apply Z.bits_inj'. intros p Hp.
    rewrite <- (Z2Nat.id p) by exact Hp.
    rewrite Hbits. cbn [Nat.ltb Nat.leb]. rewrite Nat.sub_0_r.
    destruct (lits (heap s c) !! Z.to_nat p) as [l |] eqn:Hl.
    + symmetry. apply Hsigns, Hl.
    + apply lookup_ge_None in Hl. symmetry.
      apply (testbit_small r (Z.of_nat (length (lits (heap s c)))));
        [lia | lia].
Qed.

(** X22: for a seed clause of at most 6 literals the SEED step of
    [check_lut] leaves exactly one witnessed row, the one whose bit k is the
    sign of the k-th literal of the clause, and a count of 1. *)
Theorem seed_row (s : solver) (c : clause_id) (st : lut_finder) :
  size (heap s c) <= 6 ->
  m_num_combinations (seed s c st) = 1%Z /\
  forall r, (0 <= r)%Z ->
    Z.testbit (m_combination (seed s c st)) r = true <->
    (r < 2 ^ Z.of_nat (size (heap s c)))%Z /\
    forall k l, lits (heap s c) !! k = Some l -> Z.testbit r (Z.of_nat k) = sign l.
Proof. exact (seed_marks s c st). Qed.

Lemma seed_row_witness :
  size (heap example_solver 0) <= 6 /\
  m_num_combinations (seed example_solver 0 empty_finder) = 1%Z.
Proof.
  assert (H : size (heap example_solver 0) <= 6) by (cbn; lia).
  split; [exact H | exact (proj1 (seed_row example_solver 0 empty_finder H))].
Defined.

(** ** What the callback receives *)

Section Reported.

Variable s : solver.

Lemma convert_combination_shape (vars vars' : list bool_var) (st : lut_finder)
    (lut : Z) (v : bool_var) :
  convert_combination vars st = Some (lut, vars', v) ->
  vars' = erase v vars /\ v ∈ vars.
Proof.
  unfold convert_combination. cbv zeta.
  destruct (nth_error vars _) as [v0 |] eqn:Hv; [| discriminate].
  intros [= _ <- <-]. split; [reflexivity |].
  apply list_elem_of_In. eapply nth_error_In, Hv.
Qed.

Lemma add_lut_reported (c : clause_id) (st0 st : lut_finder) :
  attempt s c st0 st false ->
  lut_is_defined (length (m_vars st)) st = true ->
  reported s c st0 (add_lut st).
Proof.
  intros Hat Hdef.
  destruct (at_matching _ _ _ _ _ Hat eq_refl) as (Hmv & _ & Hseed).
  pose proof (at_calls _ _ _ _ _ Hat) as Hcalls. cbv beta iota in Hcalls.
  unfold add_lut, reported. cbv zeta. proj_simpl.
  destruct (convert_combination_defined (m_vars st)
              (set_m_removed_clauses
                 (m_removed_clauses st ++ m_clauses_to_remove st) st))
    as (lut & vars & v & Hcc); [exact Hdef |].
  rewrite Hcc. proj_simpl.
  apply convert_combination_shape in Hcc as [-> Hv].
  eexists. split; [rewrite Hcalls; reflexivity |].
  unfold call_of_seed. cbn [call_seed call_out call_vars].
  rewrite <- Hmv. auto.
Qed.

Lemma try_watch_list_reported (c : clause_id) (l : literal)
    (st0 st st' : lut_finder) (b : bool) :
  attempt s c st0 st false ->
  try_watch_list s l st = (st', b) ->
  attempt s c st0 st' b /\ (b = true -> reported s c st0 st').
Proof.
  intros Hat. unfold try_watch_list.
  apply (first_success_ind
           (fun st b => attempt s c st0 st b /\ (b = true -> reported s c st0 st)));
    [| split; [exact Hat | discriminate]].
  intros w st1 st2 b2 _ [H1 _].
  destruct (_ && _ && _).
  - destruct (extract_lut_bin _ _ _) as [st3 ok] eqn:Hex.
    pose proof (extract_lut_bin_attempt _ _ _ _ _ _ _ _ H1 Hex) as H3.
    pose proof (extract_lut_bin_defined _ _ _ _ _ Hex) as Hdef.
    destruct ok; intros [= <- <-].
    + split; [apply add_lut_attempt; auto |].
      intros _. apply add_lut_reported; auto.
    + split; [exact H3 | discriminate].
  - intros [= <- <-]. split; [exact H1 | discriminate].
Qed.

Lemma try_literal_reported (c : clause_id) (filter : Z) (l : literal)
    (st0 st st' : lut_finder) (b : bool) :
  attempt s c st0 st false ->
  try_literal s filter l st = (st', b) ->
  attempt s c st0 st' b /\ (b = true -> reported s c st0 st').
Proof.
  intros Hat. unfold try_literal.
  destruct (first_success _ _ _) as [st1 done1] eqn:Hloop.
  assert (H1 : attempt s c st0 st1 done1
               /\ (done1 = true -> reported s c st0 st1)).
  { revert Hloop.
    apply (first_success_ind
             (fun st b => attempt s c st0 st b
                          /\ (b = true -> reported s c st0 st)));
      [| split; [exact Hat | discriminate]].
    intros cf sa sb bb Hcf [Ha _].
    destruct (Z.eqb _ _); cbn [andb];
      [| intros [= <- <-]; split; [exact Ha | discriminate]].
    destruct (was_used _ _) eqn:Hu; cbn [negb];
      [intros [= <- <-]; split; [exact Ha | discriminate] |].
    destruct (extract_lut _ _ _) as [sc ok] eqn:Hex.
    assert (H3 : attempt s c st0 sc false).
    { pose proof Hex as Hex'.
      apply (extract_lut_attempt _ _ _ _ _ _ _ Ha) in Hex'; [exact Hex' | |].
      - unfold was_used in Hu. apply bool_decide_eq_false in Hu. exact Hu.
      - intros Hd.
        apply (nth_filters_distinct s (m_clause_filters st) (var l)); [| exact Hcf].
        rewrite (at_filters _ _ _ _ _ Hat). exact Hd. }
    destruct ok; intros [= <- <-].
    - pose proof (extract_lut_defined _ _ _ _ Hex) as Hdef.
      split; [apply add_lut_attempt; auto |].
      intros _. apply add_lut_reported; auto.
    - split; [exact H3 | discriminate]. }
  destruct H1 as [H1a H1r].
  destruct done1; [intros [= <- <-]; auto |].
  destruct (try_watch_list s l st1) as [st2 done2] eqn:Hw.
  destruct (try_watch_list_reported _ _ _ _ _ _ H1a Hw) as [H2a H2r].
  destruct done2; [intros [= <- <-]; auto |].
  apply try_watch_list_reported. exact H2a.
Qed.

Lemma check_lut_reported (c : clause_id) (st st' : lut_finder) :
  check_lut s c st = (st', true) -> reported s c st st'.
Proof.
  unfold check_lut. cbv zeta.
  destruct (first_success _ _ _) as [st1 found] eqn:Hloop.
  intros [= <- ->].
  assert (H : attempt s c st st1 true /\ (true = true -> reported s c st st1)).
  { revert Hloop.
    apply (first_success_ind
             (fun st1 b => attempt s c st st1 b
                           /\ (b = true -> reported s c st st1))).
    - intros l sa sb bb _ [Ha _]. apply try_literal_reported. exact Ha.
    - split; [apply seed_attempt | discriminate]. }
  destruct H as [_ Hrep]. destruct (Hrep eq_refl) as (call & Hc & Hs & Hm).
  exists call. proj_simpl. auto.
Qed.

Lemma check_lut_calls (c : clause_id) (st : lut_finder) :
  calls_well_formed s st -> calls_well_formed s (fst (check_lut s c st)).
Proof.
  intros Hwf. destruct (check_lut s c st) as [st' found] eqn:Hcl. cbn [fst].
  destruct found.
  - destruct (check_lut_reported _ _ _ Hcl) as (call & Hc & Hs & _).
    intros call'. rewrite Hc. intros [Hin | ->%list_elem_of_singleton]%elem_of_app.
    + apply Hwf, Hin.
    + destruct Hs as [Hseed Hs]. rewrite Hseed. split; [exact Hseed | exact Hs].
  - apply check_lut_attempt in Hcl as (st1 & Hat & ->).
    pose proof (at_calls _ _ _ _ _ Hat) as Hcalls. cbv beta iota in Hcalls.
    intros call. proj_simpl. rewrite Hcalls. apply Hwf.
Qed.

Lemma pass_search_calls (m_max_lut_size : nat) (clauses : list clause_id)
    (st : lut_finder) :
  calls_well_formed s st ->
  calls_well_formed s (pass_search s m_max_lut_size clauses st).
Proof.
  intros Hwf. unfold pass_search.
  apply (fold_left_inv (calls_well_formed s)); [exact Hwf |].
  intros a max_size _ Ha. unfold check_size.
  apply (fold_left_inv (calls_well_formed s)); [exact Ha |].
  intros a' cp _ Ha'. cbv zeta.
  destruct (_ && negb (was_used cp a')); [| exact Ha'].
  apply check_lut_calls, Ha'.
Qed.

Lemma pass_start_calls (m_max_lut_size : nat) (clauses : list clause_id)
    (st : lut_finder) :
  on_lut_calls (pass_start s m_max_lut_size clauses st) = [].
Proof.
  unfold pass_start. cbv zeta.
  set (st1 := set_g_assert_ok true _).
  destruct (init_clause_filter_spec s m_max_lut_size st1) as (_ & Hfr & _).
  set (st2 := set_m_var_position _ _).
  destruct (unmark_all_spec clauses st2) as (_ & Hfr3 & _). cbv zeta in Hfr3.
  unfold pass_frame in Hfr, Hfr3. subst st2 st1. proj_simpl_in Hfr.
  proj_simpl_in Hfr3.
  injection Hfr as Hr1 Hc1 Ha1 Ho1. injection Hfr3 as Hr3 Hc3 Ha3 Ho3.
  rewrite Hc3, Hc1. reflexivity.
Qed.

Lemma erase_length (v : bool_var) (vars : list bool_var) :
  v ∈ vars -> S (length (erase v vars)) = length vars.
Proof.
  induction vars as [| x vars IH]; [intros H; apply elem_of_nil in H; destruct H |].
  cbn [erase length]. destruct (Nat.eqb_spec x v) as [-> | Hne]; [reflexivity |].
  intros [Heq | Hin]%elem_of_cons; [congruence |].
  cbn [length]. rewrite IH by exact Hin. reflexivity.
Qed.

(** X23: when an attempt succeeds, the callback is invoked exactly once, with
    an output variable that occurs in the seed clause and with the variables
    of the seed clause, in clause order, without the first occurrence of that
    output variable; [m_vars] is left as that shortened list. *)
Theorem check_lut_reports (c : clause_id) (st st' : lut_finder) :
  check_lut s c st = (st', true) ->
  exists call,
    on_lut_calls st' = on_lut_calls st ++ [call] /\
    call_seed call = c /\
    call_out call ∈ map var (lits (heap s c)) /\
    call_vars call = erase (call_out call) (map var (lits (heap s c))) /\
    m_vars st' = call_vars call.
Proof.
  intros (call & Hc & (Hs & Ho & Hv) & Hm)%check_lut_reported.
  exists call. auto.
Qed.

(** X24: every callback of a pass names as output a variable of the seed
    clause it was made for, lists the other variables of that clause in
    clause order, and so has one variable fewer than the seed has literals. *)
Theorem callbacks_well_formed (m_max_lut_size : nat) (clauses : list clause_id)
    (st0 : lut_finder) (call : lut_call) :
  call ∈ on_lut_calls (fst (run s m_max_lut_size clauses st0)) ->
  call_out call ∈ map var (lits (heap s (call_seed call))) /\
  call_vars call
  = erase (call_out call) (map var (lits (heap s (call_seed call)))) /\
  S (length (call_vars call)) = size (heap s (call_seed call)).
Proof.
  unfold run.
  set (st := pass_search _ _ _ _).
  destruct (pass_finish_logs clauses st) as (_ & Hc & _). cbv zeta in Hc.
  rewrite Hc. intros Hin.
  assert (Hwf : calls_well_formed s st).
  { apply pass_search_calls. intros x. rewrite pass_start_calls.
    intros H. apply elem_of_nil in H. destruct H. }
  destruct (Hwf call Hin) as (_ & Ho & Hv).
  split; [exact Ho |]. split; [exact Hv |].
  rewrite Hv, erase_length by exact Ho. unfold size. apply length_map.
Qed.

End Reported.

Lemma check_lut_reports_witness :
  exists call,
    on_lut_calls
      (fst (check_lut example_solver 0
              (pass_start example_solver 6 [0; 1] empty_finder)))
    = on_lut_calls (pass_start example_solver 6 [0; 1] empty_finder) ++ [call] /\
    call_out call ∈ map var (lits (heap example_solver 0)).
Proof.
  assert (H : check_lut example_solver 0
                (pass_start example_solver 6 [0; 1] empty_finder)
              = (fst (check_lut example_solver 0
                        (pass_start example_solver 6 [0; 1] empty_finder)), true)).
  { assert (Hb : snd (check_lut example_solver 0
                        (pass_start example_solver 6 [0; 1] empty_finder)) = true)
      by (vm_compute; reflexivity).
    pose proof (surjective_pairing
                  (check_lut example_solver 0
                     (pass_start example_solver 6 [0; 1] empty_finder))) as E.
    rewrite Hb in E. exact E. }
  destruct (check_lut_reports example_solver 0 _ _ H) as (call & Hc & _ & Ho & _).
  exists call. split; [exact Hc | exact Ho].
Defined.

Lemma callbacks_well_formed_witness :
  mk_lut_call 0 0 [0; 2] 1
  ∈ on_lut_calls (fst (run example_solver 6 [0; 1] empty_finder)) /\
  S (length [0; 2]) = size (heap example_solver 0).
Proof.
  assert (H : mk_lut_call 0 0 [0; 2] 1
              ∈ on_lut_calls (fst (run example_solver 6 [0; 1] empty_finder))).
  { replace (on_lut_calls (fst (run example_solver 6 [0; 1] empty_finder)))
      with [mk_lut_call 0 0 [0; 2] 1] by (vm_compute; reflexivity).
    apply list_elem_of_singleton. reflexivity. }
  split; [exact H |].
  exact (proj2 (proj2
           (callbacks_well_formed example_solver 6 [0; 1] empty_finder _ H))).
Defined.

(** ** The rows behind the scheduled clauses *)

Lemma row_of_signs_bits (bs : list bool) :
  (0 <= row_of_signs bs < 2 ^ Z.of_nat (length bs))%Z /\
  forall k : nat, Z.testbit (row_of_signs bs) (Z.of_nat k) = nth k bs false.
Proof.
  induction bs as [| b bs [IHr IHb]].
  - split; [cbn; lia |]. intros k. rewrite Z.bits_0. destruct k; reflexivity.
  - cbn [row_of_signs length].
    assert (Hpow : (2 ^ Z.of_nat (S (length bs)) = 2 * 2 ^ Z.of_nat (length bs))%Z)
      by (rewrite Nat2Z.inj_succ, Z.pow_succ_r by lia; reflexivity).
    split; [destruct b; cbn [Z.b2z]; lia |].
    intros [| k].
    + apply Z.testbit_0_r.
    + rewrite Nat2Z.inj_succ, Z.testbit_succ_r by lia. apply IHb.
Qed.

Lemma set_combination_count (r : Z) (st : lut_finder) :
  (0 <= m_num_combinations st < 2 ^ 32)%Z ->
  (0 <= m_num_combinations (set_combination r st) < 2 ^ 32)%Z.
Proof.
  intros H. unfold set_combination.
  destruct (Z.testbit _ _); [exact H |]. proj_simpl. apply wrap32_range.
Qed.

Lemma update_combinations_count (mask : Z) (st : lut_finder) :
  (0 <= m_num_combinations st < 2 ^ 32)%Z ->
  (0 <= m_num_combinations (fst (update_combinations mask st)) < 2 ^ 32)%Z.
Proof.
  intros H. unfold update_combinations. cbn [fst].
  apply (fold_left_inv (fun st => (0 <= m_num_combinations st < 2 ^ 32)%Z));
    [exact H |].
  intros a k _ Ha. apply set_combination_count, Ha.
Qed.

Lemma update_combinations_tracks (mask : Z) (st : lut_finder) :
  m_var_position (fst (update_combinations mask st)) = m_var_position st /\
  m_clause (fst (update_combinations mask st)) = m_clause st.
Proof.
  pose proof (update_combinations_frame mask st) as H.
  unfold frame in H. injection H. intros. auto.
Qed.

Lemma extract_lut_bin_tracks (l1 l2 : literal) (st : lut_finder) :
  (0 <= m_num_combinations st < 2 ^ 32)%Z ->
  m_var_position (fst (extract_lut_bin l1 l2 st)) = m_var_position st /\
  m_clause (fst (extract_lut_bin l1 l2 st)) = m_clause st /\
  (0 <= m_num_combinations (fst (extract_lut_bin l1 l2 st)) < 2 ^ 32)%Z.
Proof.
  intros Hnum. unfold extract_lut_bin. cbv zeta.
  set (st0 := set_m_missing [] _).
  assert (H : m_var_position (fst (collect_mask_bin l1 l2 st0)) = m_var_position st
              /\ m_clause (fst (collect_mask_bin l1 l2 st0)) = m_clause st
              /\ m_num_combinations (fst (collect_mask_bin l1 l2 st0))
                 = m_num_combinations st).
  { unfold collect_mask_bin.
    apply (fold_left_inv
             (fun a => m_var_position (fst a) = m_var_position st
                       /\ m_clause (fst a) = m_clause st
                       /\ m_num_combinations (fst a) = m_num_combinations st));
      [subst st0; proj_simpl; auto |].
    intros [st2 mask] i _ Hst2. cbn [fst] in *.
    destruct (Nat.eqb _ _); [exact Hst2 |].
    destruct (Nat.eqb _ _); exact Hst2. }
  destruct (collect_mask_bin l1 l2 st0) as [st2 mask]. cbn [fst] in H.
  destruct H as (Hp & Hc & Hn).
  destruct (update_combinations_tracks mask st2) as [Hp' Hc'].
  rewrite Hp', Hc', Hp, Hc. split; [reflexivity |]. split; [reflexivity |].
  apply update_combinations_count. rewrite Hn. exact Hnum.
Qed.

Lemma extract_lut_tracks (s : solver) (c2 : clause_id) (st : lut_finder) :
  (0 <= m_num_combinations st < 2 ^ 32)%Z ->
  m_var_position (fst (extract_lut s c2 st)) = m_var_position st /\
  length (m_clause (fst (extract_lut s c2 st))) = length (m_clause st) /\
  (0 <= m_num_combinations (fst (extract_lut s c2 st)) < 2 ^ 32)%Z.
Proof.
  intros Hnum. unfold extract_lut. cbv zeta.
  destruct (forallb _ _); unfold negb; cbv iota; [| auto].
  set (stA := set_g_assert_ok _ _).
  assert (HA : m_var_position stA = m_var_position st
               /\ length (m_clause stA) = length (m_clause st)
               /\ m_num_combinations stA = m_num_combinations st).
  { subst stA. unfold schedule_if_full. destruct (Nat.eqb _ _); proj_simpl; auto. }
  assert (HB : m_var_position (place_literals (heap s c2) stA) = m_var_position st
               /\ length (m_clause (place_literals (heap s c2) stA))
                  = length (m_clause st)
               /\ m_num_combinations (place_literals (heap s c2) stA)
                  = m_num_combinations st).
  { unfold place_literals. cbv zeta.
    apply (fold_left_inv
             (fun a => m_var_position a = m_var_position st
                       /\ length (m_clause a) = length (m_clause st)
                       /\ m_num_combinations a = m_num_combinations st)).
    - apply (fold_left_inv
               (fun a => m_var_position a = m_var_position st
                         /\ length (m_clause a) = length (m_clause st)
                         /\ m_num_combinations a = m_num_combinations st));
        [exact HA |].
      intros a i _ (H1 & H2 & H3). proj_simpl. rewrite length_insert. auto.
    - intros a l _ (H1 & H2 & H3). proj_simpl. rewrite length_insert. auto. }
  set (stB := place_literals (heap s c2) stA) in *.
  assert (HC : m_var_position (fst (collect_mask stB)) = m_var_position st
               /\ length (m_clause (fst (collect_mask stB))) = length (m_clause st)
               /\ m_num_combinations (fst (collect_mask stB))
                  = m_num_combinations st).
  { unfold collect_mask.
    apply (fold_left_inv
             (fun a => m_var_position (fst a) = m_var_position st
                       /\ length (m_clause (fst a)) = length (m_clause st)
                       /\ m_num_combinations (fst a) = m_num_combinations st));
      [exact HB |].
    intros [st2 mask] j _ Hst2. cbn [fst] in *.
    destruct (nth j (m_clause st2) null_literal); exact Hst2. }
  destruct (collect_mask stB) as [stC mask]. cbn [fst] in HC.
  destruct HC as (Hp & Hc & Hn).
  destruct (update_combinations_tracks mask stC) as [Hp' Hc'].
  rewrite Hp', Hc', Hp, Hc. split; [reflexivity |]. split; [reflexivity |].
  apply update_combinations_count. rewrite Hn. exact Hnum.
Qed.

Lemma lookup_map_Some {A B : Type} (f : A -> B) (l : list A) (k : nat) (b : B) :
  map f l !! k = Some b <-> exists a, l !! k = Some a /\ f a = b.
Proof.
  revert k. induction l as [| a l IH]; intros k; cbn [map].
  - split; [intros H; discriminate | intros (a & H & _); discriminate].
  - destruct k as [| k]; cbn [lookup list_lookup].
    + split; [intros [= <-]; eauto | intros (a' & [= <-] & <-); reflexivity].
    + apply IH.
Qed.

Lemma elem_of_map_iff {A B : Type} (f : A -> B) (l : list A) (b : B) :
  b ∈ map f l <-> exists a, a ∈ l /\ f a = b.
Proof.
  rewrite list_elem_of_In, in_map_iff. split.
  - intros (a & Hf & Ha). exists a. split; [apply list_elem_of_In, Ha | exact Hf].
  - intros (a & Ha & Hf). exists a. split; [exact Hf | apply list_elem_of_In, Ha].
Qed.

Lemma NoDup_map_via {A B C : Type} (f : A -> B) (g : A -> C) (l : list A) :
  (forall x y, x ∈ l -> y ∈ l -> f x = f y -> g x = g y) ->
  NoDup (map g l) -> NoDup (map f l).
Proof.
  induction l as [| a l IH]; intros Hfg Hnd; cbn [map] in *; [apply NoDup_nil; exact I |].
  apply NoDup_cons in Hnd as [Hnotin Hnd]. apply NoDup_cons. split.
  - intros (y & Hy & Heq)%elem_of_map_iff. apply Hnotin, elem_of_map_iff.
    exists y. split; [exact Hy |].
    apply Hfg; [right; exact Hy | left | exact Heq].
  - apply IH; [| exact Hnd].
    intros x y Hx Hy. apply Hfg; right; assumption.
Qed.

Lemma sign_at_elem (ls : list literal) (l : literal) :
  NoDup (map var ls) -> l ∈ ls -> sign_at ls (var l) = sign l.
Proof.
  intros Hnd Hl. unfold sign_at.
  destruct (find _ ls) as [l' |] eqn:Hf.
  - apply find_some in Hf as [Hl' Heq]. apply Nat.eqb_eq in Heq.
    rewrite (map_NoDup_inj var ls l' l Hnd Hl'
               (proj1 (list_elem_of_In _ _) Hl) Heq). reflexivity.
  - pose proof (find_none _ _ Hf l (proj1 (list_elem_of_In _ _) Hl)) as Hno.
    cbv beta in Hno. rewrite Nat.eqb_refl in Hno. discriminate.
Qed.

(** The row of a clause without a repeated variable is one of its rows. *)
Lemma row_of_source_row (s : solver) (c x : clause_id) :
  NoDup (map var (lits (heap s x))) ->
  source_row s c (SrcClause x) (row_of s c x).
Proof.
  intros Hnd. unfold source_row, row_of.
  destruct (row_of_signs_bits
              (map (sign_at (lits (heap s x))) (map var (lits (heap s c)))))
    as [Hr Hb].
  rewrite !length_map in Hr. split; [exact Hr |].
  intros k v Hk l Hl Hv. rewrite Hb.
  assert (Hs : map (sign_at (lits (heap s x))) (map var (lits (heap s c))) !! k
               = Some (sign_at (lits (heap s x)) v))
    by (apply lookup_map_Some; eauto).
  rewrite (nth_lookup_Some _ _ _ _ Hs). subst v. apply sign_at_elem; assumption.
Qed.

Lemma seed_shape (s : solver) (c : clause_id) (st : lut_finder) :
  g_sources (seed s c st) = [SrcSeed c] /\
  length (m_clause (seed s c st)) = size (heap s c).
Proof.
  unfold seed, seed_vars. cbv zeta.
  destruct (fold_left _ _ _) as [[st1 mask] i].
  match goal with
  | |- context [mark_used c (set_combination mask ?X)] =>
      pose proof (set_combination_frame mask X) as Hfr
  end.
  unfold mark_used. proj_simpl. unfold frame in Hfr. proj_simpl_in Hfr.
  injection Hfr as _ _ _ _ Hcl _ _ _ _ _ _ Hsrc _ _.
  rewrite Hsrc, Hcl. split; [reflexivity | apply length_resize].
Qed.

Section Grounded.

Variable s : solver.
Variable c : clause_id.
Variable F : list (list clause_filter).

Hypothesis seed_size : size (heap s c) <= 6.
Hypothesis seed_distinct : NoDup (map var (lits (heap s c))).

Lemma tracked_position (st : lut_finder) (k : nat) (v : bool_var) :
  tracking s c F st ->
  map var (lits (heap s c)) !! k = Some v ->
  nth v (m_var_position st) 0 = k /\ k < size (heap s c).
Proof.
  intros Htr Hk. pose proof (lookup_lt_Some _ _ _ Hk) as Hlt.
  rewrite length_map in Hlt. split; [| exact Hlt].
  apply lookup_map_Some in Hk as (l & Hl & <-).
  apply (tr_positions _ _ _ _ Htr), Hl.
Qed.

Lemma grounded_snoc (st st' : lut_finder) (src : source)
    (new : Z -> Prop) :
  grounded s c F st ->
  source_admitted s c F src ->
  g_sources st' = g_sources st ++ [src] ->
  (forall r, (0 <= r)%Z ->
     Z.testbit (m_combination st') r = true <->
     Z.testbit (m_combination st) r = true \/ new r) ->
  (forall r, (0 <= r)%Z -> new r <-> source_row s c src r) ->
  grounded s c F st'.
Proof.
  intros [Hadm Hrows] Hsrc Hlog Hcomb Hnew. split.
  - intros x. rewrite Hlog. intros [Hx | ->%list_elem_of_singleton]%elem_of_app;
      [apply Hadm, Hx | exact Hsrc].
  - intros r Hr. rewrite (Hcomb r Hr), (Hrows r Hr), (Hnew r Hr), Hlog. split.
    + intros [(x & Hx & Hrow) | Hrow].
      * exists x. split; [apply elem_of_app; left; exact Hx | exact Hrow].
      * exists src. split; [| exact Hrow].
        apply elem_of_app. right. apply list_elem_of_singleton. reflexivity.
    + intros (x & [Hx | ->%list_elem_of_singleton]%elem_of_app & Hrow);
        [left; eauto | right; exact Hrow].
Qed.

Lemma extract_lut_grounded (c2 : clause_id) (st st' : lut_finder) (b : bool) :
  tracking s c F st -> grounded s c F st ->
  (exists v cf, cf ∈ nth v F [] /\ m_clause_of cf = c2) ->
  all_distinct (heap s c2) = true ->
  extract_lut s c2 st = (st', b) ->
  tracking s c F st' /\ grounded s c F st'.
Proof.
  intros Htr Hgr Hidx Hdist Hex.
  destruct (extract_lut_books s c2 st st' b Hex)
    as [(_ & -> & _) | (Hvis & Hb)]; [auto |].
  pose proof (extract_lut_tracks s c2 st (tr_count _ _ _ _ Htr)) as Hfr.
  pose proof (extract_lut_marks s c2 st) as Hmarks.
  rewrite Hex in Hfr, Hmarks. cbn [fst] in Hfr, Hmarks.
  destruct Hfr as (Hp & Hc & Hn).
  assert (Hbk : m_clause_filters st' = m_clause_filters st
                /\ m_vars st' = m_vars st /\ visited st' = visited st
                /\ g_sources st' = g_sources st ++ [SrcClause c2]).
  { unfold extract_lut_effect, schedule_if_full in Hb.
    destruct (Nat.eqb _ _); books_of Hb; auto. }
  destruct Hbk as (Hbf & Hbv & Hbvis & Hbs).
  assert (Hin : forall l, l ∈ lits (heap s c2) ->
                  var l ∈ map var (lits (heap s c))).
  { intros l Hl. rewrite forallb_forall in Hvis.
    specialize (Hvis l (proj1 (list_elem_of_In _ _) Hl)).
    apply bool_decide_eq_true in Hvis. apply (tr_visited _ _ _ _ Htr), Hvis. }
  assert (Hpos : forall l, l ∈ lits (heap s c2) ->
                   exists k, map var (lits (heap s c)) !! k = Some (var l)
                             /\ position_of st l = k /\ k < size (heap s c)).
  { intros l Hl. destruct (proj1 (list_elem_of_lookup _ _) (Hin l Hl)) as [k Hk].
    exists k. split; [exact Hk |]. apply (tracked_position st k (var l) Htr Hk). }
  assert (Hlen : length (m_vars st) = size (heap s c))
    by (rewrite (tr_vars _ _ _ _ Htr); apply length_map).
  split.
  - constructor.
    + rewrite Hbv. apply (tr_vars _ _ _ _ Htr).
    + intros v. rewrite Hbvis. apply (tr_visited _ _ _ _ Htr).
    + intros k l Hk. rewrite Hp. apply (tr_positions _ _ _ _ Htr), Hk.
    + rewrite Hc. apply (tr_clause _ _ _ _ Htr).
    + exact Hn.
    + rewrite Hbf. apply (tr_filters _ _ _ _ Htr).
  - apply (grounded_snoc st st' (SrcClause c2)
             (fun r => (r < 2 ^ Z.of_nat (length (m_vars st)))%Z /\
                       forall l, l ∈ lits (heap s c2) ->
                         Z.testbit r (Z.of_nat (position_of st l)) = sign l));
      [exact Hgr | | exact Hbs | |].
    + cbn. split; [exact Hidx |]. split; [exact Hdist | exact Hin].
    + apply Hmarks.
      * lia.
      * rewrite Hlen. apply (tr_clause _ _ _ _ Htr).
      * exact Hvis.
      * intros l Hl. destruct (Hpos l Hl) as (k & _ & -> & Hk). lia.
      * unfold all_distinct in Hdist. apply bool_decide_eq_true in Hdist.
        apply (NoDup_map_via _ var); [| exact Hdist].
        intros x y Hx Hy Heq.
        destruct (Hpos x Hx) as (kx & Hkx & Hpx & _).
        destruct (Hpos y Hy) as (ky & Hky & Hpy & _).
        assert (kx = ky) by congruence. subst ky. congruence.
      * apply (tr_count _ _ _ _ Htr).
    + intros r Hr. unfold source_row. rewrite Hlen. split.
      * intros [Hlt Hsigns]. split; [lia |].
        intros k v Hk l Hl Hv. subst v.
        destruct (Hpos l Hl) as (k' & Hk' & Hpl & _).
        assert (E : k' = k) by (eapply NoDup_lookup; eassumption).
        rewrite <- E, <- Hpl. apply Hsigns, Hl.
      * intros [Hrange Hsigns]. split; [lia |].
        intros l Hl. destruct (Hpos l Hl) as (k & Hk & -> & _).
        apply (Hsigns k (var l) Hk l Hl eq_refl).
Qed.

Lemma extract_lut_bin_grounded (l1 l2 : literal) (st st' : lut_finder) (b : bool) :
  tracking s c F st -> grounded s c F st ->
  source_admitted s c F (SrcBinary l1 l2) ->
  extract_lut_bin l1 l2 st = (st', b) ->
  tracking s c F st' /\ grounded s c F st'.
Proof.
  intros Htr Hgr Hadm Hex.
  pose proof (extract_lut_bin_books l1 l2 st st' b Hex) as Hb.
  pose proof (extract_lut_bin_tracks l1 l2 st (tr_count _ _ _ _ Htr)) as Hfr.
  pose proof (extract_lut_bin_marks l1 l2 st) as Hmarks.
  rewrite Hex in Hfr, Hmarks. cbn [fst] in Hfr, Hmarks.
  destruct Hfr as (Hp & Hc & Hn).
  books_of Hb.
  assert (Hlen : length (m_vars st) = size (heap s c))
    by (rewrite (tr_vars _ _ _ _ Htr); apply length_map).
  split.
  - constructor.
    + rewrite Hvars. apply (tr_vars _ _ _ _ Htr).
    + intros v. rewrite Hvisited. apply (tr_visited _ _ _ _ Htr).
    + intros k l Hk. rewrite Hp. apply (tr_positions _ _ _ _ Htr), Hk.
    + rewrite Hc. apply (tr_clause _ _ _ _ Htr).
    + exact Hn.
    + rewrite Hfilters. apply (tr_filters _ _ _ _ Htr).
  - apply (grounded_snoc st st' (SrcBinary l1 l2)
             (fun r => (r < 2 ^ Z.of_nat (length (m_vars st)))%Z /\
                       forall i b, i < length (m_vars st) ->
                         pair_sign l1 l2 st i = Some b ->
                         Z.testbit r (Z.of_nat i) = b));
      [exact Hgr | exact Hadm | exact Hsources | |].
    + apply Hmarks; [lia | apply (tr_count _ _ _ _ Htr)].
    + intros r Hr. unfold source_row. rewrite Hlen. split.
      * intros [Hlt Hsigns]. split; [lia |].
        intros k v Hk.
        assert (Hkn : k < size (heap s c))
          by (apply lookup_lt_Some in Hk; rewrite length_map in Hk; exact Hk).
        assert (Hnth : nth k (m_vars st) 0 = v)
          by (rewrite (tr_vars _ _ _ _ Htr); apply nth_lookup_Some, Hk).
        split.
        -- intros ->. apply Hsigns; [exact Hkn |].
           unfold pair_sign. rewrite Hnth, Nat.eqb_refl. reflexivity.
        -- intros Hne ->. apply Hsigns; [exact Hkn |].
           unfold pair_sign. rewrite Hnth, Nat.eqb_refl.
           rewrite (proj2 (Nat.eqb_neq _ _) Hne). reflexivity.
      * intros [Hrange Hsigns]. split; [lia |].
        intros i b' Hi Hps.
        destruct (lookup_lt_is_Some_2 (map var (lits (heap s c))) i) as [v Hv];
          [rewrite length_map; exact Hi |].
        assert (Hnth : nth i (m_vars st) 0 = v)
          by (rewrite (tr_vars _ _ _ _ Htr); apply nth_lookup_Some, Hv).
        destruct (Hsigns i v Hv) as [H1 H2].
        unfold pair_sign in Hps. rewrite Hnth in Hps.
        destruct (Nat.eqb_spec v (var l1)) as [E1 | N1].
        -- injection Hps as <-. apply H1, E1.
        -- destruct (Nat.eqb_spec v (var l2)) as [E2 | N2]; [| discriminate].
           injection Hps as <-. apply H2; assumption.
Qed.

Lemma add_lut_grounded (st : lut_finder) :
  grounded s c F st -> grounded s c F (add_lut st).
Proof.
  intros Hgr. unfold add_lut, grounded in *. cbv zeta.
  destruct (convert_combination _ _) as [[[lut vars] v] |]; proj_simpl; exact Hgr.
Qed.

Lemma seed_grounded (st0 : lut_finder) :
  (forall l, l ∈ lits (heap s c) -> var l < length (m_var_position st0)) ->
  m_clause_filters st0 = F ->
  tracking s c F (seed s c st0) /\ grounded s c F (seed s c st0).
Proof.
  intros Hb HF.
  destruct (seed_tracks s c st0 seed_distinct Hb) as (Hv & Hvis & Hpos & _).
  destruct (seed_marks s c st0 seed_size) as [Hnum Hrows].
  destruct (seed_shape s c st0) as [Hsrc Hcl].
  split.
  - constructor; try assumption.
    + rewrite Hnum. lia.
    + rewrite (at_filters _ _ _ _ _ (seed_attempt s c st0)). exact HF.
  - split.
    + intros src. rewrite Hsrc. intros ->%list_elem_of_singleton. reflexivity.
    + intros r Hr. rewrite (Hrows r Hr), Hsrc. split.
      * intros [Hlt Hsigns]. exists (SrcSeed c).
        split; [apply list_elem_of_singleton; reflexivity |].
        split; [lia |].
        intros k v (l0 & Hk & <-)%lookup_map_Some l Hl Hvar.
        rewrite (map_NoDup_inj var _ l l0 seed_distinct
                   (proj1 (list_elem_of_In _ _) Hl)
                   (proj1 (list_elem_of_In _ _) (list_elem_of_lookup_2 _ _ _ Hk))
                   Hvar).
        apply Hsigns, Hk.
      * intros (src & ->%list_elem_of_singleton & [Hrange Hsigns]).
        split; [lia |].
        intros k l Hk.
        apply (Hsigns k (var l)); [apply lookup_map_Some; eauto | | reflexivity].
        apply (list_elem_of_lookup_2 _ _ _ Hk).
Qed.

Hypothesis index_distinct : filters_distinct s F.

Lemma try_watch_list_grounded (l : literal) (st st' : lut_finder) (b : bool) :
  var l ∈ map var (lits (heap s c)) ->
  tracking s c F st -> grounded s c F st ->
  try_watch_list s l st = (st', b) ->
  grounded s c F st' /\ (b = false -> tracking s c F st').
Proof.
  intros Hl Htr Hgr. unfold try_watch_list.
  apply (first_success_ind
           (fun st b => grounded s c F st /\ (b = false -> tracking s c F st)));
    [| auto].
  intros w st1 st2 b2 Hw [Hg1 Ht1]. specialize (Ht1 eq_refl).
  destruct (_ && _ && _) eqn:Hguard; [| intros [= <- <-]; auto].
  apply andb_prop in Hguard as [Hguard _].
  apply andb_prop in Hguard as [Hbin Hvis].
  apply bool_decide_eq_true in Hvis.
  destruct (extract_lut_bin _ _ _) as [st3 ok] eqn:Hex.
  destruct (extract_lut_bin_grounded (neg l) (get_literal w) st1 st3 ok Ht1 Hg1)
    as [Ht3 Hg3]; [| exact Hex |].
  { cbn. split; [exists l, w; auto |].
    split; [exact Hl | apply (tr_visited _ _ _ _ Ht1), Hvis]. }
  destruct ok; intros [= <- <-].
  - split; [apply add_lut_grounded, Hg3 | discriminate].
  - auto.
Qed.

Lemma try_literal_grounded (filter : Z) (l : literal) (st st' : lut_finder)
    (b : bool) :
  var l ∈ map var (lits (heap s c)) ->
  tracking s c F st -> grounded s c F st ->
  try_literal s filter l st = (st', b) ->
  grounded s c F st' /\ (b = false -> tracking s c F st').
Proof.
  intros Hl Htr Hgr. unfold try_literal.
  destruct (first_success _ _ _) as [st1 done1] eqn:Hloop.
  assert (H1 : grounded s c F st1 /\ (done1 = false -> tracking s c F st1)).
  { revert Hloop.
    apply (first_success_ind
             (fun st b => grounded s c F st /\ (b = false -> tracking s c F st)));
      [| auto].
    intros cf sa sb bb Hcf [Hga Hta]. specialize (Hta eq_refl).
    rewrite (tr_filters _ _ _ _ Htr) in Hcf.
    destruct (_ && _); [| intros [= <- <-]; auto].
    destruct (extract_lut _ _ _) as [sc ok] eqn:Hex.
    destruct (extract_lut_grounded (m_clause_of cf) sa sc ok Hta Hga)
      as [Htc Hgc]; [eauto | | exact Hex |].
    { apply (nth_filters_distinct s F (var l)); assumption. }
    destruct ok; intros [= <- <-].
    - split; [apply add_lut_grounded, Hgc | discriminate].
    - auto. }
  destruct H1 as [Hg1 Ht1].
  destruct done1; [intros [= <- <-]; split; [exact Hg1 | discriminate] |].
  specialize (Ht1 eq_refl).
  destruct (try_watch_list s l st1) as [st2 done2] eqn:Hw.
  destruct (try_watch_list_grounded l st1 st2 done2 Hl Ht1 Hg1 Hw) as [Hg2 Ht2].
  destruct done2; [intros [= <- <-]; split; [exact Hg2 | discriminate] |].
  apply try_watch_list_grounded; auto.
Qed.

Lemma check_lut_grounded (st0 st' : lut_finder) (found : bool) :
  (forall l, l ∈ lits (heap s c) -> var l < length (m_var_position st0)) ->
  m_clause_filters st0 = F ->
  check_lut s c st0 = (st', found) ->
  grounded s c F st'.
Proof.
  intros Hb HF. unfold check_lut. cbv zeta.
  destruct (seed_grounded st0 Hb HF) as [Htr Hgr].
  destruct (first_success _ _ _) as [st1 found'] eqn:Hloop.
  intros [= <- <-].
  assert (H : grounded s c F st1 /\ (found' = false -> tracking s c F st1)).
  { revert Hloop.
    apply (first_success_ind
             (fun st b => grounded s c F st /\ (b = false -> tracking s c F st)));
      [| auto].
    intros l sa sb bb Hl [Hga Hta].
    apply try_literal_grounded; [| auto | exact Hga].
    apply elem_of_map_iff. eauto. }
  destruct H as [H _]. unfold grounded in *. proj_simpl. exact H.
Qed.

End Grounded.

(** ** The clauses scheduled for removal *)

(** C3, as stated, on the seed ¬x0 ∨ ¬x1 ∨ ¬x2 ∨ ¬x3: the attempt
    succeeds with the word 0xFF00, in which a row is witnessed for each of
    the 8 assignments of x0, x1, x2; the rows 12 and 13 come from the smaller
    clause x1 ∨ ¬x2 ∨ ¬x3 and the rows 8 to 11 from the binary clause
    x2 ∨ ¬x3, and only the seed and the other clause of 4 literals are
    scheduled. *)
Lemma contributors_are_scheduled_counterexample :
  snd (check_lut quad_solver 0
         (pass_start quad_solver 6 [0; 1; 2] empty_finder)) = true /\
  m_combination
    (fst (check_lut quad_solver 0
            (pass_start quad_solver 6 [0; 1; 2] empty_finder))) = 0xFF00%Z /\
  some_row_witnessed 3 4 0xFF00%Z /\
  m_clauses_to_remove
    (fst (check_lut quad_solver 0
            (pass_start quad_solver 6 [0; 1; 2] empty_finder))) = [0; 1] /\
  SrcClause 2
  ∈ g_sources
      (fst (check_lut quad_solver 0
              (pass_start quad_solver 6 [0; 1; 2] empty_finder))) /\
  ~ contributors_are_scheduled
      (fst (check_lut quad_solver 0
              (pass_start quad_solver 6 [0; 1; 2] empty_finder))).
Proof.
  assert (Hs : g_sources
                 (fst (check_lut quad_solver 0
                         (pass_start quad_solver 6 [0; 1; 2] empty_finder)))
               = [SrcSeed 0; SrcClause 1; SrcClause 2; SrcClause 2; SrcClause 2;
                  SrcBinary (neg_of 3) (pos 2)]) by (vm_compute; reflexivity).
  assert (Hr : m_clauses_to_remove
                 (fst (check_lut quad_solver 0
                         (pass_start quad_solver 6 [0; 1; 2] empty_finder)))
               = [0; 1]) by (vm_compute; reflexivity).
  assert (Hin : SrcClause 2
                ∈ [SrcSeed 0; SrcClause 1; SrcClause 2; SrcClause 2; SrcClause 2;
                   SrcBinary (neg_of 3) (pos 2)]).
  { apply list_elem_of_In. do 2 right. left. reflexivity. }
  split; [vm_compute; reflexivity |].
  split; [vm_compute; reflexivity |].
  split.
  { intros r Hr' Hbit. change (2 ^ Z.of_nat 4)%Z with 16%Z in Hr'.
    assert (Hcases : (r = 0 \/ r = 1 \/ r = 2 \/ r = 3 \/ r = 4 \/ r = 5
                      \/ r = 6 \/ r = 7 \/ 8 <= r < 16)%Z) by lia.
    destruct Hcases as [-> | [-> | [-> | [-> | [-> | [-> | [-> | [-> | Hhigh]]]]]]]];
      try (right; reflexivity).
    left.
    assert (Hc : (r = 8 \/ r = 9 \/ r = 10 \/ r = 11 \/ r = 12 \/ r = 13
                  \/ r = 14 \/ r = 15)%Z) by lia.
    destruct Hc as [-> | [-> | [-> | [-> | [-> | [-> | [-> | ->]]]]]]];
      reflexivity. }
  split; [exact Hr |].
  split; [rewrite Hs; exact Hin |].
  intros [H _]. specialize (H 2). rewrite Hs, Hr in H.
  destruct H as [_ H].
  assert (H2 : 2 ∈ [0; 1]) by (apply H; right; exact Hin).
  apply elem_of_cons in H2 as [H2 | H2]; [discriminate H2 |].
  apply list_elem_of_singleton in H2. discriminate H2.
Qed.

(** The reading of C3 is not out of reach: on the seed ¬x0 ∨ ¬x1 ∨ ¬x2
    with the three other clauses of 3 literals that contain ¬x2 the attempt
    succeeds and schedules exactly its four sources. *)
Lemma contributors_are_scheduled_attainable :
  snd (check_lut trio_solver 0
         (pass_start trio_solver 6 [0; 1; 2; 3] empty_finder)) = true /\
  contributors_are_scheduled
    (fst (check_lut trio_solver 0
            (pass_start trio_solver 6 [0; 1; 2; 3] empty_finder))).
Proof.
  split; [vm_compute; reflexivity |].
  assert (Hs : g_sources
                 (fst (check_lut trio_solver 0
                         (pass_start trio_solver 6 [0; 1; 2; 3] empty_finder)))
               = [SrcSeed 0; SrcClause 1; SrcClause 2; SrcClause 3])
    by (vm_compute; reflexivity).
  assert (Hr : m_clauses_to_remove
                 (fst (check_lut trio_solver 0
                         (pass_start trio_solver 6 [0; 1; 2; 3] empty_finder)))
               = [0; 1; 2; 3]) by (vm_compute; reflexivity).
  split.
  - intros x. rewrite Hs, Hr, !list_elem_of_In. clear Hs Hr. cbn [In]. split.
    + intros [<- | [<- | [<- | [<- | []]]]]; auto 10.
    + intros [[H | [H | [H | [H | []]]]] | [H | [H | [H | [H | []]]]]];
        try discriminate H; injection H as <-; auto 10.
  - intros l1 l2. rewrite Hs, list_elem_of_In. clear Hs Hr. cbn [In].
    intros [H | [H | [H | [H | []]]]]; discriminate H.
Qed.

(** C3 (amended): on every successful attempt the callback is made once
    and the clauses scheduled for removal are exactly the seed clause and the
    index clauses that passed the subset test and have as many literals as
    the seed; they are what [add_lut] appends to [m_removed_clauses].  When
    the seed has at most 6 literals over pairwise distinct variables inside
    [m_var_position] and no clause of the index repeats a variable, the
    witnessed rows of the word are exactly the rows of the logged sources
    (the seed, index clauses over variables of the seed, binary clauses of
    the watch lists over variables of the seed), and the row of every
    scheduled clause is witnessed; sources with fewer literals and binary
    clauses give rows without being scheduled. *)
Theorem check_lut_scheduled (s : solver) (c : clause_id) (st st' : lut_finder) :
  check_lut s c st = (st', true) ->
  ((forall x, x ∈ m_clauses_to_remove st' <->
      x = c \/
      (SrcClause x ∈ g_sources st' /\ size (heap s x) = size (heap s c))) /\
   SrcSeed c ∈ g_sources st' /\
   m_removed_clauses st' = m_removed_clauses st ++ m_clauses_to_remove st' /\
   exists call,
     on_lut_calls st' = on_lut_calls st ++ [call] /\ call_seed call = c) /\
  (size (heap s c) <= 6 ->
   NoDup (map var (lits (heap s c))) ->
   (forall l, l ∈ lits (heap s c) -> var l < length (m_var_position st)) ->
   filters_distinct s (m_clause_filters st) ->
   (forall src, src ∈ g_sources st' ->
      source_admitted s c (m_clause_filters st) src) /\
   (forall r, (0 <= r)%Z ->
      Z.testbit (m_combination st') r = true <->
      exists src, src ∈ g_sources st' /\ source_row s c src r) /\
   (forall x, x ∈ m_clauses_to_remove st' ->
      Z.testbit (m_combination st') (row_of s c x) = true)).
Proof.
  intros Hcl.
  assert (Hsched :
    forall x, x ∈ m_clauses_to_remove st' <->
      x = c \/
      (SrcClause x ∈ g_sources st' /\ size (heap s x) = size (heap s c))).
  { destruct (check_lut_attempt s c st st' true Hcl) as (st1 & Hat & ->).
    proj_simpl. intros x.
    rewrite (at_to_remove _ _ _ _ _ Hat), elem_of_cons. unfold scheduled.
    rewrite list_elem_of_omap. split.
    - intros [-> | (src & Hsrc & Hx)]; [left; reflexivity | right].
      destruct src as [y | y | l1 l2]; try discriminate.
      destruct (Nat.eqb_spec (size (heap s y)) (size (heap s c)));
        [| discriminate].
      injection Hx as ->. auto.
    - intros [-> | [Hsrc Hsz]]; [left; reflexivity | right].
      exists (SrcClause x). split; [exact Hsrc |].
      rewrite (proj2 (Nat.eqb_eq _ _) Hsz). reflexivity. }
  assert (Hseed : SrcSeed c ∈ g_sources st').
  { destruct (check_lut_attempt s c st st' true Hcl) as (st1 & Hat & ->).
    proj_simpl. apply (at_sources_seed _ _ _ _ _ Hat). }
  split.
  - split; [exact Hsched |]. split; [exact Hseed |].
    destruct (check_lut_attempt s c st st' true Hcl) as (st1 & Hat & ->).
    proj_simpl. split; [apply (at_removed _ _ _ _ _ Hat) |].
    apply (at_calls _ _ _ _ _ Hat).
  - intros Hsz Hnd Hb HF.
    destruct (check_lut_grounded s c (m_clause_filters st) Hsz Hnd HF
                st st' true Hb eq_refl Hcl) as [Hadm Hrows].
    split; [exact Hadm |]. split; [exact Hrows |].
    intros x Hx.
    assert (Hrow : exists src, src ∈ g_sources st'
                               /\ source_row s c src (row_of s c x)).
    { apply Hsched in Hx as [-> | [Hsrc _]].
      - exists (SrcSeed c). split; [exact Hseed |].
        apply (row_of_source_row s c c Hnd).
      - exists (SrcClause x). split; [exact Hsrc |].
        apply row_of_source_row.
        destruct (Hadm _ Hsrc) as (_ & Hd & _).
        unfold all_distinct in Hd. apply bool_decide_eq_true in Hd. exact Hd. }
    apply Hrows; [| exact Hrow].
    destruct Hrow as (src & _ & [Hrange _]). lia.
Qed.

Lemma check_lut_scheduled_witness :
  check_lut quad_solver 0 (pass_start quad_solver 6 [0; 1; 2] empty_finder)
  = (fst (check_lut quad_solver 0
            (pass_start quad_solver 6 [0; 1; 2] empty_finder)), true) /\
  size (heap quad_solver 0) <= 6 /\
  NoDup (map var (lits (heap quad_solver 0))) /\
  (forall l, l ∈ lits (heap quad_solver 0) ->
     var l < length (m_var_position
                       (pass_start quad_solver 6 [0; 1; 2] empty_finder))) /\
  filters_distinct quad_solver
    (m_clause_filters (pass_start quad_solver 6 [0; 1; 2] empty_finder)) /\
  forall x,
    x ∈ m_clauses_to_remove
          (fst (check_lut quad_solver 0
                  (pass_start quad_solver 6 [0; 1; 2] empty_finder))) ->
    Z.testbit
      (m_combination
         (fst (check_lut quad_solver 0
                 (pass_start quad_solver 6 [0; 1; 2] empty_finder))))
      (row_of quad_solver 0 x) = true.
Proof.
  assert (H : check_lut quad_solver 0
                (pass_start quad_solver 6 [0; 1; 2] empty_finder)
              = (fst (check_lut quad_solver 0
                        (pass_start quad_solver 6 [0; 1; 2] empty_finder)), true)).
  { assert (Hb : snd (check_lut quad_solver 0
                        (pass_start quad_solver 6 [0; 1; 2] empty_finder)) = true)
      by (vm_compute; reflexivity).
    pose proof (surjective_pairing
                  (check_lut quad_solver 0
                     (pass_start quad_solver 6 [0; 1; 2] empty_finder))) as E.
    rewrite Hb in E. exact E. }
  assert (H1 : size (heap quad_solver 0) <= 6) by (cbn; lia).
  assert (H2 : NoDup (map var (lits (heap quad_solver 0)))).
  { assert (Hd : all_distinct (heap quad_solver 0) = true)
      by (vm_compute; reflexivity).
    unfold all_distinct in Hd. apply bool_decide_eq_true in Hd. exact Hd. }
  assert (H3 : forall l, l ∈ lits (heap quad_solver 0) ->
                 var l < length (m_var_position
                                   (pass_start quad_solver 6 [0; 1; 2]
                                      empty_finder))).
  { replace (length (m_var_position
                       (pass_start quad_solver 6 [0; 1; 2] empty_finder)))
      with 4 by (vm_compute; reflexivity).
    cbn. intros l Hl.
    repeat (apply elem_of_cons in Hl as [-> | Hl]; [cbn; lia |]).
    apply elem_of_nil in Hl. destruct Hl. }
  assert (H4 : filters_distinct quad_solver
                 (m_clause_filters
                    (pass_start quad_solver 6 [0; 1; 2] empty_finder))).
  { destruct (pass_start_pass_inv quad_solver 6 [0; 1; 2] empty_finder)
      as (F0 & HF0 & HI). destruct HI as [-> _]. exact HF0. }
  split; [exact H |]. split; [exact H1 |]. split; [exact H2 |].
  split; [exact H3 |]. split; [exact H4 |].
  exact (proj2 (proj2 (proj2 (check_lut_scheduled quad_solver 0 _ _ H)
                         H1 H2 H3 H4))).
Defined.
